(** * Deduplication and incremental-tracking core of the signal pipeline

    A shallow embedding of the two trackers of the pipeline,

    - [CollectionTracker]      (src/utils/collection_tracker.mjs), and
    - [AdvancedDeduplication]  (the deduplication/publishing tracker),

    together with the string primitives of the platform they rely on.

    Modelling conventions.
    - A JavaScript string is a [string]; its characters stand for 7-bit
      ASCII code units, so [toLowerCase] maps [A-Z] to [a-z] and the
      classes [\w] and [\s] are the ASCII ones.
    - A field of a signal that is missing ([undefined]) and a field that
      is the empty string are both falsy in every place the trackers look
      at them; both are the empty string here.
    - A JavaScript object used as a dictionary is a [gmap string _]; keys
      are taken not to collide with members inherited from
      [Object.prototype].
    - A time stamp ([new Date().toISOString()], read back with
      [new Date(...)]) is the number of milliseconds since the epoch, a
      [Z].  Each tracker method reads the clock as one value [now].
    - The local time zone is the platform's: its adjustment [LocalTZA]
      is a parameter of the collection tracker, with values of less than
      a day either way.
    - Similarity values are quotients of two small integers; they are
      exact rationals ([Q]) here. *)

From Stdlib Require Import ZArith QArith Lia Ascii.
From Stdlib Require String.
From stdpp Require Import gmap strings list fin_maps.

Local Open Scope Z_scope.

(** ** String primitives of the platform *)

Module JS.

Definition charCode (c : ascii) : Z := Z.of_nat (nat_of_ascii c).

Definition inRange (lo hi : Z) (c : ascii) : bool :=
  (lo <=? charCode c) && (charCode c <=? hi).

Definition isUpper (c : ascii) : bool := inRange 65 90 c.
Definition isLower (c : ascii) : bool := inRange 97 122 c.
Definition isDigit (c : ascii) : bool := inRange 48 57 c.

(** [\w] is [[A-Za-z0-9_]]. *)
Definition isWord (c : ascii) : bool :=
  isUpper c || isLower c || isDigit c || (charCode c =? 95).

(** [\s] on ASCII: tab, line feed, vertical tab, form feed, carriage
    return and space. *)
Definition isSpace (c : ascii) : bool :=
  inRange 9 13 c || (charCode c =? 32).

Definition lowerChar (c : ascii) : ascii :=
  if isUpper c then ascii_of_nat (nat_of_ascii c + 32) else c.

(** [s.toLowerCase()] *)
Fixpoint toLowerCase (s : string) : string :=
  match s with
  | EmptyString => EmptyString
  | String c s' => String (lowerChar c) (toLowerCase s')
  end.

(** [s.replace(/[^...]/g, '')]: keep the characters of the class. *)
Fixpoint keepChars (keep : ascii -> bool) (s : string) : string :=
  match s with
  | EmptyString => EmptyString
  | String c s' =>
      if keep c then String c (keepChars keep s') else keepChars keep s'
  end.

(** [s.replace(/\s+/g, ' ')]; [inRun] tells that the previous character
    was white space. *)
Fixpoint collapseSpaces (inRun : bool) (s : string) : string :=
  match s with
  | EmptyString => EmptyString
  | String c s' =>
      if isSpace c
      then if inRun then collapseSpaces true s'
           else String " "%char (collapseSpaces true s')
      else String c (collapseSpaces false s')
  end.

Fixpoint trimStart (s : string) : string :=
  match s with
  | EmptyString => EmptyString
  | String c s' => if isSpace c then trimStart s' else s
  end.

Fixpoint trimEnd (s : string) : string :=
  match s with
  | EmptyString => EmptyString
  | String c s' =>
      match trimEnd s' with
      | EmptyString => if isSpace c then EmptyString else String c EmptyString
      | r => String c r
      end
  end.

(** [s.trim()] *)
Definition trim (s : string) : string := trimEnd (trimStart s).

(** [s.split(c)[0]]: the part of [s] before the first [c]. *)
Fixpoint splitHead (c : ascii) (s : string) : string :=
  match s with
  | EmptyString => EmptyString
  | String d s' =>
      if Ascii.eqb d c then EmptyString else String d (splitHead c s')
  end.

(** [hay.includes(needle)] *)
Fixpoint includes (hay needle : string) : bool :=
  String.prefix needle hay ||
  match hay with
  | EmptyString => false
  | String _ hay' => includes hay' needle
  end.

(** [s.endsWith('/')] *)
Fixpoint endsWithSlash (s : string) : bool :=
  match s with
  | EmptyString => false
  | String c EmptyString => Ascii.eqb c "/"%char
  | String _ s' => endsWithSlash s'
  end.

(** [s.slice(0, -1)] *)
Fixpoint dropLast (s : string) : string :=
  match s with
  | EmptyString => EmptyString
  | String _ EmptyString => EmptyString
  | String c s' => String c (dropLast s')
  end.

(** [s.length] *)
Definition len (s : string) : Z := Z.of_nat (String.length s).

(** [a || b] on strings: the empty string is falsy. *)
Definition orElse (a b : string) : string :=
  if String.eqb a "" then b else a.

Definition truthy (s : string) : bool := negb (String.eqb s "").

(** [ToInt32]: wrap into the signed 32-bit range. *)
Definition toInt32 (z : Z) : Z := (z + 2 ^ 31) mod 2 ^ 32 - 2 ^ 31.

(** The digit characters of [Number.prototype.toString(36)]. *)
Definition digitChar (d : Z) : ascii :=
  if d <? 10 then ascii_of_nat (Z.to_nat (48 + d))
  else ascii_of_nat (Z.to_nat (87 + d)).

(** Digits of [n], most significant first, prepended to [acc].  The loop
    stops when the quotient is zero; [fuel] bounds the number of digits. *)
Fixpoint digits36 (fuel : nat) (n : Z) (acc : string) : string :=
  match fuel with
  | O => acc
  | S fuel' =>
      let acc' := String (digitChar (n mod 36)) acc in
      if n / 36 =? 0 then acc' else digits36 fuel' (n / 36) acc'
  end.

(** [n.toString(36)] for an integer [0 <= n]: a number below [2 ^ k] has
    at most [k] digits in base 36. *)
Definition toString36 (n : Z) : string :=
  digits36 (S (Z.to_nat (Z.log2 n))) n "".

(** Reading a base-36 numeral back ([parseInt(s, 36)]), used to state that
    [toString36] never runs out of fuel. *)
Definition digitValue (c : ascii) : Z :=
  if isDigit c then charCode c - 48 else charCode c - 87.

Fixpoint parse36 (acc : Z) (s : string) : Z :=
  match s with
  | EmptyString => acc
  | String c s' => parse36 (36 * acc + digitValue c) s'
  end.

End JS.

(** ** The approximate hasher *)

Module Hasher.

(** One round of the loop of [simpleHash]:
    [hash = ((hash << 5) - hash) + char; hash = hash & hash]. *)
Definition hashStep (hash : Z) (c : ascii) : Z :=
  let hash := (JS.toInt32 (Z.shiftl (JS.toInt32 hash) 5) - hash) + JS.charCode c in
  Z.land (JS.toInt32 hash) (JS.toInt32 hash).

Fixpoint hashLoop (hash : Z) (str : string) : Z :=
  match str with
  | EmptyString => hash
  | String c str' => hashLoop (hashStep hash c) str'
  end.

Definition simpleHash (str : string) : string :=
  JS.toString36 (Z.abs (hashLoop 0 str)).

(** The normalisation shared by [generateContentHash], [generateTitleHash]
    and the collection tracker's [normalizeTitle]. *)
Definition normalizeText (s : string) : string :=
  JS.trim (JS.collapseSpaces false
            (JS.keepChars (fun c => JS.isWord c || JS.isSpace c)
               (JS.toLowerCase s))).

Definition generateContentHash (content : string) : string :=
  if JS.truthy content then simpleHash (normalizeText content) else "".

Definition generateTitleHash (title : string) : string :=
  if JS.truthy title then simpleHash (normalizeText title) else "".

Definition generateSourceHash (source : string) : string :=
  if JS.truthy source then simpleHash (JS.trim (JS.toLowerCase source)) else "".

(** Number of positions [i < min len1 len2] with [hash1[i] === hash2[i]]. *)
Fixpoint matches (hash1 hash2 : string) : Z :=
  match hash1, hash2 with
  | String c1 r1, String c2 r2 =>
      (if Ascii.eqb c1 c2 then 1 else 0) + matches r1 r2
  | _, _ => 0
  end.

(** The count in the words of the specification: the positions below the
    shorter length at which the two hashes carry the same character. *)
Definition matchingPositions (h1 h2 : string) : nat :=
  length (filter (fun i => String.get i h1 = String.get i h2)
            (seq 0 (Nat.min (String.length h1) (String.length h2)))).

Definition calculateSimilarity (hash1 hash2 : string) : Q :=
  let maxLen := Z.max (JS.len hash1) (JS.len hash2) in
  if maxLen =? 0 then 1%Q
  else Qmake (matches hash1 hash2) (Z.to_pos maxLen).

End Hasher.

(** ** Signals *)

(** The fields of a signal that the trackers read.  Release items carry
    [url]/[repo], Indonesian feeds carry [judul]; analyses handed to the
    deduplication tracker carry [content]. *)
Record Signal := {
  url : string;
  link : string;
  title : string;
  judul : string;
  source : string;
  repo : string;
  content : string
}.

(** ** The platform's URL class, as far as [normalizeUrl] uses it *)

Record URL := {
  protocol : string;
  host : string;
  pathname : string;
  searchParams : list (string * string)
}.

(** [urlObj.searchParams.delete(param)] *)
Definition searchParams_delete (param : string) (urlObj : URL) : URL :=
  {| protocol := protocol urlObj;
     host := host urlObj;
     pathname := pathname urlObj;
     searchParams :=
       filter (fun kv : string * string => kv.1 ≠ param) (searchParams urlObj) |}.

(** ** The collection tracker (src/utils/collection_tracker.mjs) *)

Module CollectionTracker.

(** [tracker.global] and [tracker.today] are objects whose [collected]
    member is missing until the first mark (or when the file lacks it). *)
Record Scope := { collected : option (gmap string Z) }.

Record Tracker := {
  global : Scope;
  today : Scope;
  lastUpdated : Z
}.

(** [loadTracker] when neither file exists (or neither parses). *)
Definition freshTracker (now : Z) : Tracker :=
  {| global := {| collected := None |};
     today := {| collected := None |};
     lastUpdated := now |}.

Definition msPerDay : Z := 1000 * 60 * 60 * 24.

(** A local time zone adjustment in milliseconds, as the platform's
    [LocalTZA] gives it: less than a day either way. *)
Record Offset := {
  offset_ms : Z;
  offset_bound : (Z.abs offset_ms <? msPerDay) = true
}.

(** A key is on record for today. *)
Definition markedToday (k : string) (t : Tracker) : Prop :=
  exists c, collected (today t) = Some c /\ is_Some (c !! k).

Section WithURL.

(** [new URL(url)]: [None] when the constructor throws.  The parser is the
    platform's, not the repository's; the tracker is stated for any. *)
Variable parseURL : string -> option URL.

(** [LocalTZA(t, isUTC)]: the adjustment of the platform's time zone at
    [t], where [t] is a UTC time ([isUTC]) or a local time.  The zone is
    the platform's; the tracker is stated for any. *)
Variable LocalTZA : Z -> bool -> Offset.

Definition paramsToRemove : list string :=
  ["utm_source"; "utm_medium"; "utm_campaign"; "utm_content"; "utm_term";
   "ref"; "source"].

Definition normalizeUrl (url : string) : string :=
  if negb (JS.truthy url) then ""
  else
    match parseURL url with
    | Some urlObj =>
        let urlObj :=
          foldl (fun u param => searchParams_delete param u) urlObj paramsToRemove in
        let path := pathname urlObj in
        let path :=
          if JS.endsWithSlash path && (1 <? JS.len path)
          then JS.dropLast path else path in
        protocol urlObj +:+ "//" +:+ host urlObj +:+ path
    | None => url
    end.

Definition normalizeTitle (title : string) : string :=
  if negb (JS.truthy title) then "" else Hasher.normalizeText title.

(** [signal.url || signal.link || ''], [signal.title || signal.judul || '']
    and [signal.source || signal.repo || 'Unknown']. *)
Definition signalUrl (signal : Signal) : string :=
  JS.orElse (url signal) (JS.orElse (link signal) "").

Definition signalTitle (signal : Signal) : string :=
  JS.orElse (title signal) (JS.orElse (judul signal) "").

Definition signalSource (signal : Signal) : string :=
  JS.orElse (source signal) (JS.orElse (repo signal) "Unknown").

(** The third of the four keys: the title alone. *)
Definition titleKey (signal : Signal) : string :=
  JS.toLowerCase (normalizeTitle (signalTitle signal)).

(** The four keys built (with the same code) by [isAlreadyCollected] and
    [markAsCollected]. *)
Definition signalKeys (signal : Signal) : list string :=
  let url := signalUrl signal in
  let title := signalTitle signal in
  let source := signalSource signal in
  let normalizedUrl := normalizeUrl url in
  let normalizedTitle := normalizeTitle title in
  [ JS.toLowerCase (source +:+ ":" +:+ normalizedUrl +:+ ":" +:+ normalizedTitle);
    JS.toLowerCase (source +:+ ":" +:+ normalizedUrl);
    JS.toLowerCase normalizedTitle;
    JS.toLowerCase (source +:+ ":" +:+ normalizedTitle) ].

(** The scan of today's collection: any key present. *)
Definition foundToday (keys : list string) (t : Tracker) : bool :=
  match collected (today t) with
  | Some c => existsb (fun key => bool_decide (is_Some (c !! key))) keys
  | None => false
  end.

(** The scan of the global collection: a key present and collected at
    most seven days ago, [(now - collectedDate) / msPerDay <= 7]. *)
Definition foundGlobal (now : Z) (keys : list string) (t : Tracker) : bool :=
  match collected (global t) with
  | Some c =>
      existsb (fun key =>
                 match c !! key with
                 | Some collectedDate => now - collectedDate <=? 7 * msPerDay
                 | None => false
                 end) keys
  | None => false
  end.

Definition isAlreadyCollected (now : Z) (signal : Signal) (t : Tracker) : bool :=
  let keys := signalKeys signal in
  if foundToday keys t then true
  else if foundGlobal now keys t then true
  else false.

(** [thirtyDaysAgo.setDate(thirtyDaysAgo.getDate() - 30)] on [new Date()]:
    [setDate] works on the local time, [t = LocalTime(now)]; thirty days
    before the day of the month is the same time of day thirty calendar
    days earlier, [newDate]; the date then holds [UTC(newDate)]. *)
Definition thirtyDaysAgo (now : Z) : Z :=
  let t := now + offset_ms (LocalTZA now true) in
  let newDate := t - 30 * msPerDay in
  newDate - offset_ms (LocalTZA newDate false).

Definition cleanupOldEntries (now : Z) (t : Tracker) : Tracker :=
  match collected (global t) with
  | Some c =>
      let keysToDelete :=
        (filter (fun kv : string * Z => kv.2 < thirtyDaysAgo now)
                (map_to_list c)).*1 in
      {| global := {| collected := Some (foldl (fun m key => delete key m) c keysToDelete) |};
         today := today t;
         lastUpdated := lastUpdated t |}
  | None => t
  end.

Definition markAsCollected (now : Z) (signal : Signal) (t : Tracker) : Tracker :=
  let keys := signalKeys signal in
  let timestamp := now in
  let todayCollected := default ∅ (collected (today t)) in
  let globalCollected := default ∅ (collected (global t)) in
  let mark := fun (m : gmap string Z) key => <[key := timestamp]> m in
  cleanupOldEntries now
    {| global := {| collected := Some (foldl mark globalCollected keys) |};
       today := {| collected := Some (foldl mark todayCollected keys) |};
       lastUpdated := lastUpdated t |}.

Record FilterResult := {
  newSignals : list Signal;
  skippedSignals : list Signal
}.

(** The loop of [filterNewSignals]; the two arrays grow by [push]. *)
Fixpoint filterLoop (now : Z) (signals : list Signal) (t : Tracker)
    (acc : FilterResult) : FilterResult * Tracker :=
  match signals with
  | [] => (acc, t)
  | signal :: rest =>
      if isAlreadyCollected now signal t
      then filterLoop now rest t
             {| newSignals := newSignals acc;
                skippedSignals := skippedSignals acc ++ [signal] |}
      else filterLoop now rest (markAsCollected now signal t)
             {| newSignals := newSignals acc ++ [signal];
                skippedSignals := skippedSignals acc |}
  end.

Definition filterNewSignals (now : Z) (signals : list Signal) (t : Tracker)
    : FilterResult * Tracker :=
  filterLoop now signals t {| newSignals := []; skippedSignals := [] |}.

End WithURL.

(** The files of the tracker: [data/collection_tracker.json] and one
    [collection_tracker.json] per day directory, each holding what
    [JSON.stringify] wrote of a scope.  A file that is missing or does not
    parse is [None]; [loadTracker] then starts from an empty object. *)
Record Files := {
  trackerFile : option Scope;
  todayFile : gmap string Scope
}.

(** [loadTracker] of an instance constructed on [day] (the date part of
    [new Date().toISOString()]). *)
Definition loadTracker (day : string) (now : Z) (files : Files) : Tracker :=
  {| global := default {| collected := None |} (trackerFile files);
     today := default {| collected := None |} (todayFile files !! day);
     lastUpdated := now |}.

Definition saveTracker (day : string) (t : Tracker) (files : Files) : Files :=
  {| trackerFile := Some (global t);
     todayFile := <[day := today t]> (todayFile files) |}.

End CollectionTracker.

(** ** The deduplication / publishing tracker *)

Module Options.

(** The options object of [checkDeduplication] and
    [filterSignalsForPublishing]; a member left out takes its default. *)
Record t := {
  contentSimilarityThreshold : Q;
  titleSimilarityThreshold : Q;
  maxSourcePerHour : Z;
  maxSignalsPerRun : Z;
  checkContent : bool;
  checkTitle : bool;
  checkSource : bool;
  checkAlreadyPublished : bool;
  checkURLProcessed : bool
}.

Definition defaults : t :=
  {| contentSimilarityThreshold := 8 # 10;
     titleSimilarityThreshold := 9 # 10;
     maxSourcePerHour := 3;
     maxSignalsPerRun := 50;
     checkContent := true;
     checkTitle := true;
     checkSource := true;
     checkAlreadyPublished := true;
     checkURLProcessed := true |}.

End Options.

Module AdvancedDeduplication.

(** A record of [published] or [content_hashes]; [e_status] is the
    [status] member, missing ([None]) unless the writer sets it. *)
Record Entry := {
  e_timestamp : Z;
  e_source : string;
  e_title : string;
  e_link : string;
  e_status : option string
}.

(** A record of [title_hashes]. *)
Record TitleEntry := {
  te_timestamp : Z;
  te_source : string;
  te_link : string
}.

Record Tracker := {
  published : gmap string Entry;
  content_hashes : gmap string Entry;
  title_hashes : gmap string TitleEntry;
  source_hashes : gmap string (list Z);
  lastUpdated : Z
}.

(** [loadTracker] when the file does not exist or does not parse. *)
Definition emptyTracker (now : Z) : Tracker :=
  {| published := ∅; content_hashes := ∅; title_hashes := ∅;
     source_hashes := ∅; lastUpdated := now |}.

(** The object returned by [checkContentSimilarity] ([E := Entry]) and
    [checkTitleSimilarity] ([E := TitleEntry]).  [Object.keys] is taken in
    the order of [map_to_list]; which of several similar hashes is met
    first only shows in [sc_similarity] and [sc_original]. *)
Record SimilarityCheck (E : Type) := {
  sc_isDuplicate : bool;
  sc_similarity : Q;
  sc_reason : option string;
  sc_original : option E
}.
Arguments sc_isDuplicate {E} _.
Arguments sc_similarity {E} _.
Arguments sc_reason {E} _.
Arguments sc_original {E} _.

Definition similarityScan {E : Type} (hash : string) (threshold : Q)
    (exact similar : string) (index : gmap string E) : SimilarityCheck E :=
  match index !! hash with
  | Some original =>
      {| sc_isDuplicate := true; sc_similarity := 1;
         sc_reason := Some exact; sc_original := Some original |}
  | None =>
      match find (fun kv : string * E =>
                    Qle_bool threshold (Hasher.calculateSimilarity hash kv.1))
                 (map_to_list index) with
      | Some (existingHash, original) =>
          {| sc_isDuplicate := true;
             sc_similarity := Hasher.calculateSimilarity hash existingHash;
             sc_reason := Some similar; sc_original := Some original |}
      | None =>
          {| sc_isDuplicate := false; sc_similarity := 0;
             sc_reason := None; sc_original := None |}
      end
  end.

Definition checkContentSimilarity (content : string) (threshold : Q)
    (t : Tracker) : SimilarityCheck Entry :=
  similarityScan (Hasher.generateContentHash content) threshold
    "exact_content_match" "similar_content" (content_hashes t).

Definition checkTitleSimilarity (title : string) (threshold : Q)
    (t : Tracker) : SimilarityCheck TitleEntry :=
  similarityScan (Hasher.generateTitleHash title) threshold
    "exact_title_match" "similar_title" (title_hashes t).

Record FrequencyCheck := {
  fc_isDuplicate : bool;
  fc_reason : option string;
  fc_count : Z;
  fc_limit : option Z
}.

Definition checkSourceFrequency (now : Z) (source : string) (maxPerHour : Z)
    (t : Tracker) : FrequencyCheck :=
  let oneHourAgo := now - 60 * 60 * 1000 in
  let sourceKey := JS.trim (JS.toLowerCase source) in
  let sourceHistory := default [] (source_hashes t !! sourceKey) in
  let recentPosts := filter (fun timestamp => oneHourAgo < timestamp) sourceHistory in
  if maxPerHour <=? Z.of_nat (length recentPosts)
  then {| fc_isDuplicate := true; fc_reason := Some "source_frequency_limit";
          fc_count := Z.of_nat (length recentPosts); fc_limit := Some maxPerHour |}
  else {| fc_isDuplicate := false; fc_reason := None;
          fc_count := Z.of_nat (length recentPosts); fc_limit := None |}.

Definition generateSignalKey (signal : Signal) : string :=
  let source := JS.toLowerCase (JS.orElse (source signal) "") in
  let link := JS.toLowerCase (JS.orElse (link signal) "") in
  let title :=
    JS.keepChars (fun c => JS.isLower c || JS.isDigit c)
      (JS.toLowerCase (JS.orElse (title signal) "")) in
  source +:+ ":" +:+ link +:+ ":" +:+ title.

Definition checkAlreadyPublished (signal : Signal) (t : Tracker) : bool :=
  bool_decide (is_Some (published t !! generateSignalKey signal)).

(** [url.split('?')[0].split('#')[0].toLowerCase()] *)
Definition cleanUrl (url : string) : string :=
  JS.toLowerCase (JS.splitHead "#" (JS.splitHead "?" url)).

(** [value.link && value.link.toLowerCase().includes(cleanUrl)] *)
Definition linkHit (cleanUrl : string) (value : Entry) : bool :=
  JS.truthy (e_link value) && JS.includes (JS.toLowerCase (e_link value)) cleanUrl.

Definition checkURLAlreadyProcessed (url : string) (t : Tracker) : bool :=
  if negb (JS.truthy url) then false
  else
    let cleanUrl := cleanUrl url in
    if existsb (fun kv => linkHit cleanUrl kv.2) (map_to_list (published t))
    then true
    else if existsb (fun kv => linkHit cleanUrl kv.2) (map_to_list (content_hashes t))
    then true
    else false.

Record Details := {
  urlProcessed : bool;
  alreadyPublished : bool;
  contentSimilarity : option (SimilarityCheck Entry);
  titleSimilarity : option (SimilarityCheck TitleEntry);
  sourceFrequency : option FrequencyCheck
}.

Record Result := {
  isDuplicate : bool;
  reasons : list string;
  details : Details
}.

Definition noDetails : Details :=
  {| urlProcessed := false; alreadyPublished := false;
     contentSimilarity := None; titleSimilarity := None;
     sourceFrequency := None |}.

(** Step 3 of [checkDeduplication]. *)
Definition contentStep (signal : Signal) (options : Options.t) (t : Tracker)
    (results : Result) : Result :=
  if Options.checkContent options && JS.truthy (content signal) then
    let contentCheck :=
      checkContentSimilarity (content signal)
        (Options.contentSimilarityThreshold options) t in
    if sc_isDuplicate contentCheck then
      {| isDuplicate := true;
         reasons := reasons results ++ [default "" (sc_reason contentCheck)];
         details :=
           {| urlProcessed := urlProcessed (details results);
              alreadyPublished := alreadyPublished (details results);
              contentSimilarity := Some contentCheck;
              titleSimilarity := titleSimilarity (details results);
              sourceFrequency := sourceFrequency (details results) |} |}
    else results
  else results.

(** Step 4 of [checkDeduplication]. *)
Definition titleStep (signal : Signal) (options : Options.t) (t : Tracker)
    (results : Result) : Result :=
  if Options.checkTitle options && JS.truthy (title signal) then
    let titleCheck :=
      checkTitleSimilarity (title signal)
        (Options.titleSimilarityThreshold options) t in
    if sc_isDuplicate titleCheck then
      {| isDuplicate := true;
         reasons := reasons results ++ [default "" (sc_reason titleCheck)];
         details :=
           {| urlProcessed := urlProcessed (details results);
              alreadyPublished := alreadyPublished (details results);
              contentSimilarity := contentSimilarity (details results);
              titleSimilarity := Some titleCheck;
              sourceFrequency := sourceFrequency (details results) |} |}
    else results
  else results.

(** Step 5 of [checkDeduplication]. *)
Definition sourceStep (now : Z) (signal : Signal) (options : Options.t)
    (t : Tracker) (results : Result) : Result :=
  if Options.checkSource options && JS.truthy (source signal) then
    let sourceCheck :=
      checkSourceFrequency now (source signal)
        (Options.maxSourcePerHour options) t in
    if fc_isDuplicate sourceCheck then
      {| isDuplicate := true;
         reasons := reasons results ++ [default "" (fc_reason sourceCheck)];
         details :=
           {| urlProcessed := urlProcessed (details results);
              alreadyPublished := alreadyPublished (details results);
              contentSimilarity := contentSimilarity (details results);
              titleSimilarity := titleSimilarity (details results);
              sourceFrequency := Some sourceCheck |} |}
    else results
  else results.

Definition checkDeduplication (now : Z) (signal : Signal) (options : Options.t)
    (t : Tracker) : Result :=
  let results := {| isDuplicate := false; reasons := []; details := noDetails |} in
  if Options.checkURLProcessed options && JS.truthy (link signal)
     && checkURLAlreadyProcessed (link signal) t
  then
    {| isDuplicate := true;
       reasons := reasons results ++ ["url_already_processed"];
       details :=
         {| urlProcessed := true;
            alreadyPublished := alreadyPublished (details results);
            contentSimilarity := contentSimilarity (details results);
            titleSimilarity := titleSimilarity (details results);
            sourceFrequency := sourceFrequency (details results) |} |}
  else if Options.checkAlreadyPublished options && checkAlreadyPublished signal t
  then
    {| isDuplicate := true;
       reasons := reasons results ++ ["already_published"];
       details :=
         {| urlProcessed := urlProcessed (details results);
            alreadyPublished := true;
            contentSimilarity := contentSimilarity (details results);
            titleSimilarity := titleSimilarity (details results);
            sourceFrequency := sourceFrequency (details results) |} |}
  else
    sourceStep now signal options t
      (titleStep signal options t
         (contentStep signal options t results)).

Definition oneDay : Z := 24 * 60 * 60 * 1000.

Definition markAsPublished (now : Z) (signal : Signal) (t : Tracker) : Tracker :=
  let signalKey := generateSignalKey signal in
  {| published :=
       <[signalKey := {| e_timestamp := now; e_source := source signal;
                         e_title := title signal; e_link := link signal;
                         e_status := None |}]> (published t);
     content_hashes :=
       if JS.truthy (content signal) then
         <[Hasher.generateContentHash (content signal) :=
             {| e_timestamp := now; e_source := source signal;
                e_title := title signal; e_link := link signal;
                e_status := None |}]> (content_hashes t)
       else content_hashes t;
     title_hashes :=
       if JS.truthy (title signal) then
         <[Hasher.generateTitleHash (title signal) :=
             {| te_timestamp := now; te_source := source signal;
                te_link := link signal |}]> (title_hashes t)
       else title_hashes t;
     source_hashes :=
       if JS.truthy (source signal) then
         let sourceKey := JS.trim (JS.toLowerCase (source signal)) in
         let history := default [] (source_hashes t !! sourceKey) ++ [now] in
         let oneDayAgo := now - oneDay in
         <[sourceKey := filter (fun timestamp => oneDayAgo < timestamp) history]>
           (source_hashes t)
       else source_hashes t;
     lastUpdated := lastUpdated t |}.

Definition markAsProcessed (now : Z) (signal : Signal) (t : Tracker) : Tracker :=
  let signalKey := generateSignalKey signal in
  {| published :=
       <[signalKey := {| e_timestamp := now; e_source := source signal;
                         e_title := title signal; e_link := link signal;
                         e_status := Some "processed" |}]> (published t);
     content_hashes :=
       if JS.truthy (content signal) then
         <[Hasher.generateContentHash (content signal) :=
             {| e_timestamp := now; e_source := source signal;
                e_title := title signal; e_link := link signal;
                e_status := Some "processed" |}]> (content_hashes t)
       else content_hashes t;
     title_hashes := title_hashes t;
     source_hashes := source_hashes t;
     lastUpdated := lastUpdated t |}.

(** An element of the [duplicates] array. *)
Record DuplicateSignal := {
  d_signal : Signal;
  d_reasons : list string;
  d_details : Details
}.

Record FilterResult := {
  approved : list Signal;
  duplicates : list DuplicateSignal;
  skipped : list Signal
}.

(** The options [filterSignalsForPublishing] hands to [checkDeduplication]:
    its own thresholds, every check switched on. *)
Definition publishingChecks (options : Options.t) : Options.t :=
  {| Options.contentSimilarityThreshold := Options.contentSimilarityThreshold options;
     Options.titleSimilarityThreshold := Options.titleSimilarityThreshold options;
     Options.maxSourcePerHour := Options.maxSourcePerHour options;
     Options.maxSignalsPerRun := Options.maxSignalsPerRun options;
     Options.checkContent := true;
     Options.checkTitle := true;
     Options.checkSource := true;
     Options.checkAlreadyPublished := true;
     Options.checkURLProcessed := true |}.

(** The [for] loop of [filterSignalsForPublishing] with its [break]. *)
Fixpoint publishingLoop (now : Z) (signals : list Signal) (options : Options.t)
    (t : Tracker) (filteredSignals : list Signal)
    (duplicateSignals : list DuplicateSignal)
    : list Signal * list DuplicateSignal :=
  match signals with
  | [] => (filteredSignals, duplicateSignals)
  | signal :: rest =>
      let dedupResult := checkDeduplication now signal (publishingChecks options) t in
      let '(filteredSignals, duplicateSignals) :=
        if isDuplicate dedupResult
        then (filteredSignals,
              duplicateSignals ++ [{| d_signal := signal;
                                      d_reasons := reasons dedupResult;
                                      d_details := details dedupResult |}])
        else (filteredSignals ++ [signal], duplicateSignals) in
      if Options.maxSignalsPerRun options <=? Z.of_nat (length filteredSignals)
      then (filteredSignals, duplicateSignals)
      else publishingLoop now rest options t filteredSignals duplicateSignals
  end.

Definition filterSignalsForPublishing (now : Z) (signals : list Signal)
    (options : Options.t) (t : Tracker) : FilterResult :=
  let skippedSignals := [] in
  let '(filteredSignals, duplicateSignals) :=
    publishingLoop now signals options t [] [] in
  {| approved := filteredSignals;
     duplicates := duplicateSignals;
     skipped := skippedSignals |}.

(** The two writers of the tracker, for histories of calls. *)
Inductive Call :=
  | MarkAsPublished (now : Z) (signal : Signal)
  | MarkAsProcessed (now : Z) (signal : Signal).

Definition call (t : Tracker) (c : Call) : Tracker :=
  match c with
  | MarkAsPublished now signal => markAsPublished now signal t
  | MarkAsProcessed now signal => markAsProcessed now signal t
  end.

Definition callSignal (c : Call) : Signal :=
  match c with
  | MarkAsPublished _ signal => signal
  | MarkAsProcessed _ signal => signal
  end.

(** The composite key a call writes under. *)
Definition callKey (c : Call) : string := generateSignalKey (callSignal c).

(** The values the [status] member takes in the tracker: missing, as
    [markAsPublished] leaves it, or ['processed']. *)
Definition statusWritten (e : Entry) : Prop :=
  e_status e = None \/ e_status e = Some "processed".

(** The tracker after a history of calls, oldest first. *)
Definition run (calls : list Call) (t : Tracker) : Tracker := foldl call t calls.

(** [saveTracker] (and [finalize], which calls it): the tracker with the
    time of the call as [lastUpdated]; the file then holds this tracker. *)
Definition saveTracker (now : Z) (t : Tracker) : Tracker :=
  {| published := published t;
     content_hashes := content_hashes t;
     title_hashes := title_hashes t;
     source_hashes := source_hashes t;
     lastUpdated := now |}.

(** [getStats]: the numbers of keys of the four maps. *)
Record Stats := {
  s_published : nat;
  s_contentHashes : nat;
  s_titleHashes : nat;
  s_sourceCount : nat;
  s_lastUpdated : Z
}.

Definition getStats (t : Tracker) : Stats :=
  {| s_published := size (published t);
     s_contentHashes := size (content_hashes t);
     s_titleHashes := size (title_hashes t);
     s_sourceCount := size (source_hashes t);
     s_lastUpdated := lastUpdated t |}.

End AdvancedDeduplication.

(** ** The analysis tracker *)

Module AnalysisTracker.

Section WithResult.

(** The analysis results handed to [markAsAnalyzed]; [None] is [null]. *)
Context {R : Type}.

Record Entry := {
  timestamp : Z;
  analysisResult : option R
}.

Record Tracker := {
  analyzed : gmap string Entry;
  lastUpdated : Z
}.

(** [loadTracker] when the file does not exist or does not parse. *)
Definition emptyTracker (now : Z) : Tracker :=
  {| analyzed := ∅; lastUpdated := now |}.

Definition generateSignalKey (signal : Signal) : string :=
  let source := JS.toLowerCase (JS.orElse (source signal) "") in
  let link := JS.toLowerCase (JS.orElse (link signal) "") in
  let title :=
    JS.keepChars (fun c => JS.isLower c || JS.isDigit c)
      (JS.toLowerCase (JS.orElse (title signal) "")) in
  source +:+ ":" +:+ link +:+ ":" +:+ title.

Definition isAlreadyAnalyzed (signal : Signal) (t : Tracker) : bool :=
  let key := generateSignalKey signal in
  bool_decide (is_Some (analyzed t !! key)).

Definition markAsAnalyzed (now : Z) (signal : Signal) (analysisResult : option R)
    (t : Tracker) : Tracker :=
  let key := generateSignalKey signal in
  {| analyzed := <[key := {| timestamp := now; analysisResult := analysisResult |}]>
                   (analyzed t);
     lastUpdated := lastUpdated t |}.

Record FilterResult := {
  newSignals : list Signal;
  skippedSignals : list Signal
}.

Fixpoint filterLoop (now : Z) (signals : list Signal) (t : Tracker)
    (acc : FilterResult) : FilterResult * Tracker :=
  match signals with
  | [] => (acc, t)
  | signal :: rest =>
      if isAlreadyAnalyzed signal t
      then filterLoop now rest t
             {| newSignals := newSignals acc;
                skippedSignals := skippedSignals acc ++ [signal] |}
      else filterLoop now rest (markAsAnalyzed now signal None t)
             {| newSignals := newSignals acc ++ [signal];
                skippedSignals := skippedSignals acc |}
  end.

Definition filterNewSignals (now : Z) (signals : list Signal) (t : Tracker)
    : FilterResult * Tracker :=
  filterLoop now signals t {| newSignals := []; skippedSignals := [] |}.

(** The UTC day of a time stamp: two ISO time stamps begin with the same
    ten characters exactly when they fall on the same day. *)
Definition dayOf (ts : Z) : Z := ts / (1000 * 60 * 60 * 24).

Record Stats := {
  s_today : nat;
  s_global : nat;
  s_lastUpdated : Z
}.

(** [getStats] of an instance constructed on the day of [constructed]. *)
Definition getStats (constructed : Z) (t : Tracker) : Stats :=
  {| s_today :=
       length (filter (fun kv : string * Entry =>
                         dayOf (timestamp kv.2) = dayOf constructed)
                 (map_to_list (analyzed t)));
     s_global := size (analyzed t);
     s_lastUpdated := lastUpdated t |}.

End WithResult.

Arguments Entry : clear implicits.
Arguments Tracker : clear implicits.

End AnalysisTracker.

(** ** The publishing script *)

Module Enriched.

(** An analysis as [enrichForDedup] returns it: the analysis with the
    members the deduplication tracker reads and the URL key. *)
Record t (A : Type) := {
  analysis : A;
  source : string;
  title : string;
  link : string;
  content : string;
  url_key : string
}.
Arguments analysis {A} _.
Arguments source {A} _.
Arguments title {A} _.
Arguments link {A} _.
Arguments content {A} _.
Arguments url_key {A} _.

End Enriched.

Module Publisher.

(** An analysis of the scoring step.  [score] is an integer, or missing
    ([None]), in which case [score / 10] is [NaN]. *)
Record Analysis := {
  project_name : string;
  opportunity_type : string;
  investment_angle : string;
  reasoning : string;
  evidence : list string;
  score : option Z;
  importance : string;
  market_impact : string
}.

(** [Math.round(analysis.score / 10)]: halves round up. *)
Definition scoreOutOf10 (analysis : Analysis) : option Z :=
  (fun x => (x + 5) / 10) <$> score analysis.

(** [r >= k] and [r < k]; both are false for [NaN]. *)
Definition atLeast (k : Z) (r : option Z) : bool :=
  match r with Some v => k <=? v | None => false end.

Definition below (k : Z) (r : option Z) : bool :=
  match r with Some v => v <? k | None => false end.

(** The four lists of the publishing plan. *)
Definition isHot (analysis : Analysis) : bool :=
  atLeast 8 (scoreOutOf10 analysis).

Definition isEarly (analysis : Analysis) : bool :=
  let score := scoreOutOf10 analysis in atLeast 5 score && below 8 score.

Definition isWatch (analysis : Analysis) : bool :=
  let score := scoreOutOf10 analysis in atLeast 4 score && below 6 score.

Definition isRisk (analysis : Analysis) : bool :=
  below 4 (scoreOutOf10 analysis).

Record Plan := {
  finalHotOpportunities : list Analysis;
  finalEarlySignals : list Analysis;
  finalWatchClosely : list Analysis;
  finalPotentialRisks : list Analysis
}.

Definition plan (approvedAnalyses : list Analysis) : Plan :=
  {| finalHotOpportunities := List.filter isHot approvedAnalyses;
     finalEarlySignals := List.filter isEarly approvedAnalyses;
     finalWatchClosely := List.filter isWatch approvedAnalyses;
     finalPotentialRisks := List.filter isRisk approvedAnalyses |}.

(** [analysis.evidence?.[0] || ''] *)
Definition firstEvidence (analysis : Analysis) : string :=
  match evidence analysis with
  | e :: _ => e
  | [] => ""
  end.

(** The signal the analysis came from: the first original signal whose
    [link] or [url] is the first evidence, when there is a first
    evidence. *)
Definition findOriginal (originalSignals : list Signal) (analysis : Analysis)
    : option Signal :=
  if JS.truthy (firstEvidence analysis)
  then find (fun signal : Signal =>
               String.eqb (link signal) (firstEvidence analysis)
               || String.eqb (url signal) (firstEvidence analysis))
            originalSignals
  else None.

(** [originalSignal?.source || 'Unknown'] *)
Definition sourceOf (originalSignal : option Signal) : string :=
  JS.orElse (from_option source "" originalSignal) "Unknown".

Definition enrichForDedup (originalSignals : list Signal) (analysis : Analysis)
    : Enriched.t Analysis :=
  let originalSignal := findOriginal originalSignals analysis in
  let link := firstEvidence analysis in
  let projectName := JS.orElse (project_name analysis) "Unknown" in
  let opportunityType := JS.orElse (opportunity_type analysis) "Unknown" in
  {| Enriched.analysis := analysis;
     Enriched.source := sourceOf originalSignal;
     Enriched.title := projectName +:+ " - " +:+ opportunityType;
     Enriched.link := link;
     Enriched.content :=
       JS.trim (investment_angle analysis +:+ " " +:+ reasoning analysis);
     Enriched.url_key := JS.splitHead "#" (JS.splitHead "?" link) |}.

(** The enriched analysis as the deduplication tracker reads it. *)
Definition asSignal (e : Enriched.t Analysis) : Signal :=
  {| url := ""; link := Enriched.link e; title := Enriched.title e; judul := "";
     source := Enriched.source e; repo := ""; content := Enriched.content e |}.

(** [signalForTracking] of the four sending loops. *)
Definition signalForTracking (originalSignals : list Signal) (analysis : Analysis)
    : Signal :=
  let originalSignal := findOriginal originalSignals analysis in
  {| url := ""; link := firstEvidence analysis; title := project_name analysis;
     judul := ""; source := sourceOf originalSignal; repo := "";
     content := investment_angle analysis |}.

Record Prefiltered := {
  urlFilteredAnalyses : list (Enriched.t Analysis);
  urlDuplicates : list (Enriched.t Analysis);
  alreadyProcessedDuplicates : list (Enriched.t Analysis)
}.

(** The pre-filter by URL: an analysis whose URL key the tracker has
    processed, or that a former analysis of the run carried, is set
    aside. *)
Fixpoint prefilterLoop (t : AdvancedDeduplication.Tracker)
    (analyses : list (Enriched.t Analysis)) (urlSeen : gset string)
    (acc : Prefiltered) : Prefiltered :=
  match analyses with
  | [] => acc
  | analysis :: rest =>
      let cleanUrl := Enriched.url_key analysis in
      if JS.truthy cleanUrl && AdvancedDeduplication.checkURLAlreadyProcessed cleanUrl t
      then prefilterLoop t rest urlSeen
             {| urlFilteredAnalyses := urlFilteredAnalyses acc;
                urlDuplicates := urlDuplicates acc;
                alreadyProcessedDuplicates :=
                  alreadyProcessedDuplicates acc ++ [analysis] |}
      else if JS.truthy (Enriched.url_key analysis)
              && bool_decide (Enriched.url_key analysis ∈ urlSeen)
      then prefilterLoop t rest urlSeen
             {| urlFilteredAnalyses := urlFilteredAnalyses acc;
                urlDuplicates := urlDuplicates acc ++ [analysis];
                alreadyProcessedDuplicates := alreadyProcessedDuplicates acc |}
      else prefilterLoop t rest
             (if JS.truthy (Enriched.url_key analysis)
              then {[Enriched.url_key analysis]} ∪ urlSeen else urlSeen)
             {| urlFilteredAnalyses := urlFilteredAnalyses acc ++ [analysis];
                urlDuplicates := urlDuplicates acc;
                alreadyProcessedDuplicates := alreadyProcessedDuplicates acc |}
  end.

Definition prefilter (t : AdvancedDeduplication.Tracker)
    (analyses : list (Enriched.t Analysis)) : Prefiltered :=
  prefilterLoop t analyses ∅
    {| urlFilteredAnalyses := []; urlDuplicates := [];
       alreadyProcessedDuplicates := [] |}.

(** The options of the guard before sending. *)
Definition preSendOptions : Options.t :=
  {| Options.contentSimilarityThreshold := 6 # 10;
     Options.titleSimilarityThreshold := 7 # 10;
     Options.maxSourcePerHour := 1;
     Options.maxSignalsPerRun := 50;
     Options.checkContent := true;
     Options.checkTitle := true;
     Options.checkSource := true;
     Options.checkAlreadyPublished := true;
     Options.checkURLProcessed := true |}.

Record SendResult := { success : bool; error : string }.

Record FailedMessage := {
  fm_type : string;
  fm_error : string;
  fm_message : string;
  fm_score : option Z
}.

Record PublishResults := {
  total : nat;
  sent : nat;
  failed : nat;
  failedMessages : list FailedMessage
}.

Section Sending.

(** The outside of the script: the messenger and the timer act on a world
    the script cannot look into except through its clock. *)
Variable World : Type.
Variable sendToTelegramBot : string -> World -> SendResult * World.
Variable wait : Z -> World -> World.
Variable clock : World -> Z.
Variable formatEarlyDetectionMessage : Analysis -> nat -> option Signal -> string.

Variable originalSignals : list Signal.

Record State := {
  tracker : AdvancedDeduplication.Tracker;
  trackerFile : option AdvancedDeduplication.Tracker;
  publishResults : PublishResults;
  world : World
}.

(** The loops over the hot opportunities and over the early signals
    ([type] tells them apart): mark as processed, guard, send, mark as
    published and save. *)
Fixpoint markedLoop (type : string) (n i : nat) (analyses : list Analysis)
    (st : State) : State :=
  match analyses with
  | [] => st
  | analysis :: rest =>
      let originalSignal := findOriginal originalSignals analysis in
      let message := formatEarlyDetectionMessage analysis i originalSignal in
      let signalForTracking := signalForTracking originalSignals analysis in
      let now := clock (world st) in
      let processed :=
        AdvancedDeduplication.markAsProcessed now signalForTracking (tracker st) in
      let preSendDupCheck :=
        AdvancedDeduplication.checkDeduplication now signalForTracking
          preSendOptions processed in
      if AdvancedDeduplication.isDuplicate preSendDupCheck
      then markedLoop type n (S i) rest
             {| tracker := processed; trackerFile := trackerFile st;
                publishResults := publishResults st; world := world st |}
      else
        let '(result, w) := sendToTelegramBot message (world st) in
        let st' :=
          if success result
          then
            let published :=
              AdvancedDeduplication.saveTracker (clock w)
                (AdvancedDeduplication.markAsPublished (clock w)
                   signalForTracking processed) in
            {| tracker := published; trackerFile := Some published;
               publishResults :=
                 {| total := S (total (publishResults st));
                    sent := S (sent (publishResults st));
                    failed := failed (publishResults st);
                    failedMessages := failedMessages (publishResults st) |};
               world := w |}
          else
            {| tracker := processed; trackerFile := trackerFile st;
               publishResults :=
                 {| total := S (total (publishResults st));
                    sent := sent (publishResults st);
                    failed := S (failed (publishResults st));
                    failedMessages :=
                      failedMessages (publishResults st)
                      ++ [{| fm_type := type; fm_error := error result;
                             fm_message := project_name analysis +:+ " - "
                                           +:+ opportunity_type analysis;
                             fm_score := scoreOutOf10 analysis |}] |};
               world := w |} in
        markedLoop type n (S i) rest
          {| tracker := tracker st'; trackerFile := trackerFile st';
             publishResults := publishResults st';
             world := if (S i <? n)%nat then wait 2000 (world st') else world st' |}
  end.

(** The loops over the watch items and over the risk alerts: guard, send,
    mark as published and save; [n] is the length the pause after a
    message is decided by. *)
Fixpoint guardedLoop (n i : nat) (analyses : list Analysis) (st : State) : State :=
  match analyses with
  | [] => st
  | analysis :: rest =>
      let originalSignal := findOriginal originalSignals analysis in
      let message := formatEarlyDetectionMessage analysis i originalSignal in
      let preSendDupCheck :=
        AdvancedDeduplication.checkDeduplication (clock (world st))
          (signalForTracking originalSignals analysis) preSendOptions (tracker st) in
      if AdvancedDeduplication.isDuplicate preSendDupCheck
      then guardedLoop n (S i) rest st
      else
        let '(result, w) := sendToTelegramBot message (world st) in
        let st' :=
          if success result
          then
            let published :=
              AdvancedDeduplication.saveTracker (clock w)
                (AdvancedDeduplication.markAsPublished (clock w)
                   (signalForTracking originalSignals analysis) (tracker st)) in
            {| tracker := published; trackerFile := Some published;
               publishResults := publishResults st; world := w |}
          else
            {| tracker := tracker st; trackerFile := trackerFile st;
               publishResults := publishResults st; world := w |} in
        guardedLoop n (S i) rest
          {| tracker := tracker st'; trackerFile := trackerFile st';
             publishResults := publishResults st';
             world := if (S i <? n)%nat then wait 2000 (world st') else world st' |}
  end.

End Sending.

Arguments tracker {World} _.
Arguments trackerFile {World} _.
Arguments publishResults {World} _.
Arguments world {World} _.

End Publisher.

(** ** The collection script *)

Module Collector.

Section Merge.

Context {A : Type}.

(** The members [mergeAndDedupe] reads of a signal. *)
Variable view : A -> Signal.

(** The keys of a signal, the empty ones left out. *)
Definition mergeKeys (signal : A) : list string :=
  let url := CollectionTracker.signalUrl (view signal) in
  let title := CollectionTracker.signalTitle (view signal) in
  let source := CollectionTracker.signalSource (view signal) in
  List.filter JS.truthy
    [ url;
      JS.trim (JS.toLowerCase title);
      source +:+ ":" +:+ JS.trim (JS.toLowerCase title);
      JS.splitHead "?" url;
      JS.trim (JS.keepChars (fun c => JS.isWord c || JS.isSpace c)
                 (JS.toLowerCase title)) ].

(** The members of a merged signal that come from the keys' inputs, and
    the signal it was made from; [time], [messageId], [channel],
    [category] and [priority] are copied from the signal or set to their
    defaults and play no part in the merge. *)
Record Normalized := {
  n_source : string;
  n_title : string;
  n_link : string;
  originalSignal : A
}.

Record Duplicate := {
  dup_signal : A;
  duplicateKey : string;
  reason : string
}.

Record MergeState := {
  combined : list Normalized;
  seen : gset string;
  duplicates : list Duplicate
}.

(** The body of the inner loop. *)
Definition mergeStep (st : MergeState) (signal : A) : MergeState :=
  let keys := mergeKeys signal in
  match find (fun key => bool_decide (key ∈ seen st)) keys with
  | Some key =>
      {| combined := combined st;
         seen := seen st;
         duplicates :=
           duplicates st ++ [{| dup_signal := signal; duplicateKey := key;
                                reason := "Duplicate detected" |}] |}
  | None =>
      {| combined :=
           combined st ++
           [{| n_source := CollectionTracker.signalSource (view signal);
               n_title := CollectionTracker.signalTitle (view signal);
               n_link := CollectionTracker.signalUrl (view signal);
               originalSignal := signal |}];
         seen := foldl (fun seen key => {[key]} ∪ seen) (seen st) keys;
         duplicates := duplicates st |}
  end.

Definition mergeAll (allSignals : list (list A)) : MergeState :=
  foldl (fun st signals => foldl mergeStep st signals)
    {| combined := []; seen := ∅; duplicates := [] |} allSignals.

Definition mergeAndDedupe (allSignals : list (list A)) : list Normalized :=
  combined (mergeAll allSignals).

End Merge.

Arguments Normalized : clear implicits.
Arguments Duplicate : clear implicits.
Arguments MergeState : clear implicits.

(** A merged signal as a later [mergeAndDedupe] reads it: it has [link],
    [title] and [source], and neither [url], [judul] nor [repo]. *)
Definition asSignal {A : Type} (signal : Normalized A) : Signal :=
  {| url := ""; link := n_link signal; title := n_title signal; judul := "";
     source := n_source signal; repo := ""; content := "" |}.

End Collector.

(** ** Sample data *)

Module Samples.

(** What the platform's URL parser answers on the links of the samples
    below; every other string is taken as unparsable. *)
Definition parseURL (url : string) : option URL :=
  if String.eqb url "http://x.com/a?id=5" then
    Some {| protocol := "http:"; host := "x.com"; pathname := "/a";
            searchParams := [("id", "5")] |}
  else if String.eqb url "http://x.com/1?utm_source=foo" then
    Some {| protocol := "http:"; host := "x.com"; pathname := "/1";
            searchParams := [("utm_source", "foo")] |}
  else if String.eqb url "http://x.com/1" then
    Some {| protocol := "http:"; host := "x.com"; pathname := "/1";
            searchParams := [] |}
  else if String.eqb url "http://y.com/2" then
    Some {| protocol := "http:"; host := "y.com"; pathname := "/2";
            searchParams := [] |}
  else if String.eqb url "HTTP://X.COM/A/" then
    Some {| protocol := "http:"; host := "x.com"; pathname := "/A/";
            searchParams := [] |}
  else None.

(** A time zone without clock changes, and one whose clocks go back an
    hour, from two hours ahead of UTC to one, ten days after the epoch. *)
Definition utc (t : Z) (isUTC : bool) : CollectionTracker.Offset :=
  {| CollectionTracker.offset_ms := 0;
     CollectionTracker.offset_bound := eq_refl |}.

Definition autumn (t : Z) (isUTC : bool) : CollectionTracker.Offset :=
  if t <? 10 * CollectionTracker.msPerDay
  then {| CollectionTracker.offset_ms := 2 * 60 * 60 * 1000;
          CollectionTracker.offset_bound := eq_refl |}
  else {| CollectionTracker.offset_ms := 60 * 60 * 1000;
          CollectionTracker.offset_bound := eq_refl |}.

Definition signal (source link title content : string) : Signal :=
  {| url := ""; link := link; title := title; judul := "";
     source := source; repo := ""; content := content |}.

Definition fooA : Signal := signal "A" "http://x.com/1" "Foo Launch" "".
Definition fooB : Signal := signal "B" "http://y.com/2" "Foo Launch" "".
Definition barB : Signal := signal "B" "http://y.com/2" "Bar Update" "".
Definition fooTracked : Signal :=
  signal "A" "http://x.com/1?utm_source=foo" "Foo Launch" "".
Definition noLink : Signal := signal "A" "" "Foo Launch" "".

(** A collection tracker whose global scope holds one entry, collected at
    the epoch. *)
Definition staleTracker : CollectionTracker.Tracker :=
  {| CollectionTracker.global :=
       {| CollectionTracker.collected := Some {["stale" := 0]} |};
     CollectionTracker.today := {| CollectionTracker.collected := None |};
     CollectionTracker.lastUpdated := 0 |}.

(** Options with the cap on approved signals set to one. *)
Definition capOne : Options.t :=
  {| Options.contentSimilarityThreshold := 8 # 10;
     Options.titleSimilarityThreshold := 9 # 10;
     Options.maxSourcePerHour := 3;
     Options.maxSignalsPerRun := 1;
     Options.checkContent := true;
     Options.checkTitle := true;
     Options.checkSource := true;
     Options.checkAlreadyPublished := true;
     Options.checkURLProcessed := true |}.

(** Options with the cap on approved signals set to zero. *)
Definition capZero : Options.t :=
  {| Options.contentSimilarityThreshold := 8 # 10;
     Options.titleSimilarityThreshold := 9 # 10;
     Options.maxSourcePerHour := 3;
     Options.maxSignalsPerRun := 0;
     Options.checkContent := true;
     Options.checkTitle := true;
     Options.checkSource := true;
     Options.checkAlreadyPublished := true;
     Options.checkURLProcessed := true |}.

(** An analysis of the watch list, and an outside in which every message
    is delivered: the world is the time in milliseconds, sending takes
    one of them. *)
Definition watchItem : Publisher.Analysis :=
  {| Publisher.project_name := "Foo"; Publisher.opportunity_type := "Airdrop";
     Publisher.investment_angle := "early"; Publisher.reasoning := "";
     Publisher.evidence := ["http://x.com/1"]; Publisher.score := Some 45;
     Publisher.importance := "High"; Publisher.market_impact := "High" |}.

Definition deliver (message : string) (w : Z) : Publisher.SendResult * Z :=
  ({| Publisher.success := true; Publisher.error := "" |}, w + 1).

Definition pause (ms : Z) (w : Z) : Z := w + ms.

Definition render (analysis : Publisher.Analysis) (index : nat)
    (originalSignal : option Signal) : string :=
  Publisher.project_name analysis.

Definition startState : Publisher.State Z :=
  {| Publisher.tracker := AdvancedDeduplication.emptyTracker 0;
     Publisher.trackerFile := None;
     Publisher.publishResults :=
       {| Publisher.total := 0; Publisher.sent := 0; Publisher.failed := 0;
          Publisher.failedMessages := [] |};
     Publisher.world := 0 |}.

End Samples.

(** ** Shapes of normalized text *)

Module Shape.

(** Every character of the string satisfies [p]. *)
Fixpoint allChars (p : ascii -> bool) (s : string) : bool :=
  match s with
  | EmptyString => true
  | String c s' => p c && allChars p s'
  end.

(** White space occurs only as single blanks; [afterSpace] tells that the
    character before the string is white space. *)
Fixpoint singleSpaced (afterSpace : bool) (s : string) : bool :=
  match s with
  | EmptyString => true
  | String c s' =>
      if JS.isSpace c
      then Ascii.eqb c " " && negb afterSpace && singleSpaced true s'
      else singleSpaced false s'
  end.

(** The string does not begin with white space. *)
Definition noLeadingSpace (s : string) : bool :=
  match s with
  | EmptyString => true
  | String c _ => negb (JS.isSpace c)
  end.

End Shape.

(** * Properties *)

(** ** Strings and numerals *)

Section StringFacts.

Lemma toInt32_range (z : Z) : - 2 ^ 31 <= JS.toInt32 z < 2 ^ 31.
Proof.
  unfold JS.toInt32.
  pose proof (Z.mod_pos_bound (z + 2 ^ 31) (2 ^ 32) ltac:(lia)).
  lia.
Qed.

Lemma digitValue_digitChar (d : Z) :
  0 <= d < 36 -> JS.digitValue (JS.digitChar d) = d.
Proof.
  intros Hd.
  assert (Hk : forall k : nat, (k < 36)%nat ->
             JS.digitValue (JS.digitChar (Z.of_nat k)) = Z.of_nat k).
  { intros k Hk. do 36 (destruct k as [|k]; [reflexivity|]). lia. }
  rewrite <- (Z2Nat.id d) by lia. apply Hk. lia.
Qed.

Lemma parse36_app (s1 s2 : string) (a : Z) :
  JS.parse36 a (s1 +:+ s2) = JS.parse36 (JS.parse36 a s1) s2.
Proof.
  revert a. induction s1 as [|c s1 IH]; intros a; simpl; [reflexivity|].
  apply IH.
Qed.

Lemma digits36_acc (fuel : nat) (n : Z) (acc : string) :
  JS.digits36 fuel n acc = JS.digits36 fuel n "" +:+ acc.
Proof.
  revert n acc. induction fuel as [|fuel IH]; intros n acc; simpl; [reflexivity|].
  destruct (n / 36 =? 0); [reflexivity|].
  rewrite (IH _ (String _ acc)), (IH _ (String _ "")).
  generalize (JS.digits36 fuel (n / 36) "") as s.
  induction s as [|c s IHs]; [reflexivity|].
  change (String c (s +:+ String (JS.digitChar (n `mod` 36)) acc) =
          String c ((s +:+ String (JS.digitChar (n `mod` 36)) "") +:+ acc)).
  now f_equal.
Qed.

(** With [n < 2 ^ fuel] the loop leaves through the zero quotient: the
    digits read back give [n]. *)
Lemma parse36_digits36 (fuel : nat) (n : Z) :
  0 <= n < 2 ^ Z.of_nat fuel -> (0 < fuel)%nat ->
  JS.parse36 0 (JS.digits36 fuel n "") = n.
Proof.
  revert n. induction fuel as [|fuel IH]; intros n Hn Hf; [lia|].
  simpl JS.digits36.
  pose proof (Z.mod_pos_bound n 36 ltac:(lia)) as Hm.
  pose proof (Z.div_mod n 36 ltac:(lia)) as Hdm.
  destruct (n / 36 =? 0) eqn:Hq.
  - apply Z.eqb_eq in Hq. simpl. rewrite digitValue_digitChar by lia. lia.
  - apply Z.eqb_neq in Hq.
    assert (0 < n / 36) by (pose proof (Z.div_pos n 36); lia).
    rewrite digits36_acc, parse36_app.
    assert (Hlt : n / 36 < 2 ^ Z.of_nat fuel).
    { apply Z.div_lt_upper_bound; [lia|].
      rewrite Nat2Z.inj_succ, Z.pow_succ_r in Hn by lia. lia. }
    destruct fuel as [|fuel'].
    + simpl in Hlt. lia.
    + rewrite IH by lia. simpl. rewrite digitValue_digitChar by lia. lia.
Qed.

Lemma parse36_toString36 (n : Z) :
  0 <= n -> JS.parse36 0 (JS.toString36 n) = n.
Proof.
  intros Hn. unfold JS.toString36. apply parse36_digits36; [|lia].
  split; [lia|].
  rewrite Nat2Z.inj_succ, Z2Nat.id by apply Z.log2_nonneg.
  destruct (Z.eq_dec n 0) as [->|]; [reflexivity|].
  apply Z.log2_spec. lia.
Qed.

(** A number below [36 ^ k] is written with at most [k] digits, and every
    numeral has at least one. *)
Lemma digits36_length (fuel : nat) (n : Z) (acc : string) (k : Z) :
  0 <= n < 36 ^ k -> 1 <= k ->
  JS.len acc + 1 <= JS.len (JS.digits36 (S fuel) n acc) <= JS.len acc + k.
Proof.
  unfold JS.len.
  revert n acc k. induction fuel as [|fuel IH]; intros n acc k Hn Hk.
  - simpl. destruct (n / 36 =? 0); simpl String.length; lia.
  - change (JS.digits36 (S (S fuel)) n acc)
      with (let acc' := String (JS.digitChar (n mod 36)) acc in
            if n / 36 =? 0 then acc' else JS.digits36 (S fuel) (n / 36) acc').
    cbv zeta. destruct (n / 36 =? 0) eqn:Hq.
    + simpl String.length. lia.
    + apply Z.eqb_neq in Hq.
      assert (0 < n / 36) by (pose proof (Z.div_pos n 36); lia).
      assert (Hk2 : 2 <= k).
      { destruct (Z.eq_dec k 1) as [->|]; [|lia].
        assert (n / 36 = 0) by (apply Z.div_small; lia). lia. }
      assert (Hlt : n / 36 < 36 ^ (k - 1)).
      { apply Z.div_lt_upper_bound; [lia|].
        rewrite <- Z.pow_succ_r by lia. replace (Z.succ (k - 1)) with k by lia. lia. }
      specialize (IH (n / 36) (String (JS.digitChar (n mod 36)) acc) (k - 1)
                    ltac:(lia) ltac:(lia)).
      change (String.length (String (JS.digitChar (n mod 36)) acc))
        with (S (String.length acc)) in IH.
      lia.
Qed.

Lemma hashStep_range (hash : Z) (c : ascii) :
  - 2 ^ 31 <= Hasher.hashStep hash c < 2 ^ 31.
Proof.
  unfold Hasher.hashStep. cbv zeta. rewrite Z.land_diag. apply toInt32_range.
Qed.

Lemma hashLoop_range (str : string) (hash : Z) :
  - 2 ^ 31 <= hash < 2 ^ 31 ->
  - 2 ^ 31 <= Hasher.hashLoop hash str < 2 ^ 31.
Proof.
  revert hash. induction str as [|c str IH]; intros hash Hh; simpl; [exact Hh|].
  apply IH, hashStep_range.
Qed.

Lemma simpleHash_width (str : string) :
  1 <= JS.len (Hasher.simpleHash str) <= 6.
Proof.
  unfold Hasher.simpleHash, JS.toString36.
  pose proof (hashLoop_range str 0 ltac:(lia)) as Hr.
  pose proof (digits36_length (Z.to_nat (Z.log2 (Z.abs (Hasher.hashLoop 0 str))))
                (Z.abs (Hasher.hashLoop 0 str)) "" 6) as Hl.
  change (JS.len "") with 0 in Hl.
  apply Hl; lia.
Qed.

End StringFacts.

(** ** The approximate hasher *)

Section HasherFacts.

Lemma filter_seq_shift (P : nat -> Prop) `{!forall i, Decision (P i)} (a m : nat) :
  length (filter P (seq (S a) m)) = length (filter (fun i => P (S i)) (seq a m)).
Proof.
  revert a. induction m as [|m IH]; intros a; [reflexivity|].
  cbn [seq]. rewrite !filter_cons. specialize (IH (S a)).
  destruct (decide (P (S a))); cbn [length]; lia.
Qed.

(** The loop of [calculateSimilarity] counts what the specification
    describes. *)
Lemma matches_matchingPositions (h1 h2 : string) :
  Hasher.matches h1 h2 = Z.of_nat (Hasher.matchingPositions h1 h2).
Proof.
  unfold Hasher.matchingPositions.
  revert h2. induction h1 as [|c1 r1 IH]; intros [|c2 r2]; try reflexivity.
  cbn [Hasher.matches String.length Nat.min seq].
  rewrite filter_cons. cbn [String.get].
  destruct (Ascii.eqb_spec c1 c2) as [->|Hne].
  - rewrite decide_True by reflexivity. cbn [length].
    rewrite filter_seq_shift, IH. cbn [String.get]. lia.
  - rewrite decide_False by congruence.
    rewrite filter_seq_shift, IH. cbn [String.get]. lia.
Qed.

Lemma matches_bounds (h1 h2 : string) :
  0 <= Hasher.matches h1 h2 <= Z.min (JS.len h1) (JS.len h2).
Proof.
  unfold JS.len.
  revert h2. induction h1 as [|c1 r1 IH]; intros [|c2 r2];
    cbn [Hasher.matches String.length]; try lia.
  specialize (IH r2). destruct (Ascii.eqb c1 c2); lia.
Qed.

Lemma matches_comm (h1 h2 : string) :
  Hasher.matches h1 h2 = Hasher.matches h2 h1.
Proof.
  revert h2. induction h1 as [|c1 r1 IH]; intros [|c2 r2];
    cbn [Hasher.matches]; try reflexivity.
  now rewrite IH, Ascii.eqb_sym.
Qed.

Lemma calculateSimilarity_comm (h1 h2 : string) :
  Hasher.calculateSimilarity h1 h2 = Hasher.calculateSimilarity h2 h1.
Proof.
  unfold Hasher.calculateSimilarity.
  now rewrite matches_comm, Z.max_comm.
Qed.

Lemma calculateSimilarity_range (h1 h2 : string) :
  (0 <= Hasher.calculateSimilarity h1 h2 <= 1)%Q.
Proof.
  unfold Hasher.calculateSimilarity. cbv zeta.
  pose proof (matches_bounds h1 h2) as Hm.
  destruct (Z.max (JS.len h1) (JS.len h2) =? 0) eqn:Hz.
  - split; unfold Qle; simpl; lia.
  - apply Z.eqb_neq in Hz.
    assert (0 <= JS.len h1 /\ 0 <= JS.len h2) as [? ?] by (unfold JS.len; lia).
    split; unfold Qle; cbn [Qnum Qden]; rewrite ?Z2Pos.id by lia; lia.
Qed.

Lemma len_zero (s : string) : JS.len s = 0 <-> s = "".
Proof.
  unfold JS.len. destruct s; cbn [String.length]; split; intros; try easy; lia.
Qed.

End HasherFacts.

Example simpleHash_empty : Hasher.simpleHash "" = "0".
Proof. reflexivity. Qed.

Example simpleHash_a : Hasher.simpleHash "a" = "2p".
Proof. reflexivity. Qed.

Example simpleHash_hello_world : Hasher.simpleHash "hello world" = "to5x38".
Proof. vm_compute. reflexivity. Qed.

Example normalizeText_sample :
  Hasher.normalizeText "  Foo,   Launch!! " = "foo launch".
Proof. reflexivity. Qed.

Example calculateSimilarity_sample :
  Hasher.calculateSimilarity "to5x38" "to5x4" = 4 # 6.
Proof. reflexivity. Qed.

(** C8, as stated, fails: [simpleHash] does not produce tokens of one
    width.  The empty text hashes to ["0"] and the text ["a"] to ["2p"],
    so no single width [w] fits every token. *)
Lemma simpleHash_not_fixed_width :
  ~ exists w : nat, forall text : string,
      String.length (Hasher.simpleHash text) = w.
Proof.
  intros [w Hw].
  pose proof (Hw "") as H0. pose proof (Hw "a") as H1.
  rewrite simpleHash_empty in H0. rewrite simpleHash_a in H1.
  cbn in H0, H1. congruence.
Qed.

(** C8 (amended).  [simpleHash] is a function of the text alone (equal
    texts give equal tokens, whatever the tracker or the clock); its token
    is the base-36 numeral of the absolute value of a 32-bit hash, between
    one and six characters wide (not of one fixed width).  For every two
    hashes, [calculateSimilarity] is [1] when both are empty and otherwise
    the number of positions below the shorter length at which the hashes
    agree, divided by the longer length; the value lies in [[0,1]] and does
    not change when the arguments are swapped. *)
Theorem simpleHash_calculateSimilarity_contract :
  (forall text1 text2 : string,
      text1 = text2 -> Hasher.simpleHash text1 = Hasher.simpleHash text2) /\
  (forall text : string,
      1 <= JS.len (Hasher.simpleHash text) <= 6 /\
      JS.parse36 0 (Hasher.simpleHash text) = Z.abs (Hasher.hashLoop 0 text)) /\
  (forall h1 h2 : string,
      Hasher.calculateSimilarity h1 h2 =
        (if decide (h1 = "" /\ h2 = "") then 1%Q
         else Qmake (Z.of_nat (Hasher.matchingPositions h1 h2))
                    (Z.to_pos (Z.max (JS.len h1) (JS.len h2)))) /\
      (0 <= Hasher.calculateSimilarity h1 h2 <= 1)%Q /\
      Hasher.calculateSimilarity h1 h2 = Hasher.calculateSimilarity h2 h1).
Proof.
  split; [intros ? ? ->; reflexivity|]. split.
  - intros text. split; [apply simpleHash_width|].
    unfold Hasher.simpleHash. apply parse36_toString36. lia.
  - intros h1 h2. split; [|split].
    + unfold Hasher.calculateSimilarity. cbv zeta.
      rewrite matches_matchingPositions.
      assert (0 <= JS.len h1 /\ 0 <= JS.len h2) as [? ?] by (unfold JS.len; lia).
      destruct (Z.max (JS.len h1) (JS.len h2) =? 0) eqn:Hz.
      * apply Z.eqb_eq in Hz. rewrite decide_True; [reflexivity|].
        split; apply len_zero; lia.
      * apply Z.eqb_neq in Hz. rewrite decide_False; [reflexivity|].
        intros [-> ->]. apply Hz. reflexivity.
    + apply calculateSimilarity_range.
    + apply calculateSimilarity_comm.
Qed.

(** ** The collection tracker *)

Module CollectionFacts.
Import CollectionTracker.

Section Maps.

Context {V : Type}.

Lemma lookup_foldl_insert (keys : list string) (v : V) (m : gmap string V) (k : string) :
  foldl (fun m key => <[key := v]> m) m keys !! k =
    if decide (k ∈ keys) then Some v else m !! k.
Proof.
  revert m. induction keys as [|a keys IH]; intros m; cbn [foldl].
  - rewrite decide_False by apply not_elem_of_nil. reflexivity.
  - rewrite IH. destruct (decide (k ∈ keys)) as [Hin|Hnin].
    + rewrite decide_True by (right; exact Hin). reflexivity.
    + destruct (decide (k = a)) as [->|Hne].
      * rewrite lookup_insert_eq, decide_True by left. reflexivity.
      * rewrite lookup_insert_ne by congruence.
        rewrite decide_False; [reflexivity|].
        intros Hin. apply elem_of_cons in Hin as [?|?]; congruence.
Qed.

Lemma lookup_foldl_delete (keys : list string) (m : gmap string V) (k : string) :
  foldl (fun m key => delete key m) m keys !! k =
    if decide (k ∈ keys) then None else m !! k.
Proof.
  revert m. induction keys as [|a keys IH]; intros m; cbn [foldl].
  - rewrite decide_False by apply not_elem_of_nil. reflexivity.
  - rewrite IH. destruct (decide (k ∈ keys)) as [Hin|Hnin].
    + rewrite decide_True by (right; exact Hin). reflexivity.
    + destruct (decide (k = a)) as [->|Hne].
      * rewrite lookup_delete_eq, decide_True by left. reflexivity.
      * rewrite lookup_delete_ne by congruence.
        rewrite decide_False; [reflexivity|].
        intros Hin. apply elem_of_cons in Hin as [?|?]; congruence.
Qed.

End Maps.

(** What survives the sweep of [cleanupOldEntries]. *)
Lemma lookup_sweep (cutoff : Z) (c : gmap string Z) (k : string) :
  foldl (fun m key => delete key m) c
    (filter (fun kv : string * Z => kv.2 < cutoff) (map_to_list c)).*1 !! k =
    match c !! k with
    | Some ts => if decide (ts < cutoff) then None else Some ts
    | None => None
    end.
Proof.
  rewrite lookup_foldl_delete.
  destruct (c !! k) as [ts|] eqn:Hk.
  - destruct (decide (ts < cutoff)) as [Hold|Hnew].
    + rewrite decide_True; [reflexivity|].
      apply list_elem_of_fmap. exists (k, ts). split; [reflexivity|].
      apply list_elem_of_filter. split; [exact Hold|].
      now apply elem_of_map_to_list.
    + rewrite decide_False; [reflexivity|].
      intros Hin. apply list_elem_of_fmap in Hin as [[k' ts'] [Heq Hin]].
      apply list_elem_of_filter in Hin as [Hold Hin].
      apply elem_of_map_to_list in Hin. cbn in Heq, Hold. subst k'.
      rewrite Hk in Hin. injection Hin as <-. contradiction.
  - destruct (decide (_ ∈ _)); reflexivity.
Qed.

Section Tracker.

Variable parseURL : string -> option URL.
Variable LocalTZA : Z -> bool -> Offset.

Local Abbreviation signalKeys := (signalKeys parseURL).
Local Abbreviation thirtyDaysAgo := (thirtyDaysAgo LocalTZA).
Local Abbreviation markAsCollected := (markAsCollected parseURL LocalTZA).
Local Abbreviation isAlreadyCollected := (isAlreadyCollected parseURL).
Local Abbreviation filterLoop := (filterLoop parseURL LocalTZA).
Local Abbreviation filterNewSignals := (filterNewSignals parseURL LocalTZA).

(** The cut-off lies within two days of thirty times twenty-four hours
    before the call, whatever the zone. *)
Lemma thirtyDaysAgo_range (now : Z) :
  now - 32 * msPerDay < thirtyDaysAgo now < now - 28 * msPerDay.
Proof.
  unfold CollectionTracker.thirtyDaysAgo. cbv zeta.
  pose proof (offset_bound (LocalTZA now true)) as Ha.
  pose proof (offset_bound
                (LocalTZA (now + offset_ms (LocalTZA now true) - 30 * msPerDay) false))
    as Hb.
  apply Z.ltb_lt in Ha, Hb. unfold msPerDay in *. lia.
Qed.

Lemma markAsCollected_today (now : Z) (s : Signal) (t : Tracker) :
  collected (today (markAsCollected now s t)) =
    Some (foldl (fun m key => <[key := now]> m)
            (default ∅ (collected (today t))) (signalKeys s)).
Proof. reflexivity. Qed.

Lemma markAsCollected_global (now : Z) (s : Signal) (t : Tracker) (k : string) :
  exists c', collected (global (markAsCollected now s t)) = Some c' /\
    c' !! k =
      if decide (k ∈ signalKeys s) then Some now
      else match default ∅ (collected (global t)) !! k with
           | Some ts => if decide (ts < thirtyDaysAgo now) then None else Some ts
           | None => None
           end.
Proof.
  eexists. split; [reflexivity|].
  rewrite lookup_sweep, lookup_foldl_insert.
  destruct (decide (k ∈ signalKeys s)); [|reflexivity].
  rewrite decide_False; [reflexivity|].
  pose proof (thirtyDaysAgo_range now). unfold msPerDay in *. lia.
Qed.

Lemma markAsCollected_marks (now : Z) (s : Signal) (t : Tracker) (k : string) :
  k ∈ signalKeys s -> markedToday k (markAsCollected now s t).
Proof.
  intros Hk. eexists. split; [apply markAsCollected_today|].
  rewrite lookup_foldl_insert, decide_True by exact Hk. eauto.
Qed.

Lemma markAsCollected_keeps (now : Z) (s : Signal) (t : Tracker) (k : string) :
  markedToday k t -> markedToday k (markAsCollected now s t).
Proof.
  intros (c & Hc & Hk). eexists. split; [apply markAsCollected_today|].
  rewrite lookup_foldl_insert, Hc. cbn [default].
  destruct (decide (k ∈ signalKeys s)); eauto.
Qed.

Lemma markedToday_collected (now : Z) (s : Signal) (t : Tracker) (k : string) :
  k ∈ signalKeys s -> markedToday k t -> isAlreadyCollected now s t = true.
Proof.
  intros Hin (c & Hc & Hk). unfold isAlreadyCollected, foundToday. cbv zeta.
  rewrite Hc.
  replace (existsb _ _) with true; [reflexivity|].
  symmetry. apply existsb_exists. exists k. split.
  - now apply list_elem_of_In.
  - now apply bool_decide_eq_true.
Qed.


Lemma firstKey_in (s : Signal) :
  JS.toLowerCase (signalSource s +:+ ":" +:+ normalizeUrl parseURL (signalUrl s)
                  +:+ ":" +:+ normalizeTitle (signalTitle s)) ∈ signalKeys s.
Proof. left. Qed.

Lemma titleKey_in (s : Signal) : titleKey s ∈ signalKeys s.
Proof. right. right. left. Qed.

(** The arrays of [filterNewSignals] only grow. *)
Lemma filterLoop_grows (now : Z) (signals : list Signal) (t : Tracker)
    (acc : FilterResult) :
  exists new skipped,
    newSignals (filterLoop now signals t acc).1 = newSignals acc ++ new /\
    skippedSignals (filterLoop now signals t acc).1 = skippedSignals acc ++ skipped.
Proof.
  revert t acc. induction signals as [|s rest IH]; intros t acc; cbn [filterLoop].
  - exists [], []. now rewrite !app_nil_r.
  - destruct (isAlreadyCollected now s t).
    + destruct (IH t {| newSignals := newSignals acc;
                        skippedSignals := skippedSignals acc ++ [s] |})
        as (new & skipped & Hn & Hs).
      exists new, (s :: skipped). rewrite Hn, Hs. cbn.
      now rewrite <- app_assoc.
    + destruct (IH (markAsCollected now s t)
                  {| newSignals := newSignals acc ++ [s];
                     skippedSignals := skippedSignals acc |})
        as (new & skipped & Hn & Hs).
      exists (s :: new), skipped. rewrite Hn, Hs. cbn.
      now rewrite <- app_assoc.
Qed.

(** A signal one of whose keys is on record for today is skipped wherever
    it comes in the batch. *)
Lemma filterLoop_skips_marked (now : Z) (k : string) (s : Signal)
    (pre rest : list Signal) (t : Tracker) (acc : FilterResult) :
  k ∈ signalKeys s -> markedToday k t ->
  s ∈ skippedSignals (filterLoop now (pre ++ s :: rest) t acc).1.
Proof.
  intros Hk. revert t acc.
  induction pre as [|p pre IH]; intros t acc Hm; cbn [app filterLoop].
  - rewrite (markedToday_collected now s t k Hk Hm).
    destruct (filterLoop_grows now rest t
                {| newSignals := newSignals acc;
                   skippedSignals := skippedSignals acc ++ [s] |})
      as (new & skipped & _ & Hs).
    rewrite Hs. cbn [skippedSignals].
    apply elem_of_app. left. apply elem_of_app. right. left.
  - destruct (isAlreadyCollected now p t).
    + now apply IH.
    + apply IH. now apply markAsCollected_keeps.
Qed.

(** Once a signal has been met in a batch, a later occurrence of it is
    skipped: the first one was either skipped itself or marked. *)
Lemma filterLoop_second_skipped (now : Z) (s : Signal)
    (pre mid rest : list Signal) (t : Tracker) (acc : FilterResult) :
  s ∈ skippedSignals (filterLoop now (pre ++ s :: mid ++ s :: rest) t acc).1.
Proof.
  revert t acc. induction pre as [|p pre IH]; intros t acc; cbn [app filterLoop].
  - destruct (isAlreadyCollected now s t).
    + destruct (filterLoop_grows now (mid ++ s :: rest) t
                  {| newSignals := newSignals acc;
                     skippedSignals := skippedSignals acc ++ [s] |})
        as (new & skipped & _ & Hs).
      rewrite Hs. cbn [skippedSignals].
      apply elem_of_app. left. apply elem_of_app. right. left.
    + apply (filterLoop_skips_marked now _ s mid rest _ _ (firstKey_in s)).
      apply markAsCollected_marks, firstKey_in.
  - destruct (isAlreadyCollected now p t); apply IH.
Qed.

Lemma filterLoop_app (now : Z) (pre rest : list Signal) (t : Tracker)
    (acc : FilterResult) :
  filterLoop now (pre ++ rest) t acc =
    filterLoop now rest (filterLoop now pre t acc).2 (filterLoop now pre t acc).1.
Proof.
  revert t acc. induction pre as [|p pre IH]; intros t acc; [reflexivity|].
  cbn [app CollectionTracker.filterLoop].
  destruct (isAlreadyCollected now p t); apply IH.
Qed.

(** The first occurrence of a signal in a batch is new when none of its
    keys has been collected by the time the loop reaches it. *)
Lemma filterLoop_first_new (now : Z) (s : Signal) (pre rest : list Signal)
    (t : Tracker) (acc : FilterResult) :
  isAlreadyCollected now s (filterLoop now pre t acc).2 = false ->
  s ∈ newSignals (filterLoop now (pre ++ s :: rest) t acc).1.
Proof.
  intros Hnew. rewrite filterLoop_app. cbn [CollectionTracker.filterLoop].
  rewrite Hnew.
  destruct (filterLoop_grows now rest
              (markAsCollected now s (filterLoop now pre t acc).2)
              {| newSignals := newSignals (filterLoop now pre t acc).1 ++ [s];
                 skippedSignals := skippedSignals (filterLoop now pre t acc).1 |})
    as (new & skipped & Hn & _).
  rewrite Hn. cbn [newSignals].
  apply elem_of_app. left. apply elem_of_app. right. left.
Qed.

(** Re-ingestion on any tracker that has not collected the signal yet. *)
Lemma filterNewSignals_twice (s : Signal) (now1 now2 : Z) (t : Tracker) :
  isAlreadyCollected now1 s t = false ->
  (filterNewSignals now1 [s] t).1 = {| newSignals := [s]; skippedSignals := [] |} /\
  (filterNewSignals now2 [s] (filterNewSignals now1 [s] t).2).1 =
    {| newSignals := []; skippedSignals := [s] |}.
Proof.
  intros Hnew. unfold CollectionTracker.filterNewSignals.
  cbn [CollectionTracker.filterLoop newSignals skippedSignals app].
  rewrite Hnew. cbn [fst snd CollectionTracker.filterLoop].
  split; [reflexivity|].
  rewrite (markedToday_collected now2 s _ _ (firstKey_in s));
    [reflexivity|apply markAsCollected_marks, firstKey_in].
Qed.

(** C2 (amended).  After [markAsCollected(a)], every signal [b] whose
    normalized title is that of [a] is already collected, whatever the
    sources and the links of the two (different sources and different
    non-empty links included, and empty links too): the title-only key of
    [b] is on record for today. *)
Theorem same_title_already_collected (a b : Signal) (now1 now2 : Z) (t : Tracker) :
  normalizeTitle (signalTitle a) = normalizeTitle (signalTitle b) ->
  (exists c, collected (today (markAsCollected now1 a t)) = Some c /\
             c !! titleKey b = Some now1) /\
  isAlreadyCollected now2 b (markAsCollected now1 a t) = true.
Proof.
  intros Htitle.
  assert (Hkey : titleKey b ∈ signalKeys a).
  { unfold titleKey. rewrite <- Htitle. apply titleKey_in. }
  split.
  - eexists. split; [apply markAsCollected_today|].
    now rewrite lookup_foldl_insert, decide_True.
  - apply (markedToday_collected now2 b _ _ (titleKey_in b)).
    now apply markAsCollected_marks.
Qed.

(** C9 (amended).  A global entry older than thirty calendar days of the
    local zone is gone after any [markAsCollected]: that is an entry whose
    time stamp is before the cut-off [thirtyDaysAgo], or more than thirty
    times twenty-four hours old when the zone's adjustment is the same at
    the cut-off as at the call, or at least thirty-one days old when the
    adjustment at the cut-off is less than a day ahead of the one at the
    call.  Under its key the global scope then holds nothing, unless the
    key is one of the four keys just written, in which case it holds the
    time stamp of this call; either way the old entry is absent, and no
    entry from before the cut-off is left. *)
Theorem markAsCollected_prunes_global (t : Tracker) (c : gmap string Z)
    (k : string) (ts now : Z) (s : Signal) :
  collected (global t) = Some c ->
  c !! k = Some ts ->
  ts < thirtyDaysAgo now \/
  (ts < now - 30 * msPerDay /\
   offset_ms (LocalTZA (now + offset_ms (LocalTZA now true) - 30 * msPerDay) false)
   = offset_ms (LocalTZA now true)) \/
  (ts <= now - 31 * msPerDay /\
   offset_ms (LocalTZA (now + offset_ms (LocalTZA now true) - 30 * msPerDay) false)
   - offset_ms (LocalTZA now true) < msPerDay) ->
  exists c', collected (global (markAsCollected now s t)) = Some c' /\
    c' !! k ≠ Some ts /\
    c' !! k = (if decide (k ∈ signalKeys s) then Some now else None) /\
    (forall k' ts', c' !! k' = Some ts' -> thirtyDaysAgo now <= ts').
Proof.
  intros Hc Hk Hage.
  pose proof (thirtyDaysAgo_range now) as Hrange.
  assert (Hold : ts < thirtyDaysAgo now).
  { destruct Hage as [H|[[H Heq]|[H Hlt]]]; [exact H| |];
      unfold CollectionTracker.thirtyDaysAgo; cbv zeta; unfold msPerDay in *; lia. }
  destruct (markAsCollected_global now s t k) as (c' & Hc' & Hk').
  exists c'. split; [exact Hc'|].
  rewrite Hc in Hk'. change (default ∅ (Some c)) with c in Hk'. rewrite Hk in Hk'.
  destruct (decide (ts < thirtyDaysAgo now)) as [_|Hn]; [|contradiction].
  assert (Hlt : ts < now) by (unfold msPerDay in *; lia).
  split; [|split].
  - rewrite Hk'. destruct (decide (k ∈ signalKeys s)); [|discriminate].
    intros [= ->]. lia.
  - exact Hk'.
  - intros k' ts' Hk''.
    destruct (markAsCollected_global now s t k') as (c'' & Hc'' & Hl).
    rewrite Hc' in Hc''. injection Hc'' as <-. rewrite Hk'' in Hl.
    destruct (decide (k' ∈ signalKeys s)).
    + injection Hl as ->. unfold msPerDay in *. lia.
    + destruct (default ∅ (collected (global t)) !! k') as [ts0|]; [|discriminate].
      destruct (decide (ts0 < thirtyDaysAgo now)); [discriminate|].
      injection Hl as ->. lia.
Qed.

Lemma foldl_searchParams_delete (params : list string) (urlObj : URL) :
  let urlObj' := foldl (fun u param => searchParams_delete param u) urlObj params in
  protocol urlObj' = protocol urlObj /\ host urlObj' = host urlObj /\
  pathname urlObj' = pathname urlObj.
Proof.
  cbv zeta. revert urlObj.
  induction params as [|p params IH]; intros urlObj; cbn [foldl]; [easy|].
  destruct (IH (searchParams_delete p urlObj)) as (-> & -> & ->). easy.
Qed.

Lemma dropLast_slash (path : string) :
  JS.endsWithSlash path = true -> path = JS.dropLast path +:+ "/".
Proof.
  induction path as [|c path IH]; [discriminate|].
  destruct path as [|d path].
  - cbn. destruct (Ascii.eqb_spec c "/"); [now subst|discriminate].
  - intros Hs. change (String c (String d path) =
                       String c (JS.dropLast (String d path) +:+ "/")).
    f_equal. now apply IH.
Qed.

(** [normalizeUrl] on any parser: the empty string for the empty string,
    a string that the platform cannot parse unchanged, and for a string
    it can parse the scheme, ["//"], the host (both as the parser delivers
    them) and the path, the path without its last character when it ends
    in a slash and is longer than that slash.  The query string has no
    part in the result, whether its parameters were deleted or not. *)
Theorem normalizeUrl_result (url : string) :
  normalizeUrl parseURL url =
    (if decide (url = "") then ""
     else match parseURL url with
          | Some urlObj =>
              protocol urlObj +:+ "//" +:+ host urlObj +:+
                (if JS.endsWithSlash (pathname urlObj)
                    && (1 <? JS.len (pathname urlObj))
                 then JS.dropLast (pathname urlObj) else pathname urlObj)
          | None => url
          end) /\
  (forall path : string,
     JS.endsWithSlash path = true -> path = JS.dropLast path +:+ "/").
Proof.
  split; [|apply dropLast_slash].
  unfold normalizeUrl, JS.truthy.
  destruct (String.eqb_spec url "") as [->|Hne]; cbn [negb].
  - reflexivity.
  - rewrite decide_False by exact Hne.
    destruct (parseURL url) as [urlObj|]; [|reflexivity]. cbv zeta.
    destruct (foldl_searchParams_delete paramsToRemove urlObj) as (-> & -> & ->).
    reflexivity.
Qed.

End Tracker.

Example signalKeys_sample :
  signalKeys Samples.parseURL Samples.fooTracked =
    ["a:http://x.com/1:foo launch"; "a:http://x.com/1"; "foo launch";
     "a:foo launch"].
Proof. vm_compute. reflexivity. Qed.

(** The batch of the specification's end-to-end scenario: the second item
    is the first one without its tracking parameter. *)
Example filterNewSignals_scenario :
  (filterNewSignals Samples.parseURL Samples.utc 0
     [Samples.fooTracked; Samples.fooA; Samples.barB] (freshTracker 0)).1 =
    {| newSignals := [Samples.fooTracked; Samples.barB];
       skippedSignals := [Samples.fooA] |}.
Proof. vm_compute. reflexivity. Qed.

(** C4.  [normalizeUrl] does not leave the other query parameters in
    place: [id] is not on the list of tracking parameters, and for
    [http://x.com/a?id=5] the result is [http://x.com/a]; the loop that
    deletes the tracking parameters has no effect, since the query string
    is not written back.  The rest of the claim holds on the samples: a
    tracking parameter is gone, an upper-case scheme and host come back
    from the URL parser in lower case and the trailing slash is trimmed,
    a string that does not parse comes back unchanged and the empty
    string gives the empty string. *)
Lemma normalizeUrl_drops_untracked_parameter :
  ~ In "id" paramsToRemove /\
  normalizeUrl Samples.parseURL "http://x.com/a?id=5" = "http://x.com/a" /\
  JS.includes (normalizeUrl Samples.parseURL "http://x.com/a?id=5") "id=5" = false /\
  normalizeUrl Samples.parseURL "http://x.com/1?utm_source=foo" = "http://x.com/1" /\
  normalizeUrl Samples.parseURL "HTTP://X.COM/A/" = "http://x.com/A" /\
  normalizeUrl Samples.parseURL "not a url" = "not a url" /\
  normalizeUrl Samples.parseURL "" = "".
Proof.
  split; [|repeat split; vm_compute; reflexivity].
  cbn. intros H. repeat (destruct H as [H|H]; [discriminate H|]). exact H.
Qed.

(** C2, as stated, fails: the two samples share the title "Foo Launch",
    come from different sources and carry different non-empty links, and
    the second is already collected once the first is marked. *)
Lemma title_only_key_collision :
  normalizeTitle (signalTitle Samples.fooA) = normalizeTitle (signalTitle Samples.fooB) /\
  source Samples.fooA ≠ source Samples.fooB /\
  link Samples.fooA ≠ link Samples.fooB /\
  link Samples.fooA ≠ "" /\ link Samples.fooB ≠ "" /\
  isAlreadyCollected Samples.parseURL 0 Samples.fooB
    (markAsCollected Samples.parseURL Samples.utc 0 Samples.fooA (freshTracker 0)) = true.
Proof.
  split; [vm_compute; reflexivity|].
  do 4 (split; [discriminate|]).
  vm_compute. reflexivity.
Qed.

Lemma same_title_already_collected_witness :
  isAlreadyCollected Samples.parseURL 5 Samples.fooB
    (markAsCollected Samples.parseURL Samples.utc 0 Samples.fooA (freshTracker 0)) = true.
Proof.
  exact (proj2 (same_title_already_collected Samples.parseURL Samples.utc
                  Samples.fooA Samples.fooB 0 5 (freshTracker 0) eq_refl)).
Defined.

Lemma markAsCollected_prunes_global_witness :
  exists c', collected (global (markAsCollected Samples.parseURL Samples.autumn
                                  (31 * msPerDay) Samples.fooA
                                  Samples.staleTracker)) = Some c' /\
             c' !! "stale" = None.
Proof.
  destruct (markAsCollected_prunes_global Samples.parseURL Samples.autumn
              Samples.staleTracker {["stale" := 0]} "stale" 0 (31 * msPerDay)
              Samples.fooA eq_refl (lookup_singleton_eq _ _))
    as (c' & Hc' & _ & Hk & _).
  - right. right. split; vm_compute; [discriminate|reflexivity].
  - exists c'. split; [exact Hc'|]. rewrite Hk.
    apply decide_False. vm_compute. intros Hin.
    repeat (apply elem_of_cons in Hin as [Hin|Hin]; [discriminate|]).
    now apply elem_of_nil in Hin.
Defined.

(** C9, as stated, fails across a clock change: thirty days after the
    clocks went back an hour, an entry thirty days and thirty minutes old
    is before [now - 30 * msPerDay] and is still there after
    [markAsCollected], because the cut-off of thirty calendar days is an
    hour earlier. *)
Lemma entry_older_than_thirty_days_kept :
  0 < (30 * msPerDay + 30 * 60 * 1000) - 30 * msPerDay /\
  thirtyDaysAgo Samples.autumn (30 * msPerDay + 30 * 60 * 1000)
  = (30 * msPerDay + 30 * 60 * 1000) - 30 * msPerDay - 60 * 60 * 1000 /\
  exists c', collected (global (markAsCollected Samples.parseURL Samples.autumn
                                  (30 * msPerDay + 30 * 60 * 1000) Samples.fooA
                                  Samples.staleTracker)) = Some c' /\
             c' !! "stale" = Some 0.
Proof.
  split; [reflexivity|]. split; [reflexivity|].
  eexists. split; [reflexivity|]. vm_compute. reflexivity.
Qed.

End CollectionFacts.

(** ** Substrings *)

Section SubstringFacts.

Lemma append_assoc (a b c : string) : (a +:+ b) +:+ c = a +:+ b +:+ c.
Proof.
  induction a as [|x a IH]; [reflexivity|].
  change (String x ((a +:+ b) +:+ c) = String x (a +:+ b +:+ c)). now f_equal.
Qed.

Lemma toLowerCase_append (a b : string) :
  JS.toLowerCase (a +:+ b) = JS.toLowerCase a +:+ JS.toLowerCase b.
Proof.
  induction a as [|x a IH]; [reflexivity|].
  change (String (JS.lowerChar x) (JS.toLowerCase (a +:+ b)) =
          String (JS.lowerChar x) (JS.toLowerCase a +:+ JS.toLowerCase b)).
  now f_equal.
Qed.

Lemma splitHead_append (c : ascii) (s : string) :
  exists rest, s = JS.splitHead c s +:+ rest.
Proof.
  induction s as [|d s [rest IH]]; [now exists ""|].
  cbn [JS.splitHead]. destruct (Ascii.eqb d c).
  - now exists (String d s).
  - exists rest. change (String d s = String d (JS.splitHead c s +:+ rest)).
    now f_equal.
Qed.

Lemma prefix_append (n b : string) : String.prefix n (n +:+ b) = true.
Proof.
  induction n as [|x n IH]; [destruct b; reflexivity|].
  change (String.prefix (String x n) (String x (n +:+ b)) = true).
  cbn [String.prefix]. destruct (ascii_dec x x); [exact IH|congruence].
Qed.

Lemma prefix_inv (n h : string) :
  String.prefix n h = true -> exists b, h = n +:+ b.
Proof.
  revert h. induction n as [|x n IH]; intros h Hp; [now exists h|].
  destruct h as [|y h]; [discriminate|]. cbn [String.prefix] in Hp.
  destruct (ascii_dec x y) as [->|]; [|discriminate].
  destruct (IH h Hp) as [b ->]. now exists b.
Qed.

Lemma includes_unfold (h n : string) :
  JS.includes h n =
    String.prefix n h ||
    match h with EmptyString => false | String _ h' => JS.includes h' n end.
Proof. destruct h; reflexivity. Qed.

Lemma includes_append (a n b : string) : JS.includes (a +:+ n +:+ b) n = true.
Proof.
  induction a as [|x a IH].
  - change ("" +:+ n +:+ b) with (n +:+ b).
    rewrite includes_unfold. now rewrite prefix_append.
  - change (String x a +:+ n +:+ b) with (String x (a +:+ n +:+ b)).
    rewrite includes_unfold. cbv iota. rewrite IH. apply orb_true_r.
Qed.

Lemma includes_inv (h n : string) :
  JS.includes h n = true -> exists a b, h = a +:+ n +:+ b.
Proof.
  induction h as [|x h IH]; rewrite includes_unfold; intros Hi;
    apply orb_true_iff in Hi as [Hp|Hi]; try discriminate.
  - destruct (prefix_inv _ _ Hp) as [b ->]. now exists "", b.
  - destruct (prefix_inv _ _ Hp) as [b ->]. now exists "", b.
  - destruct (IH Hi) as (a & b & ->). now exists (String x a), b.
Qed.

(** The lowercased link starts with its cleaned form. *)
Lemma cleanUrl_prefix (url : string) :
  exists rest,
    JS.toLowerCase url = AdvancedDeduplication.cleanUrl url +:+ rest.
Proof.
  unfold AdvancedDeduplication.cleanUrl.
  destruct (splitHead_append "?" url) as [r1 H1].
  destruct (splitHead_append "#" (JS.splitHead "?" url)) as [r2 H2].
  exists (JS.toLowerCase r2 +:+ JS.toLowerCase r1).
  rewrite H1 at 1. rewrite H2 at 1.
  now rewrite !toLowerCase_append, append_assoc.
Qed.

(** A link whose cleaned form contains a string contains it as a whole. *)
Lemma includes_cleaned (link needle : string) :
  JS.includes (AdvancedDeduplication.cleanUrl link) needle = true ->
  JS.includes (JS.toLowerCase link) needle = true.
Proof.
  intros Hi. destruct (includes_inv _ _ Hi) as (a & b & Hab).
  destruct (cleanUrl_prefix link) as [rest ->]. rewrite Hab.
  rewrite !append_assoc. apply includes_append.
Qed.

Lemma includes_own_cleaned (link : string) :
  JS.includes (JS.toLowerCase link) (AdvancedDeduplication.cleanUrl link) = true.
Proof.
  destruct (cleanUrl_prefix link) as [rest ->].
  apply (includes_append "").
Qed.

Lemma truthy_true (s : string) : JS.truthy s = true <-> s ≠ "".
Proof.
  unfold JS.truthy. destruct (String.eqb_spec s ""); cbn; split; congruence.
Qed.

Lemma truthy_false (s : string) : JS.truthy s = false <-> s = "".
Proof.
  unfold JS.truthy. destruct (String.eqb_spec s ""); cbn; split; congruence.
Qed.

End SubstringFacts.

(** ** The deduplication / publishing tracker *)

Module DedupFacts.
Import AdvancedDeduplication.

Lemma existsb_entries {E : Type} (f : E -> bool) (m : gmap string E) :
  existsb (fun kv : string * E => f kv.2) (map_to_list m) = true <->
  exists k v, m !! k = Some v /\ f v = true.
Proof.
  rewrite existsb_exists. split.
  - intros ([k v] & Hin & Hf). exists k, v. split; [|exact Hf].
    now apply elem_of_map_to_list, list_elem_of_In.
  - intros (k & v & Hl & Hf). exists (k, v). split; [|exact Hf].
    now apply list_elem_of_In, elem_of_map_to_list.
Qed.

(** [checkURLAlreadyProcessed] answers yes exactly for a non-empty URL
    whose cleaned form occurs in the link of a record of [published] or
    [content_hashes]. *)
Lemma checkURLAlreadyProcessed_spec (u : string) (t : Tracker) :
  checkURLAlreadyProcessed u t = true <->
  u ≠ "" /\
  exists k v, (published t !! k = Some v \/ content_hashes t !! k = Some v) /\
              linkHit (cleanUrl u) v = true.
Proof.
  unfold checkURLAlreadyProcessed.
  destruct (JS.truthy u) eqn:Hu; cbn [negb].
  - apply truthy_true in Hu. cbv zeta.
    destruct (existsb _ (map_to_list (published t))) eqn:Hp.
    + apply existsb_entries in Hp as (k & v & Hl & Hf).
      split; [|reflexivity]. intros _. split; [exact Hu|]. eauto 6.
    + destruct (existsb _ (map_to_list (content_hashes t))) eqn:Hc.
      * apply existsb_entries in Hc as (k & v & Hl & Hf).
        split; [|reflexivity]. intros _. split; [exact Hu|]. eauto 6.
      * split; [discriminate|]. intros (_ & k & v & [Hl|Hl] & Hf).
        -- assert (existsb (fun kv : string * Entry => linkHit (cleanUrl u) kv.2)
                     (map_to_list (published t)) = true) as Hx
             by (apply existsb_entries; eauto).
           congruence.
        -- assert (existsb (fun kv : string * Entry => linkHit (cleanUrl u) kv.2)
                     (map_to_list (content_hashes t)) = true) as Hx
             by (apply existsb_entries; eauto).
           congruence.
  - apply truthy_false in Hu. split; [discriminate|]. intros [Hne _]. contradiction.
Qed.

Lemma call_published (c : Call) (t : Tracker) (k : string) :
  published (call t c) !! k =
    if decide (k = callKey c) then published (call t c) !! callKey c
    else published t !! k.
Proof.
  destruct (decide (k = callKey c)) as [->|Hne]; [reflexivity|].
  destruct c; cbn [call callKey markAsPublished markAsProcessed published];
    cbn [callKey] in Hne; now rewrite lookup_insert_ne.
Qed.

Lemma call_published_is_Some (c : Call) (t : Tracker) :
  is_Some (published (call t c) !! callKey c).
Proof.
  destruct c; cbn [call callKey markAsPublished markAsProcessed published];
    rewrite lookup_insert_eq; eauto.
Qed.

(** A composite key, once in [published], stays: no call deletes. *)
Lemma run_keeps_key (calls : list Call) (t : Tracker) (k : string) :
  is_Some (published t !! k) -> is_Some (published (run calls t) !! k).
Proof.
  revert t. induction calls as [|c calls IH]; intros t Hk; [exact Hk|].
  apply IH. rewrite call_published.
  destruct (decide (k = callKey c)); [apply call_published_is_Some|exact Hk].
Qed.

Lemma ownLink_hit (l : string) (e : Entry) :
  l ≠ "" -> e_link e = l -> linkHit (cleanUrl l) e = true.
Proof.
  intros Hne <-. unfold linkHit.
  rewrite (proj2 (truthy_true _) Hne), includes_own_cleaned. reflexivity.
Qed.

Lemma markAsPublished_own_url (now : Z) (A : Signal) (t : Tracker) :
  checkURLAlreadyProcessed (link A) (markAsPublished now A t) = JS.truthy (link A).
Proof.
  destruct (JS.truthy (link A)) eqn:Hl.
  - apply truthy_true in Hl. apply checkURLAlreadyProcessed_spec.
    split; [exact Hl|]. eexists _, _. split.
    + left. cbn [markAsPublished published]. apply lookup_insert_eq.
    + now apply ownLink_hit.
  - apply truthy_false in Hl. rewrite Hl.
    destruct (checkURLAlreadyProcessed "" _) eqn:Hc; [|reflexivity].
    apply checkURLAlreadyProcessed_spec in Hc as [Hne _]. contradiction.
Qed.

Example generateSignalKey_sample :
  generateSignalKey Samples.fooA = "a:http://x.com/1:foolaunch".
Proof. reflexivity. Qed.

(** C1 (amended).  After [markAsPublished(A)], and after any later calls
    on the same tracker, [checkAlreadyPublished(A)] is true and
    [checkDeduplication(A)] with every check enabled reports a duplicate
    with exactly one reason: ['url_already_processed'] when [A] has a
    link that the URL guard finds (which it does right after the call,
    whenever the link is non-empty), and ['already_published'] otherwise
    (so for every [A] without a link). *)
Theorem publish_once (A : Signal) (now now' : Z) (t : Tracker)
    (calls : list Call) (options : Options.t) :
  checkAlreadyPublished A (run calls (markAsPublished now A t)) = true /\
  isDuplicate (checkDeduplication now' A (publishingChecks options)
                 (run calls (markAsPublished now A t))) = true /\
  reasons (checkDeduplication now' A (publishingChecks options)
             (run calls (markAsPublished now A t))) =
    (if JS.truthy (link A)
        && checkURLAlreadyProcessed (link A) (run calls (markAsPublished now A t))
     then ["url_already_processed"] else ["already_published"]) /\
  reasons (checkDeduplication now' A (publishingChecks options)
             (markAsPublished now A t)) =
    (if JS.truthy (link A) then ["url_already_processed"]
     else ["already_published"]).
Proof.
  assert (Hpub : forall calls,
             checkAlreadyPublished A (run calls (markAsPublished now A t)) = true).
  { intros cs. apply bool_decide_eq_true, run_keeps_key.
    cbn [markAsPublished published]. rewrite lookup_insert_eq. eauto. }
  assert (Hshape : forall calls,
             let r := checkDeduplication now' A (publishingChecks options)
                        (run calls (markAsPublished now A t)) in
             isDuplicate r = true /\
             reasons r =
               (if JS.truthy (link A)
                   && checkURLAlreadyProcessed (link A)
                        (run calls (markAsPublished now A t))
                then ["url_already_processed"] else ["already_published"])).
  { intros cs. cbv zeta. unfold checkDeduplication.
    cbn [publishingChecks Options.checkURLProcessed Options.checkAlreadyPublished andb].
    rewrite (Hpub cs).
    destruct (JS.truthy (link A)
              && checkURLAlreadyProcessed (link A) (run cs (markAsPublished now A t)));
      split; reflexivity. }
  split; [apply Hpub|]. split; [apply (Hshape calls)|].
  split; [apply (Hshape calls)|].
  destruct (Hshape []) as [_ Hr]. change (run [] ?x) with x in Hr.
  rewrite Hr, markAsPublished_own_url.
  now destruct (JS.truthy (link A)).
Qed.

(** C1, as stated, fails: a published analysis that carries a link is
    reported as ['url_already_processed']; ['already_published'] is not
    among the reasons. *)
Lemma published_link_reports_url :
  checkAlreadyPublished Samples.fooA
    (markAsPublished 0 Samples.fooA (emptyTracker 0)) = true /\
  reasons (checkDeduplication 1 Samples.fooA Options.defaults
             (markAsPublished 0 Samples.fooA (emptyTracker 0)))
    = ["url_already_processed"] /\
  ~ In "already_published"
      (reasons (checkDeduplication 1 Samples.fooA Options.defaults
                  (markAsPublished 0 Samples.fooA (emptyTracker 0)))).
Proof.
  assert (Hr : reasons (checkDeduplication 1 Samples.fooA Options.defaults
                          (markAsPublished 0 Samples.fooA (emptyTracker 0)))
               = ["url_already_processed"]) by (vm_compute; reflexivity).
  split; [vm_compute; reflexivity|]. split; [exact Hr|].
  rewrite Hr. intros [H|[]]. discriminate H.
Qed.

Lemma statusWritten_call (c : Call) (t : Tracker) :
  map_Forall (fun _ e => statusWritten e) (published t) ->
  map_Forall (fun _ e => statusWritten e) (published (call t c)).
Proof.
  intros Hall.
  destruct c; cbn [call markAsPublished markAsProcessed published];
    apply map_Forall_insert_2; try exact Hall; [left|right]; reflexivity.
Qed.

Lemma statusWritten_run (calls : list Call) (t : Tracker) :
  map_Forall (fun _ e => statusWritten e) (published t) ->
  map_Forall (fun _ e => statusWritten e) (published (run calls t)).
Proof.
  revert t. induction calls as [|c calls IH]; intros t Hall; [exact Hall|].
  apply IH, statusWritten_call, Hall.
Qed.

(** C3 (amended).  [markAsPublished] inserts or overwrites the signal's
    entry in [published] with time stamp, source, title and link and
    without a [status] member, leaving the other entries as they were;
    it records the content hash when the content is non-empty and the
    title hash when the title is non-empty; and when the source is
    non-empty it sets that source's list to its former entries newer than
    24 hours followed by the current time stamp.  The records of
    [published] thus carry no status (written here) or the status
    ['processed'] (written by [markAsProcessed]); the status ['published']
    is never stored. *)
Theorem markAsPublished_records (signal : Signal) (now : Z) (t : Tracker) :
  published (markAsPublished now signal t) !! generateSignalKey signal =
    Some {| e_timestamp := now; e_source := source signal;
            e_title := title signal; e_link := link signal;
            e_status := None |} /\
  (forall k, k ≠ generateSignalKey signal ->
     published (markAsPublished now signal t) !! k = published t !! k) /\
  (if JS.truthy (content signal)
   then content_hashes (markAsPublished now signal t)
          !! Hasher.generateContentHash (content signal) =
        Some {| e_timestamp := now; e_source := source signal;
                e_title := title signal; e_link := link signal;
                e_status := None |}
   else content_hashes (markAsPublished now signal t) = content_hashes t) /\
  (if JS.truthy (title signal)
   then title_hashes (markAsPublished now signal t)
          !! Hasher.generateTitleHash (title signal) =
        Some {| te_timestamp := now; te_source := source signal;
                te_link := link signal |}
   else title_hashes (markAsPublished now signal t) = title_hashes t) /\
  (if JS.truthy (source signal)
   then source_hashes (markAsPublished now signal t)
          !! JS.trim (JS.toLowerCase (source signal)) =
        Some (filter (fun timestamp => now - oneDay < timestamp)
                (default [] (source_hashes t
                               !! JS.trim (JS.toLowerCase (source signal))))
              ++ [now])
   else source_hashes (markAsPublished now signal t) = source_hashes t) /\
  (map_Forall (fun _ e => statusWritten e) (published t) ->
   map_Forall (fun _ e => statusWritten e)
     (published (markAsPublished now signal t))) /\
  (forall (calls : list Call) (now0 : Z),
     map_Forall (fun _ e => statusWritten e)
       (published (run calls (emptyTracker now0)))).
Proof.
  split; [apply lookup_insert_eq|].
  split; [intros k Hk; cbn [markAsPublished published];
          now rewrite lookup_insert_ne|].
  split; [cbn [markAsPublished content_hashes];
          destruct (JS.truthy (content signal));
          [apply lookup_insert_eq|reflexivity]|].
  split; [cbn [markAsPublished title_hashes];
          destruct (JS.truthy (title signal));
          [apply lookup_insert_eq|reflexivity]|].
  split.
  - cbn [markAsPublished source_hashes].
    destruct (JS.truthy (source signal)); [|reflexivity].
    cbv zeta. rewrite lookup_insert_eq. f_equal.
    rewrite filter_app. f_equal.
    rewrite filter_cons, decide_True by (unfold oneDay; lia). reflexivity.
  - split.
    + apply (statusWritten_call (MarkAsPublished now signal)).
    + intros calls now0. apply statusWritten_run. apply map_Forall_empty.
Qed.

(** C3, as stated, fails: the record that [markAsPublished] writes has
    no status, neither ['published'] nor ['processed']. *)
Lemma published_record_has_no_status :
  exists e,
    published (markAsPublished 0 Samples.fooA (emptyTracker 0))
      !! generateSignalKey Samples.fooA = Some e /\
    e_status e ≠ Some "published" /\ e_status e ≠ Some "processed".
Proof.
  eexists. split; [apply lookup_insert_eq|]. split; discriminate.
Qed.

(** The URL guard reads the [link] members only. *)
Lemma checkURLAlreadyProcessed_links (u : string) (t1 t2 : Tracker) :
  e_link <$> published t1 = e_link <$> published t2 ->
  e_link <$> content_hashes t1 = e_link <$> content_hashes t2 ->
  checkURLAlreadyProcessed u t1 = checkURLAlreadyProcessed u t2.
Proof.
  assert (Hone : forall ta tb,
             e_link <$> published ta = e_link <$> published tb ->
             e_link <$> content_hashes ta = e_link <$> content_hashes tb ->
             checkURLAlreadyProcessed u ta = true ->
             checkURLAlreadyProcessed u tb = true).
  { intros ta tb Hp Hc Ha.
    apply checkURLAlreadyProcessed_spec in Ha as (Hne & k & v & Hl & Hf).
    apply checkURLAlreadyProcessed_spec. split; [exact Hne|].
    assert (Hmove : forall (ma mb : gmap string Entry),
               e_link <$> ma = e_link <$> mb -> ma !! k = Some v ->
               exists v', mb !! k = Some v' /\ e_link v' = e_link v).
    { intros ma mb Hm Hv.
      assert (Hk : (e_link <$> mb) !! k = Some (e_link v))
        by (rewrite <- Hm, lookup_fmap, Hv; reflexivity).
      rewrite lookup_fmap in Hk. destruct (mb !! k) as [v'|]; [|discriminate].
      exists v'. split; [reflexivity|]. now injection Hk. }
    destruct Hl as [Hl|Hl].
    - destruct (Hmove _ _ Hp Hl) as (v' & Hv' & Hlink).
      exists k, v'. split; [now left|]. unfold linkHit in *. now rewrite Hlink.
    - destruct (Hmove _ _ Hc Hl) as (v' & Hv' & Hlink).
      exists k, v'. split; [now right|]. unfold linkHit in *. now rewrite Hlink. }
  intros Hp Hc.
  destruct (checkURLAlreadyProcessed u t1) eqn:H1.
  - symmetry. now apply (Hone t1 t2).
  - destruct (checkURLAlreadyProcessed u t2) eqn:H2; [|reflexivity].
    rewrite (Hone t2 t1) in H1; [discriminate|now symmetry|now symmetry|exact H2].
Qed.

Lemma call_entry_link (c : Call) (t : Tracker) :
  exists e, published (call t c) !! callKey c = Some e /\
            e_link e = link (callSignal c).
Proof.
  destruct c; cbn [call callKey callSignal markAsPublished markAsProcessed published];
    rewrite lookup_insert_eq; eauto.
Qed.

(** The record under a composite key keeps its link, up to case, over
    calls that write under other keys or write a link that differs in
    case only. *)
Lemma run_keeps_link (calls : list Call) (t : Tracker) (s : Signal) :
  Forall (fun c => callKey c ≠ generateSignalKey s \/
                   JS.toLowerCase (link (callSignal c)) = JS.toLowerCase (link s))
         calls ->
  (exists e, published t !! generateSignalKey s = Some e /\
             JS.toLowerCase (e_link e) = JS.toLowerCase (link s)) ->
  exists e, published (run calls t) !! generateSignalKey s = Some e /\
            JS.toLowerCase (e_link e) = JS.toLowerCase (link s).
Proof.
  revert t. induction calls as [|c calls IH]; intros t Hall Hrec; [exact Hrec|].
  apply Forall_cons in Hall as [Hc Hall].
  change (run (c :: calls) t) with (run calls (call t c)).
  apply IH; [exact Hall|].
  destruct (decide (generateSignalKey s = callKey c)) as [Heq|Hne].
  - destruct Hc as [Hc|Hc]; [congruence|].
    destruct (call_entry_link c t) as (e & He & Hlink).
    exists e. rewrite Heq. split; [exact He|]. now rewrite Hlink.
  - rewrite call_published, decide_False by exact Hne. exact Hrec.
Qed.

Lemma toLowerCase_empty (s : string) : JS.toLowerCase s = "" -> s = "".
Proof. destruct s; [reflexivity|discriminate]. Qed.

(** C6 (amended).  For every non-empty URL [u] and every signal with a
    non-empty link whose cleaned form contains the cleaned form of [u]:
    after [markAsPublished] or [markAsProcessed] of that signal, whatever
    its title and source, [checkURLAlreadyProcessed(u)] is true, and it
    stays true over later calls that write under other composite keys or
    write the same link again.  The answer depends on the stored links
    only: two trackers whose [published] and [content_hashes] records
    carry the same links answer alike. *)
Theorem url_guard (u : string) (s : Signal) (now : Z) (t : Tracker) :
  u ≠ "" ->
  link s ≠ "" ->
  JS.includes (cleanUrl (link s)) (cleanUrl u) = true ->
  checkURLAlreadyProcessed u (markAsPublished now s t) = true /\
  checkURLAlreadyProcessed u (markAsProcessed now s t) = true /\
  (forall calls : list Call,
     Forall (fun c => callKey c ≠ generateSignalKey s \/
                      JS.toLowerCase (link (callSignal c)) = JS.toLowerCase (link s))
            calls ->
     checkURLAlreadyProcessed u (run calls (markAsPublished now s t)) = true /\
     checkURLAlreadyProcessed u (run calls (markAsProcessed now s t)) = true) /\
  (forall t1 t2 : Tracker,
     e_link <$> published t1 = e_link <$> published t2 ->
     e_link <$> content_hashes t1 = e_link <$> content_hashes t2 ->
     checkURLAlreadyProcessed u t1 = checkURLAlreadyProcessed u t2).
Proof.
  intros Hu Hl Hinc.
  assert (Hhit : forall e, JS.toLowerCase (e_link e) = JS.toLowerCase (link s) ->
                           linkHit (cleanUrl u) e = true).
  { intros e He. unfold linkHit. rewrite He, (includes_cleaned _ _ Hinc).
    rewrite (proj2 (truthy_true (e_link e))); [reflexivity|].
    intros Hempty. rewrite Hempty in He. symmetry in He.
    now apply toLowerCase_empty in He. }
  assert (Hrun : forall calls t0,
             Forall (fun c => callKey c ≠ generateSignalKey s \/
                              JS.toLowerCase (link (callSignal c))
                                = JS.toLowerCase (link s)) calls ->
             (exists e, published t0 !! generateSignalKey s = Some e /\
                        JS.toLowerCase (e_link e) = JS.toLowerCase (link s)) ->
             checkURLAlreadyProcessed u (run calls t0) = true).
  { intros calls t0 Hall Hrec.
    destruct (run_keeps_link calls t0 s Hall Hrec) as (e & He & Hlink).
    apply checkURLAlreadyProcessed_spec. split; [exact Hu|].
    exists (generateSignalKey s), e. split; [now left|now apply Hhit]. }
  assert (Hpub : forall calls,
             Forall (fun c => callKey c ≠ generateSignalKey s \/
                              JS.toLowerCase (link (callSignal c))
                                = JS.toLowerCase (link s)) calls ->
             checkURLAlreadyProcessed u (run calls (markAsPublished now s t)) = true).
  { intros calls Hall. apply Hrun; [exact Hall|].
    eexists. split; [apply lookup_insert_eq|reflexivity]. }
  assert (Hproc : forall calls,
             Forall (fun c => callKey c ≠ generateSignalKey s \/
                              JS.toLowerCase (link (callSignal c))
                                = JS.toLowerCase (link s)) calls ->
             checkURLAlreadyProcessed u (run calls (markAsProcessed now s t)) = true).
  { intros calls Hall. apply Hrun; [exact Hall|].
    eexists. split; [apply lookup_insert_eq|reflexivity]. }
  split; [apply (Hpub []); constructor|].
  split; [apply (Hproc []); constructor|].
  split.
  - intros calls Hall. split; [now apply Hpub|now apply Hproc].
  - apply checkURLAlreadyProcessed_links.
Qed.

(** The link of [fooA] was published by source "A" under the title
    "Foo Launch"; a look-up of the same link with a query string is
    caught. *)
Lemma url_guard_witness :
  checkURLAlreadyProcessed "http://x.com/1?utm_source=foo"
    (markAsPublished 0 Samples.fooA (emptyTracker 0)) = true.
Proof.
  exact (proj1 (url_guard "http://x.com/1?utm_source=foo" Samples.fooA 0
                  (emptyTracker 0) ltac:(discriminate) ltac:(discriminate)
                  ltac:(vm_compute; reflexivity))).
Defined.

(** C6, as stated, fails for the empty URL: its cleaned form (the empty
    string) is contained in the cleaned link of the published [fooA], and
    the guard still answers no. *)
Lemma empty_url_not_processed :
  JS.includes (cleanUrl (link Samples.fooA)) (cleanUrl "") = true /\
  checkURLAlreadyProcessed ""
    (markAsPublished 0 Samples.fooA (emptyTracker 0)) = false.
Proof.
  split; vm_compute; reflexivity.
Qed.

Lemma similarityScan_reason {E : Type} (hash : string) (threshold : Q)
    (exact similar : string) (index : gmap string E) :
  sc_reason (similarityScan hash threshold exact similar index) =
    if sc_isDuplicate (similarityScan hash threshold exact similar index)
    then Some (if bool_decide (is_Some (index !! hash)) then exact else similar)
    else None.
Proof.
  unfold similarityScan. destruct (index !! hash) as [e|] eqn:Hh.
  - reflexivity.
  - destruct (find _ _) as [[k e]|]; reflexivity.
Qed.

(** C7.  With every check enabled, [checkDeduplication] answers in the
    order URL-processed, already-published, content, title, source: when
    the URL guard fires the result is that reason alone, otherwise when
    the signal is already published the result is that reason alone (in
    both cases whatever the three later checks would say), and otherwise
    the reasons are those of the content, title and source checks that
    fire, every one of them, in this order, each firing check also being
    recorded in [details]. *)
Theorem checkDeduplication_order (now : Z) (signal : Signal)
    (options : Options.t) (t : Tracker) :
  let r := checkDeduplication now signal (publishingChecks options) t in
  let contentCheck :=
    checkContentSimilarity (content signal)
      (Options.contentSimilarityThreshold options) t in
  let titleCheck :=
    checkTitleSimilarity (title signal)
      (Options.titleSimilarityThreshold options) t in
  let sourceCheck :=
    checkSourceFrequency now (source signal) (Options.maxSourcePerHour options) t in
  let contentFires := JS.truthy (content signal) && sc_isDuplicate contentCheck in
  let titleFires := JS.truthy (title signal) && sc_isDuplicate titleCheck in
  let sourceFires := JS.truthy (source signal) && fc_isDuplicate sourceCheck in
  (if JS.truthy (link signal) && checkURLAlreadyProcessed (link signal) t
   then isDuplicate r = true /\ reasons r = ["url_already_processed"] /\
        details r =
          {| urlProcessed := true; alreadyPublished := false;
             contentSimilarity := None; titleSimilarity := None;
             sourceFrequency := None |}
   else if checkAlreadyPublished signal t
   then isDuplicate r = true /\ reasons r = ["already_published"] /\
        details r =
          {| urlProcessed := false; alreadyPublished := true;
             contentSimilarity := None; titleSimilarity := None;
             sourceFrequency := None |}
   else isDuplicate r = contentFires || titleFires || sourceFires /\
        reasons r =
          (if contentFires then [default "" (sc_reason contentCheck)] else [])
          ++ (if titleFires then [default "" (sc_reason titleCheck)] else [])
          ++ (if sourceFires then [default "" (fc_reason sourceCheck)] else []) /\
        details r =
          {| urlProcessed := false; alreadyPublished := false;
             contentSimilarity := if contentFires then Some contentCheck else None;
             titleSimilarity := if titleFires then Some titleCheck else None;
             sourceFrequency := if sourceFires then Some sourceCheck else None |}) /\
  sc_reason contentCheck =
    (if sc_isDuplicate contentCheck
     then Some (if bool_decide (is_Some (content_hashes t
                      !! Hasher.generateContentHash (content signal)))
                then "exact_content_match" else "similar_content")
     else None) /\
  sc_reason titleCheck =
    (if sc_isDuplicate titleCheck
     then Some (if bool_decide (is_Some (title_hashes t
                      !! Hasher.generateTitleHash (title signal)))
                then "exact_title_match" else "similar_title")
     else None) /\
  fc_reason sourceCheck =
    (if fc_isDuplicate sourceCheck then Some "source_frequency_limit" else None).
Proof.
  cbv zeta. split; [|split; [apply similarityScan_reason|
                             split; [apply similarityScan_reason|]]].
  - unfold checkDeduplication.
    cbn [publishingChecks Options.checkURLProcessed Options.checkAlreadyPublished andb].
    destruct (JS.truthy (link signal) && checkURLAlreadyProcessed (link signal) t);
      [repeat split|].
    destruct (checkAlreadyPublished signal t); [repeat split|].
    unfold sourceStep, titleStep, contentStep.
    cbn [publishingChecks Options.checkContent Options.checkTitle
         Options.checkSource Options.contentSimilarityThreshold
         Options.titleSimilarityThreshold Options.maxSourcePerHour andb].
    destruct (JS.truthy (content signal)), (JS.truthy (title signal)),
      (JS.truthy (source signal)); cbn [andb];
      repeat match goal with
             | |- context [sc_isDuplicate ?c] => destruct (sc_isDuplicate c)
             | |- context [fc_isDuplicate ?c] => destruct (fc_isDuplicate c)
             end;
      repeat split.
  - unfold checkSourceFrequency. cbv zeta.
    destruct (_ <=? _); reflexivity.
Qed.

(** The loop of [filterSignalsForPublishing], from any state of its two
    arrays: it evaluates a prefix of the input, appends the signals of the
    prefix that are no duplicates to the first array and those that are
    to the second, keeps the first array within the cap unless the array
    was at the cap already, and stops short only at the cap. *)
Lemma publishingLoop_spec (now : Z) (signals : list Signal) (options : Options.t)
    (t : Tracker) (filtered : list Signal) (dups : list DuplicateSignal) :
  let verdict := fun s => checkDeduplication now s (publishingChecks options) t in
  let record := fun s => {| d_signal := s; d_reasons := reasons (verdict s);
                            d_details := details (verdict s) |} in
  exists n : nat,
    publishingLoop now signals options t filtered dups =
      (filtered ++ filter (fun s => isDuplicate (verdict s) = false) (take n signals),
       dups ++ (record <$> filter (fun s => isDuplicate (verdict s) = true)
                             (take n signals))) /\
    Z.of_nat (length (publishingLoop now signals options t filtered dups).1)
      <= Z.max (Z.of_nat (length filtered) + 1) (Options.maxSignalsPerRun options) /\
    ((n < length signals)%nat ->
     Options.maxSignalsPerRun options
       <= Z.of_nat (length (publishingLoop now signals options t filtered dups).1)).
Proof.
  cbv zeta. revert filtered dups.
  induction signals as [|s rest IH]; intros filtered dups.
  - exists 0%nat. cbn. rewrite !app_nil_r. repeat split; lia.
  - cbn [publishingLoop].
    destruct (isDuplicate (checkDeduplication now s (publishingChecks options) t))
      eqn:Hd.
    + destruct (Options.maxSignalsPerRun options <=? Z.of_nat (length filtered))
        eqn:Hcap.
      * exists 1%nat. cbn [take]. rewrite take_0.
        rewrite !filter_cons, !filter_nil.
        rewrite decide_False by congruence. rewrite decide_True by exact Hd.
        cbn [fmap list_fmap fst]. rewrite app_nil_r.
        split; [reflexivity|]. apply Z.leb_le in Hcap. split; intros; lia.
      * destruct (IH filtered
                    (dups ++ [{| d_signal := s;
                                 d_reasons := reasons (checkDeduplication now s
                                                (publishingChecks options) t);
                                 d_details := details (checkDeduplication now s
                                                (publishingChecks options) t) |}]))
          as (n & Heq & Hlen & Hstop).
        exists (S n). cbn [take]. rewrite !filter_cons.
        rewrite decide_False by congruence. rewrite decide_True by exact Hd.
        rewrite Heq at 1. cbn [fmap list_fmap]. rewrite <- app_assoc.
        split; [reflexivity|]. split; [exact Hlen|].
        intros Hn. apply Hstop. cbn [length] in Hn. lia.
    + destruct (Options.maxSignalsPerRun options
                  <=? Z.of_nat (length (filtered ++ [s]))) eqn:Hcap.
      * exists 1%nat. cbn [take]. rewrite take_0.
        rewrite !filter_cons, !filter_nil.
        rewrite decide_True by exact Hd. rewrite decide_False by congruence.
        cbn [fmap list_fmap fst]. rewrite app_nil_r.
        split; [reflexivity|]. apply Z.leb_le in Hcap.
        rewrite length_app in *. cbn [length] in *. split; intros; lia.
      * destruct (IH (filtered ++ [s]) dups) as (n & Heq & Hlen & Hstop).
        exists (S n). cbn [take]. rewrite !filter_cons.
        rewrite decide_True by exact Hd. rewrite decide_False by congruence.
        rewrite Heq at 1. rewrite <- app_assoc.
        split; [reflexivity|]. apply Z.leb_gt in Hcap.
        rewrite length_app in *. cbn [length] in *.
        split; [lia|]. intros Hn. apply Hstop. lia.
Qed.

(** C10.  With a cap of at least one, [filterSignalsForPublishing]
    returns [skipped] empty and at most [maxSignalsPerRun] signals in
    [approved]; it evaluates a prefix of the input and returns the signals
    of that prefix that are no duplicates as [approved] and those that
    are, with their reasons, as [duplicates], both in input order; the
    loop stops before the end of the input only when [approved] has
    reached the cap. *)
Theorem filterSignalsForPublishing_partition (now : Z) (signals : list Signal)
    (options : Options.t) (t : Tracker) :
  1 <= Options.maxSignalsPerRun options ->
  let r := filterSignalsForPublishing now signals options t in
  let verdict := fun s => checkDeduplication now s (publishingChecks options) t in
  let record := fun s => {| d_signal := s; d_reasons := reasons (verdict s);
                            d_details := details (verdict s) |} in
  skipped r = [] /\
  Z.of_nat (length (approved r)) <= Options.maxSignalsPerRun options /\
  exists n : nat,
    approved r = filter (fun s => isDuplicate (verdict s) = false) (take n signals) /\
    duplicates r =
      record <$> filter (fun s => isDuplicate (verdict s) = true) (take n signals) /\
    ((n < length signals)%nat ->
     Options.maxSignalsPerRun options <= Z.of_nat (length (approved r))).
Proof.
  intros Hcap. cbv zeta. unfold filterSignalsForPublishing.
  destruct (publishingLoop_spec now signals options t [] [])
    as (n & Heq & Hlen & Hstop).
  destruct (publishingLoop now signals options t [] []) as [f d] eqn:Hloop.
  cbn [skipped approved duplicates fst length] in *.
  injection Heq as -> ->.
  split; [reflexivity|]. split; [lia|].
  exists n. repeat split. exact Hstop.
Qed.

Lemma filterSignalsForPublishing_partition_witness :
  (length (approved (filterSignalsForPublishing 0
                       [Samples.fooA; Samples.fooB; Samples.barB] Samples.capOne
                       (emptyTracker 0))) <= 1)%nat.
Proof.
  destruct (filterSignalsForPublishing_partition 0
              [Samples.fooA; Samples.fooB; Samples.barB] Samples.capOne
              (emptyTracker 0) ltac:(vm_compute; discriminate))
    as (_ & Hlen & _).
  change (Options.maxSignalsPerRun Samples.capOne) with 1 in Hlen. lia.
Defined.

(** Below the precondition: with the cap at zero the first signal that is
    no duplicate is approved before the cap is looked at. *)
Remark cap_zero_approves_one :
  Options.maxSignalsPerRun Samples.capZero = 0 /\
  approved (filterSignalsForPublishing 0 [Samples.fooA] Samples.capZero
              (emptyTracker 0)) = [Samples.fooA].
Proof.
  split; vm_compute; reflexivity.
Qed.

End DedupFacts.

(** ** Further properties of the deduplication / publishing tracker *)

Module DedupMore.
Import AdvancedDeduplication.

(** A signal whose composite key is in [published] is a duplicate for
    every option set that has the published check on. *)
Lemma known_key_is_duplicate (now : Z) (s : Signal) (options : Options.t)
    (t : Tracker) :
  Options.checkAlreadyPublished options = true ->
  is_Some (published t !! generateSignalKey s) ->
  isDuplicate (checkDeduplication now s options t) = true /\
  (reasons (checkDeduplication now s options t) = ["url_already_processed"] \/
   reasons (checkDeduplication now s options t) = ["already_published"]).
Proof.
  intros Hflag Hkey. unfold checkDeduplication. rewrite Hflag.
  unfold checkAlreadyPublished. rewrite (bool_decide_eq_true_2 _ Hkey).
  cbn [andb].
  destruct (Options.checkURLProcessed options && JS.truthy (link s)
            && checkURLAlreadyProcessed (link s) t);
    cbn [isDuplicate reasons app]; auto.
Qed.

(** X1.  [markAsProcessed] already makes the signal a duplicate: after
    it, and after any later calls, [checkDeduplication] with the published
    check on reports the signal as a duplicate, with the single reason
    ['url_already_processed'] or ['already_published']. *)
Theorem processed_is_duplicate (s : Signal) (now now' : Z) (t : Tracker)
    (calls : list Call) (options : Options.t) :
  Options.checkAlreadyPublished options = true ->
  isDuplicate (checkDeduplication now' s options
                 (run calls (markAsProcessed now s t))) = true /\
  (reasons (checkDeduplication now' s options
              (run calls (markAsProcessed now s t))) = ["url_already_processed"] \/
   reasons (checkDeduplication now' s options
              (run calls (markAsProcessed now s t))) = ["already_published"]).
Proof.
  intros Hflag. apply known_key_is_duplicate; [exact Hflag|].
  apply DedupFacts.run_keeps_key.
  cbn [markAsProcessed published]. rewrite lookup_insert_eq. eauto.
Qed.

Lemma processed_is_duplicate_witness :
  isDuplicate (checkDeduplication 1 Samples.noLink Options.defaults
                 (run [] (markAsProcessed 0 Samples.noLink (emptyTracker 0)))) = true.
Proof.
  exact (proj1 (processed_is_duplicate Samples.noLink 0 1 (emptyTracker 0) []
                  Options.defaults eq_refl)).
Defined.

(** X2.  For every option set, [isDuplicate] is set exactly when
    [reasons] is not empty. *)
Theorem isDuplicate_iff_reasons (now : Z) (s : Signal) (options : Options.t)
    (t : Tracker) :
  isDuplicate (checkDeduplication now s options t) = true <->
  reasons (checkDeduplication now s options t) ≠ [].
Proof.
  assert (Hsnoc : forall (l : list string) x, l ++ [x] ≠ [])
    by (intros [|? ?] ? ?; discriminate).
  unfold checkDeduplication, sourceStep, titleStep, contentStep.
  repeat match goal with
         | |- context [if ?b then _ else _] =>
             destruct b; cbn [isDuplicate reasons]
         end;
    split; intros H; try reflexivity; try discriminate H;
    try (exfalso; apply H; reflexivity); try apply Hsnoc.
Qed.

(** The scan behind both similarity checks: a duplicate is an exact hit
    or a stored hash whose similarity reaches the threshold ([>=]). *)
Lemma similarityScan_iff {E : Type} (hash : string) (threshold : Q)
    (exact similar : string) (index : gmap string E) :
  sc_isDuplicate (similarityScan hash threshold exact similar index) = true <->
  is_Some (index !! hash) \/
  exists h e, index !! h = Some e /\
              (threshold <= Hasher.calculateSimilarity hash h)%Q.
Proof.
  unfold similarityScan. destruct (index !! hash) as [e0|] eqn:Hexact.
  - cbn. split; [eauto|reflexivity].
  - destruct (find _ _) as [[h e]|] eqn:Hfind.
    + apply find_some in Hfind as [Hin Hle]. cbn in Hle.
      apply Qle_bool_iff in Hle.
      apply list_elem_of_In, elem_of_map_to_list in Hin.
      cbn. split; [intros _; right; eauto|reflexivity].
    + cbn. split; [discriminate|].
      intros [[? Hs]|(h & e & Hl & Hle)]; [discriminate|].
      assert (Hin : In (h, e) (map_to_list index))
        by now apply list_elem_of_In, elem_of_map_to_list.
      pose proof (find_none _ _ Hfind (h, e) Hin) as Hf. cbn in Hf.
      apply Qle_bool_iff in Hle. congruence.
Qed.

(** X3.  [checkContentSimilarity] and [checkTitleSimilarity] report a
    duplicate exactly when the hash is a key of the index or some stored
    hash has a similarity of at least the threshold (a similarity equal
    to the threshold counts); the reason tells the two cases apart. *)
Theorem similarity_checks_iff (text : string) (threshold : Q) (t : Tracker) :
  (sc_isDuplicate (checkContentSimilarity text threshold t) = true <->
   is_Some (content_hashes t !! Hasher.generateContentHash text) \/
   exists h e, content_hashes t !! h = Some e /\
     (threshold <= Hasher.calculateSimilarity (Hasher.generateContentHash text) h)%Q) /\
  (sc_isDuplicate (checkTitleSimilarity text threshold t) = true <->
   is_Some (title_hashes t !! Hasher.generateTitleHash text) \/
   exists h e, title_hashes t !! h = Some e /\
     (threshold <= Hasher.calculateSimilarity (Hasher.generateTitleHash text) h)%Q) /\
  (sc_reason (checkContentSimilarity text threshold t) = Some "exact_content_match" <->
   is_Some (content_hashes t !! Hasher.generateContentHash text)) /\
  (sc_reason (checkTitleSimilarity text threshold t) = Some "exact_title_match" <->
   is_Some (title_hashes t !! Hasher.generateTitleHash text)).
Proof.
  split; [apply similarityScan_iff|]. split; [apply similarityScan_iff|].
  assert (Hreason : forall (E : Type) hash (index : gmap string E) exact similar,
             exact ≠ similar ->
             sc_reason (similarityScan hash threshold exact similar index)
               = Some exact <-> is_Some (index !! hash)).
  { intros E hash index exact similar Hne. unfold similarityScan.
    destruct (index !! hash) as [e0|]; cbn; [split; eauto|].
    destruct (find _ _) as [[h e]|]; cbn; split;
      try (intros [? ?]; discriminate); intros [=]; congruence. }
  split; apply Hreason; discriminate.
Qed.

(** X4.  The thresholds at the ends of the scale: with a threshold above
    one only an exact hit is a duplicate, and with a threshold of zero or
    below everything is a duplicate as soon as the index has one entry. *)
Theorem similarity_threshold_ends (text : string) (threshold : Q) (t : Tracker) :
  ((1 < threshold)%Q ->
   (sc_isDuplicate (checkContentSimilarity text threshold t) = true <->
    is_Some (content_hashes t !! Hasher.generateContentHash text))) /\
  ((threshold <= 0)%Q ->
   (sc_isDuplicate (checkContentSimilarity text threshold t) = true <->
    content_hashes t ≠ ∅)).
Proof.
  split; intros Hth; unfold checkContentSimilarity; rewrite similarityScan_iff.
  - split; [|now left]. intros [Hex|(h & e & _ & Hle)]; [exact Hex|].
    exfalso. pose proof (calculateSimilarity_range
                           (Hasher.generateContentHash text) h) as [_ Hr].
    apply (Qlt_irrefl 1). eapply Qlt_le_trans; [exact Hth|].
    eapply Qle_trans; [exact Hle|exact Hr].
  - split.
    + intros [[e He]|(h & e & He & _)] Hempty; rewrite Hempty in He;
        now rewrite lookup_empty in He.
    + intros Hne. right.
      destruct (map_choose _ Hne) as (h & e & He). exists h, e.
      split; [exact He|]. eapply Qle_trans; [exact Hth|].
      apply calculateSimilarity_range.
Qed.

Lemma similarity_threshold_ends_witness :
  sc_isDuplicate (checkContentSimilarity "words" 2
                    (markAsPublished 0 (Samples.signal "A" "" "T" "other words")
                       (emptyTracker 0))) = true <->
  is_Some (content_hashes (markAsPublished 0 (Samples.signal "A" "" "T" "other words")
                             (emptyTracker 0))
             !! Hasher.generateContentHash "words").
Proof.
  exact (proj1 (similarity_threshold_ends "words" 2
                  (markAsPublished 0 (Samples.signal "A" "" "T" "other words")
                     (emptyTracker 0))) eq_refl).
Defined.

Lemma filter_filter_weaker (P Q : Z -> Prop) `{!forall x, Decision (P x)}
    `{!forall x, Decision (Q x)} (l : list Z) :
  (forall x, P x -> Q x) -> filter P (filter Q l) = filter P l.
Proof.
  intros HPQ. induction l as [|x l IH]; [reflexivity|].
  rewrite (filter_cons Q), (filter_cons P).
  destruct (decide (Q x)) as [HQ|HQ].
  - rewrite filter_cons, IH. reflexivity.
  - rewrite IH. rewrite decide_False; [reflexivity|]. intros HP. auto.
Qed.

Lemma markAsPublished_history (s : Signal) (now : Z) (t : Tracker) :
  source s ≠ "" ->
  source_hashes (markAsPublished now s t) !! JS.trim (JS.toLowerCase (source s)) =
    Some (filter (fun timestamp => now - oneDay < timestamp)
            (default [] (source_hashes t !! JS.trim (JS.toLowerCase (source s))))
          ++ [now]).
Proof.
  intros Hs. cbn [markAsPublished source_hashes].
  rewrite (proj2 (truthy_true _) Hs). cbv zeta. rewrite lookup_insert_eq.
  rewrite filter_app, (filter_cons _ now), decide_True by (unfold oneDay; lia).
  reflexivity.
Qed.

(** X5.  Publishing counts against the source at once and for one hour:
    checked at the time of [markAsPublished], the source's count is one
    higher than before, so the source is throttled exactly when the limit
    is at most that count; checked an hour or more later, the publication
    no longer counts. *)
Theorem markAsPublished_throttles_source (s : Signal) (now : Z) (t : Tracker)
    (maxPerHour : Z) :
  source s ≠ "" ->
  fc_count (checkSourceFrequency now (source s) maxPerHour (markAsPublished now s t)) =
    fc_count (checkSourceFrequency now (source s) maxPerHour t) + 1 /\
  fc_isDuplicate (checkSourceFrequency now (source s) maxPerHour
                    (markAsPublished now s t)) =
    (maxPerHour <=? fc_count (checkSourceFrequency now (source s) maxPerHour t) + 1) /\
  (forall now' : Z, now + 60 * 60 * 1000 <= now' ->
     fc_count (checkSourceFrequency now' (source s) maxPerHour
                 (markAsPublished now s t)) =
     fc_count (checkSourceFrequency now' (source s) maxPerHour t)).
Proof.
  intros Hs.
  assert (Hcount : forall now' k t0,
             fc_count (checkSourceFrequency now' (source s) k t0) =
             Z.of_nat (length (filter (fun timestamp => now' - 60 * 60 * 1000 < timestamp)
                                 (default [] (source_hashes t0
                                    !! JS.trim (JS.toLowerCase (source s))))))).
  { intros now' k t0. unfold checkSourceFrequency. cbv zeta.
    destruct (_ <=? _); reflexivity. }
  assert (Hnow : fc_count (checkSourceFrequency now (source s) maxPerHour
                             (markAsPublished now s t)) =
                 fc_count (checkSourceFrequency now (source s) maxPerHour t) + 1).
  { rewrite !Hcount, (markAsPublished_history s now t Hs). cbn [from_option id].
    rewrite filter_app, (filter_cons _ now), decide_True by lia.
    rewrite filter_filter_weaker by (unfold oneDay; intros; lia).
    rewrite length_app. cbn [filter length]. rewrite filter_nil. cbn [length]. lia. }
  split; [exact Hnow|]. split.
  - rewrite <- Hnow. unfold checkSourceFrequency. cbv zeta.
    destruct (maxPerHour <=? _) eqn:Hle; cbn [fc_isDuplicate fc_count];
      now rewrite Hle.
  - intros now' Hlate.
    rewrite !Hcount, (markAsPublished_history s now t Hs). cbn [from_option id].
    rewrite filter_app, (filter_cons _ now), decide_False by lia.
    rewrite filter_nil, app_nil_r.
    rewrite filter_filter_weaker by (unfold oneDay; intros; lia).
    reflexivity.
Qed.

Lemma markAsPublished_throttles_source_witness :
  fc_isDuplicate (checkSourceFrequency 0 "A" 1
                    (markAsPublished 0 Samples.fooA (emptyTracker 0))) = true.
Proof.
  pose proof (proj1 (proj2 (markAsPublished_throttles_source Samples.fooA 0
                              (emptyTracker 0) 1 ltac:(discriminate)))) as H.
  change (source Samples.fooA) with "A" in H. rewrite H.
  vm_compute. reflexivity.
Defined.

Lemma call_keeps_keys (c : Call) (t : Tracker) :
  dom (published t) ⊆ dom (published (call t c)) /\
  dom (content_hashes t) ⊆ dom (content_hashes (call t c)) /\
  dom (title_hashes t) ⊆ dom (title_hashes (call t c)) /\
  dom (source_hashes t) ⊆ dom (source_hashes (call t c)).
Proof.
  destruct c as [now s|now s];
    cbn [call markAsPublished markAsProcessed published content_hashes
         title_hashes source_hashes];
    repeat match goal with
           | |- context [if ?b then _ else _] => destruct b
           end;
    rewrite ?dom_insert_L; repeat split; set_solver.
Qed.

(** Over any history of calls the keys of the four maps stay. *)
Lemma run_keeps_keys (calls : list Call) (t : Tracker) :
  dom (published t) ⊆ dom (published (run calls t)) /\
  dom (content_hashes t) ⊆ dom (content_hashes (run calls t)) /\
  dom (title_hashes t) ⊆ dom (title_hashes (run calls t)) /\
  dom (source_hashes t) ⊆ dom (source_hashes (run calls t)).
Proof.
  revert t. induction calls as [|c calls IH]; intros t; [easy|].
  change (run (c :: calls) t) with (run calls (call t c)).
  destruct (IH (call t c)) as (H1 & H2 & H3 & H4).
  destruct (call_keeps_keys c t) as (K1 & K2 & K3 & K4).
  repeat split; etrans; eauto.
Qed.

(** X6.  Nothing is ever removed from the tracker: over any history of
    [markAsPublished] and [markAsProcessed] calls the keys of [published],
    [content_hashes], [title_hashes] and [source_hashes] stay, so the
    counts of [getStats] never go down. *)
Theorem tracker_only_grows (calls : list Call) (t : Tracker) :
  dom (published t) ⊆ dom (published (run calls t)) /\
  dom (content_hashes t) ⊆ dom (content_hashes (run calls t)) /\
  dom (title_hashes t) ⊆ dom (title_hashes (run calls t)) /\
  dom (source_hashes t) ⊆ dom (source_hashes (run calls t)) /\
  (s_published (getStats t) <= s_published (getStats (run calls t)))%nat /\
  (s_contentHashes (getStats t) <= s_contentHashes (getStats (run calls t)))%nat /\
  (s_titleHashes (getStats t) <= s_titleHashes (getStats (run calls t)))%nat /\
  (s_sourceCount (getStats t) <= s_sourceCount (getStats (run calls t)))%nat.
Proof.
  destruct (run_keeps_keys calls t) as (H1 & H2 & H3 & H4).
  repeat split; try assumption; cbn [getStats s_published s_contentHashes
    s_titleHashes s_sourceCount]; rewrite <- !size_dom;
    now apply subseteq_size.
Qed.

(** X7.  Marking the same signal twice at the same time writes the three
    maps as one marking does, but counts the source twice: the list of
    the source gets the time stamp a second time. *)
Theorem markAsPublished_twice (s : Signal) (now : Z) (t : Tracker) :
  published (markAsPublished now s (markAsPublished now s t)) =
    published (markAsPublished now s t) /\
  content_hashes (markAsPublished now s (markAsPublished now s t)) =
    content_hashes (markAsPublished now s t) /\
  title_hashes (markAsPublished now s (markAsPublished now s t)) =
    title_hashes (markAsPublished now s t) /\
  (source s ≠ "" ->
   exists history,
     source_hashes (markAsPublished now s t)
       !! JS.trim (JS.toLowerCase (source s)) = Some history /\
     source_hashes (markAsPublished now s (markAsPublished now s t))
       !! JS.trim (JS.toLowerCase (source s)) = Some (history ++ [now])).
Proof.
  split; [cbn [markAsPublished published]; apply insert_insert_eq|].
  split; [cbn [markAsPublished content_hashes];
          destruct (JS.truthy (content s)); [apply insert_insert_eq|reflexivity]|].
  split; [cbn [markAsPublished title_hashes];
          destruct (JS.truthy (title s)); [apply insert_insert_eq|reflexivity]|].
  intros Hs. eexists. split; [apply (markAsPublished_history s now t Hs)|].
  rewrite (markAsPublished_history s now (markAsPublished now s t) Hs).
  rewrite (markAsPublished_history s now t Hs). cbn [from_option id]. do 2 f_equal.
  rewrite filter_app, (filter_cons _ now), decide_True by (unfold oneDay; lia).
  rewrite filter_nil. f_equal.
  rewrite list_filter_filter. apply list_filter_iff. intros x. tauto.
Qed.

Lemma similarityScan_empty {E : Type} (hash : string) (threshold : Q)
    (exact similar : string) :
  sc_isDuplicate (similarityScan hash threshold exact similar (∅ : gmap string E))
    = false.
Proof.
  destruct (sc_isDuplicate _) eqn:Hd; [|reflexivity].
  apply similarityScan_iff in Hd as [[e He]|(h & e & He & _)];
    now rewrite lookup_empty in He.
Qed.

(** An empty tracker knows no duplicate, unless the source limit is zero
    or below. *)
Lemma empty_not_duplicate (now now0 : Z) (s : Signal) (options : Options.t) :
  1 <= Options.maxSourcePerHour options ->
  isDuplicate (checkDeduplication now s options (emptyTracker now0)) = false.
Proof.
  intros Hlimit.
  assert (Hurl : checkURLAlreadyProcessed (link s) (emptyTracker now0) = false).
  { destruct (checkURLAlreadyProcessed _ _) eqn:Hc; [|reflexivity].
    apply DedupFacts.checkURLAlreadyProcessed_spec in Hc
      as (_ & k & v & [Hl|Hl] & _); cbn in Hl; now rewrite lookup_empty in Hl. }
  assert (Hpub : checkAlreadyPublished s (emptyTracker now0) = false).
  { apply bool_decide_eq_false. cbn. rewrite lookup_empty. intros [? ?]. discriminate. }
  assert (Hsrc : fc_isDuplicate (checkSourceFrequency now (source s)
                   (Options.maxSourcePerHour options) (emptyTracker now0)) = false).
  { unfold checkSourceFrequency. cbn [emptyTracker source_hashes].
    rewrite lookup_empty. cbn [from_option id]. rewrite filter_nil. cbn [length].
    destruct (_ <=? _) eqn:Hle; [apply Z.leb_le in Hle; lia|reflexivity]. }
  unfold checkDeduplication, sourceStep, titleStep, contentStep.
  rewrite Hurl, Hpub, Hsrc. rewrite !andb_false_r. cbn [andb].
  unfold checkContentSimilarity, checkTitleSimilarity.
  cbn [emptyTracker content_hashes title_hashes].
  rewrite !similarityScan_empty.
  repeat match goal with
         | |- context [if ?b then _ else _] => destruct b
         end; reflexivity.
Qed.

Lemma publishingLoop_no_duplicates (now : Z) (signals : list Signal)
    (options : Options.t) (t : Tracker) (filtered : list Signal)
    (dups : list DuplicateSignal) :
  (forall s, isDuplicate (checkDeduplication now s (publishingChecks options) t)
             = false) ->
  publishingLoop now signals options t filtered dups =
    (filtered ++ take (Z.to_nat (Z.max 1 (Options.maxSignalsPerRun options
                                          - Z.of_nat (length filtered))))
                   signals, dups).
Proof.
  intros Hnone. revert filtered.
  induction signals as [|s rest IH]; intros filtered.
  - cbn. now rewrite take_nil, app_nil_r.
  - cbn [publishingLoop]. rewrite Hnone.
    destruct (Options.maxSignalsPerRun options <=? Z.of_nat (length (filtered ++ [s])))
      eqn:Hcap.
    + apply Z.leb_le in Hcap. rewrite length_app in Hcap. cbn [length] in Hcap.
      replace (Z.max 1 _) with 1 by lia. reflexivity.
    + apply Z.leb_gt in Hcap. rewrite IH.
      rewrite length_app in *. cbn [length] in *.
      replace (Z.to_nat (Z.max 1 (Options.maxSignalsPerRun options
                                  - Z.of_nat (length filtered))))
        with (S (Z.to_nat (Z.max 1 (Options.maxSignalsPerRun options
                                    - Z.of_nat (length filtered + 1))))) by lia.
      cbn [take]. now rewrite <- app_assoc.
Qed.

(** X8.  [filterSignalsForPublishing] does not compare the signals of a
    batch with each other: on an empty tracker (and a source limit of at
    least one) it approves the batch as it comes, twice the same signal
    included, up to the cap, and reports no duplicate. *)
Theorem empty_tracker_approves_all (now now0 : Z) (signals : list Signal)
    (options : Options.t) :
  1 <= Options.maxSourcePerHour options ->
  filterSignalsForPublishing now signals options (emptyTracker now0) =
    {| approved := take (Z.to_nat (Z.max 1 (Options.maxSignalsPerRun options)))
                        signals;
       duplicates := [];
       skipped := [] |}.
Proof.
  intros Hlimit. unfold filterSignalsForPublishing.
  rewrite publishingLoop_no_duplicates
    by (intros s; now apply empty_not_duplicate).
  cbn [length app]. now rewrite Z.sub_0_r.
Qed.

Lemma empty_tracker_approves_all_witness :
  approved (filterSignalsForPublishing 0 [Samples.fooA; Samples.fooA]
              Options.defaults (emptyTracker 0)) = [Samples.fooA; Samples.fooA].
Proof.
  rewrite (empty_tracker_approves_all 0 0 [Samples.fooA; Samples.fooA]
             Options.defaults ltac:(cbn; lia)).
  reflexivity.
Defined.

Lemma orElse_empty (x : string) : JS.orElse x "" = x.
Proof. unfold JS.orElse. now destruct (String.eqb_spec x ""). Qed.

(** X9.  The composite key does not keep source and link apart: a colon
    can be read as part of either, so a signal from source [a] with link
    [b:c] and a signal from source [a:b] with link [c] and the same title
    share their key, and publishing one makes the other count as already
    published. *)
Theorem composite_key_separator (a b c ti co1 co2 : string) (now : Z) (t : Tracker) :
  generateSignalKey (Samples.signal a (b +:+ ":" +:+ c) ti co1) =
    generateSignalKey (Samples.signal (a +:+ ":" +:+ b) c ti co2) /\
  checkAlreadyPublished (Samples.signal (a +:+ ":" +:+ b) c ti co2)
    (markAsPublished now (Samples.signal a (b +:+ ":" +:+ c) ti co1) t) = true.
Proof.
  assert (Hkey : generateSignalKey (Samples.signal a (b +:+ ":" +:+ c) ti co1) =
                 generateSignalKey (Samples.signal (a +:+ ":" +:+ b) c ti co2)).
  { unfold generateSignalKey, Samples.signal. cbn [source link title].
    rewrite !orElse_empty, !toLowerCase_append.
    change (JS.toLowerCase ":") with ":". now rewrite !append_assoc. }
  split; [exact Hkey|].
  apply bool_decide_eq_true. rewrite <- Hkey.
  cbn [markAsPublished published]. rewrite lookup_insert_eq. eauto.
Qed.

(** X10.  Texts that differ only in case, punctuation or spacing have the
    same content hash: after [markAsPublished] of a signal with content,
    every such text is an exact content match, for every threshold and
    after any later calls. *)
Theorem normalized_content_matches (s : Signal) (text : string) (now : Z)
    (t : Tracker) (calls : list Call) (threshold : Q) :
  content s ≠ "" -> text ≠ "" ->
  Hasher.normalizeText text = Hasher.normalizeText (content s) ->
  sc_isDuplicate (checkContentSimilarity text threshold
                    (run calls (markAsPublished now s t))) = true /\
  sc_reason (checkContentSimilarity text threshold
               (run calls (markAsPublished now s t))) = Some "exact_content_match" /\
  sc_similarity (checkContentSimilarity text threshold
                   (run calls (markAsPublished now s t))) = 1%Q.
Proof.
  intros Hc Ht Hnorm.
  assert (Hhash : Hasher.generateContentHash text = Hasher.generateContentHash (content s)).
  { unfold Hasher.generateContentHash.
    rewrite (proj2 (truthy_true _) Hc), (proj2 (truthy_true _) Ht). now rewrite Hnorm. }
  assert (Hkey : is_Some (content_hashes (run calls (markAsPublished now s t))
                            !! Hasher.generateContentHash text)).
  { apply elem_of_dom.
    apply (proj1 (proj2 (run_keeps_keys calls (markAsPublished now s t)))).
    apply elem_of_dom. rewrite Hhash. cbn [markAsPublished content_hashes].
    rewrite (proj2 (truthy_true _) Hc), lookup_insert_eq. eauto. }
  destruct Hkey as [e He].
  unfold checkContentSimilarity, similarityScan. rewrite He. cbn. auto.
Qed.

Lemma normalized_content_matches_witness :
  sc_reason (checkContentSimilarity "FOO,  launch!" (8 # 10)
               (run [] (markAsPublished 0 (Samples.signal "A" "" "T" "Foo Launch")
                          (emptyTracker 0)))) = Some "exact_content_match".
Proof.
  exact (proj1 (proj2 (normalized_content_matches
                         (Samples.signal "A" "" "T" "Foo Launch") "FOO,  launch!"
                         0 (emptyTracker 0) [] (8 # 10)
                         ltac:(discriminate) ltac:(discriminate) eq_refl))).
Defined.

End DedupMore.

(** ** Further properties of the collection tracker *)

Module CollectionMore.
Import CollectionTracker.

Section Tracker.

Variable parseURL : string -> option URL.
Variable LocalTZA : Z -> bool -> Offset.

Local Abbreviation signalKeys := (signalKeys parseURL).
Local Abbreviation thirtyDaysAgo := (thirtyDaysAgo LocalTZA).
Local Abbreviation markAsCollected := (markAsCollected parseURL LocalTZA).
Local Abbreviation isAlreadyCollected := (isAlreadyCollected parseURL).
Local Abbreviation filterLoop := (filterLoop parseURL LocalTZA).
Local Abbreviation filterNewSignals := (filterNewSignals parseURL LocalTZA).

(** The two arrays of the loop are the arrays it started from followed by
    what the loop adds when started from empty arrays. *)
Lemma filterLoop_acc (now : Z) (signals : list Signal) (t : Tracker)
    (acc : FilterResult) :
  filterLoop now signals t acc =
    ({| newSignals := newSignals acc ++ newSignals (filterNewSignals now signals t).1;
        skippedSignals :=
          skippedSignals acc ++ skippedSignals (filterNewSignals now signals t).1 |},
     (filterNewSignals now signals t).2).
Proof.
  unfold CollectionTracker.filterNewSignals.
  revert t acc. induction signals as [|s rest IH]; intros t acc.
  - cbn. rewrite !app_nil_r. now destruct acc.
  - cbn [CollectionTracker.filterLoop newSignals skippedSignals app].
    destruct (isAlreadyCollected now s t).
    + rewrite (IH t {| newSignals := newSignals acc;
                       skippedSignals := skippedSignals acc ++ [s] |}).
      rewrite (IH t {| newSignals := []; skippedSignals := [s] |}).
      cbn [newSignals skippedSignals fst snd app]. now rewrite <- app_assoc.
    + rewrite (IH (markAsCollected now s t)
                 {| newSignals := newSignals acc ++ [s];
                    skippedSignals := skippedSignals acc |}).
      rewrite (IH (markAsCollected now s t)
                 {| newSignals := [s]; skippedSignals := [] |}).
      cbn [newSignals skippedSignals fst snd app]. now rewrite <- app_assoc.
Qed.

(** X11.  [filterNewSignals] sorts every signal of the batch into exactly
    one of the two arrays and keeps the order of the batch in each: the
    arrays are subsequences of the batch and together a rearrangement of
    it. *)
Theorem filterNewSignals_partition (now : Z) (signals : list Signal) (t : Tracker) :
  newSignals (filterNewSignals now signals t).1
    ++ skippedSignals (filterNewSignals now signals t).1 ≡ₚ signals /\
  sublist (newSignals (filterNewSignals now signals t).1) signals /\
  sublist (skippedSignals (filterNewSignals now signals t).1) signals /\
  (length (newSignals (filterNewSignals now signals t).1)
     + length (skippedSignals (filterNewSignals now signals t).1)
   = length signals)%nat.
Proof.
  assert (H : newSignals (filterNewSignals now signals t).1
                ++ skippedSignals (filterNewSignals now signals t).1 ≡ₚ signals /\
              sublist (newSignals (filterNewSignals now signals t).1) signals /\
              sublist (skippedSignals (filterNewSignals now signals t).1) signals).
  { revert t. induction signals as [|s rest IH]; intros t.
    - cbn. repeat split; constructor.
    - unfold CollectionTracker.filterNewSignals.
      cbn [CollectionTracker.filterLoop].
      destruct (isAlreadyCollected now s t); rewrite filterLoop_acc;
        cbn [fst newSignals skippedSignals app].
      + destruct (IH t) as (Hp & Hn & Hs).
        split; [|split].
        * rewrite <- Hp at 3. now rewrite Permutation_middle.
        * now apply sublist_cons.
        * now apply sublist_skip.
      + destruct (IH (markAsCollected now s t)) as (Hp & Hn & Hs).
        split; [|split].
        * now rewrite Hp.
        * now apply sublist_skip.
        * now apply sublist_cons. }
  destruct H as (Hp & Hn & Hs). repeat split; try assumption.
  rewrite <- length_app. now rewrite Hp.
Qed.

(** X12.  Splitting a batch over two calls changes nothing: filtering
    [l1] and then [l2] gives the arrays and the tracker that filtering
    [l1 ++ l2] in one call gives. *)
Theorem filterNewSignals_app (now : Z) (l1 l2 : list Signal) (t : Tracker) :
  let first := filterNewSignals now l1 t in
  let second := filterNewSignals now l2 first.2 in
  filterNewSignals now (l1 ++ l2) t =
    ({| newSignals := newSignals first.1 ++ newSignals second.1;
        skippedSignals := skippedSignals first.1 ++ skippedSignals second.1 |},
     second.2).
Proof.
  cbv zeta. unfold CollectionTracker.filterNewSignals at 1.
  rewrite CollectionFacts.filterLoop_app. rewrite filterLoop_acc. reflexivity.
Qed.

Lemma collected_has_key (now : Z) (s : Signal) (t : Tracker) :
  isAlreadyCollected now s t = true ->
  exists k, k ∈ signalKeys s /\
    (markedToday k t \/
     exists c, collected (global t) = Some c /\ is_Some (c !! k)).
Proof.
  unfold CollectionTracker.isAlreadyCollected. cbv zeta. intros Hc.
  assert (Hor : foundToday (signalKeys s) t = true \/
                foundGlobal now (signalKeys s) t = true).
  { destruct (foundToday _ t); [now left|].
    destruct (foundGlobal now _ t); [now right|discriminate]. }
  clear Hc. destruct Hor as [Hf|Hf].
  - unfold foundToday in Hf.
    destruct (collected (today t)) as [ct|] eqn:Ht; [|discriminate].
    apply existsb_exists in Hf as (k & Hin & Hk).
    apply bool_decide_eq_true in Hk. exists k.
    split; [now apply list_elem_of_In|]. left. exists ct. now split.
  - unfold foundGlobal in Hf.
    destruct (collected (global t)) as [cg|] eqn:Hg; [|discriminate].
    apply existsb_exists in Hf as (k & Hin & Hk).
    exists k. split; [now apply list_elem_of_In|]. right. exists cg.
    split; [reflexivity|]. destruct (cg !! k); [eauto|discriminate].
Qed.

Lemma markAsCollected_covered (now : Z) (s : Signal) (t : Tracker) :
  (forall k c, collected (global t) = Some c -> is_Some (c !! k) -> markedToday k t) ->
  forall k c, collected (global (markAsCollected now s t)) = Some c ->
              is_Some (c !! k) -> markedToday k (markAsCollected now s t).
Proof.
  intros Hcov k c Hc Hk.
  destruct (CollectionFacts.markAsCollected_global parseURL LocalTZA now s t k)
    as (c' & Hc' & Hl).
  rewrite Hc in Hc'. injection Hc' as <-. rewrite Hl in Hk.
  destruct (decide (k ∈ signalKeys s)) as [Hin|Hnin].
  - now apply CollectionFacts.markAsCollected_marks.
  - apply CollectionFacts.markAsCollected_keeps.
    destruct (collected (global t)) as [cg|] eqn:Hg; cbn [from_option id] in Hk.
    + apply (Hcov k cg eq_refl).
      destruct (cg !! k); [eauto|]. destruct Hk. discriminate.
    + rewrite lookup_empty in Hk. destruct Hk. discriminate.
Qed.

Lemma pass_marks_all (now : Z) (signals : list Signal) (t : Tracker)
    (acc : FilterResult) :
  (forall k c, collected (global t) = Some c -> is_Some (c !! k) -> markedToday k t) ->
  (forall k, markedToday k t -> markedToday k (filterLoop now signals t acc).2) /\
  (forall s, s ∈ signals ->
     exists k, k ∈ signalKeys s /\ markedToday k (filterLoop now signals t acc).2).
Proof.
  revert t acc. induction signals as [|s rest IH]; intros t acc Hcov.
  - split; [easy|]. intros s Hs. now apply elem_of_nil in Hs.
  - cbn [CollectionTracker.filterLoop].
    destruct (isAlreadyCollected now s t) eqn:Hc.
    + destruct (IH t {| newSignals := newSignals acc;
                        skippedSignals := skippedSignals acc ++ [s] |} Hcov)
        as [Hkeep Hall].
      split; [exact Hkeep|]. intros s' Hs'.
      apply elem_of_cons in Hs' as [->|Hs']; [|now apply Hall].
      destruct (collected_has_key now s t Hc) as (k & Hin & [Hm|(c & Hg & Hk)]);
        exists k; split; try assumption; apply Hkeep; [exact Hm|].
      now apply (Hcov k c).
    + destruct (IH (markAsCollected now s t)
                  {| newSignals := newSignals acc ++ [s];
                     skippedSignals := skippedSignals acc |}
                  (markAsCollected_covered now s t Hcov))
        as [Hkeep Hall].
      split.
      * intros k Hk. apply Hkeep. now apply CollectionFacts.markAsCollected_keeps.
      * intros s' Hs'.
        apply elem_of_cons in Hs' as [->|Hs']; [|now apply Hall].
        eexists. split; [apply CollectionFacts.firstKey_in|].
        apply Hkeep. apply CollectionFacts.markAsCollected_marks.
        apply CollectionFacts.firstKey_in.
Qed.

Lemma marked_batch_skipped (now : Z) (signals : list Signal) (t : Tracker)
    (acc : FilterResult) :
  (forall s, s ∈ signals -> exists k, k ∈ signalKeys s /\ markedToday k t) ->
  filterLoop now signals t acc =
    ({| newSignals := newSignals acc;
        skippedSignals := skippedSignals acc ++ signals |}, t).
Proof.
  revert acc. induction signals as [|s rest IH]; intros acc Hall.
  - cbn. rewrite app_nil_r. now destruct acc.
  - cbn [CollectionTracker.filterLoop].
    destruct (Hall s ltac:(left)) as (k & Hin & Hm).
    rewrite (CollectionFacts.markedToday_collected parseURL now s t k Hin Hm).
    rewrite IH by (intros s' Hs'; apply Hall; now right).
    cbn [newSignals skippedSignals]. now rewrite <- app_assoc.
Qed.

(** X13.  Re-ingesting a whole batch: when every key of the global scope
    is also on record for today (as in a tracker that starts without
    files), a second [filterNewSignals] over the same batch, at whatever
    later time, finds nothing new, skips the batch as it is and leaves
    the tracker unchanged. *)
Theorem filterNewSignals_batch_twice (now1 now2 : Z) (signals : list Signal)
    (t : Tracker) :
  (forall k c, collected (global t) = Some c -> is_Some (c !! k) -> markedToday k t) ->
  filterNewSignals now2 signals (filterNewSignals now1 signals t).2 =
    ({| newSignals := []; skippedSignals := signals |},
     (filterNewSignals now1 signals t).2).
Proof.
  intros Hcov. unfold CollectionTracker.filterNewSignals at 1.
  rewrite marked_batch_skipped; [reflexivity|].
  apply (proj2 (pass_marks_all now1 signals t
                  {| newSignals := []; skippedSignals := [] |} Hcov)).
Qed.

(** X14.  What [markAsCollected] leaves alone: in today's scope every
    key other than the four it writes keeps its entry (today's scope is
    never pruned), and in the global scope every other key keeps its
    entry unless that entry is from before the cut-off; the four keys
    hold the time stamp of the call in both scopes.  The cut-off is
    thirty calendar days of the local zone before the call: thirty times
    twenty-four hours, less what the zone's adjustment at the cut-off is
    ahead of the one at the call, and so within two days of that. *)
Theorem markAsCollected_frame (now : Z) (s : Signal) (t : Tracker) (k : string) :
  default ∅ (collected (today (markAsCollected now s t))) !! k =
    (if decide (k ∈ signalKeys s) then Some now
     else default ∅ (collected (today t)) !! k) /\
  default ∅ (collected (global (markAsCollected now s t))) !! k =
    (if decide (k ∈ signalKeys s) then Some now
     else match default ∅ (collected (global t)) !! k with
          | Some ts => if decide (ts < thirtyDaysAgo now) then None else Some ts
          | None => None
          end) /\
  thirtyDaysAgo now =
    now - 30 * msPerDay
    - (offset_ms (LocalTZA (now + offset_ms (LocalTZA now true) - 30 * msPerDay)
                    false)
       - offset_ms (LocalTZA now true)) /\
  now - 32 * msPerDay < thirtyDaysAgo now < now - 28 * msPerDay.
Proof.
  split; [|split; [|split]].
  - rewrite CollectionFacts.markAsCollected_today. cbn [from_option id].
    apply CollectionFacts.lookup_foldl_insert.
  - destruct (CollectionFacts.markAsCollected_global parseURL LocalTZA now s t k)
      as (c' & Hc' & Hl).
    rewrite Hc'. cbn [from_option id]. exact Hl.
  - unfold CollectionTracker.thirtyDaysAgo. cbv zeta. lia.
  - apply CollectionFacts.thirtyDaysAgo_range.
Qed.

(** X15.  Across runs: [saveTracker] followed by [loadTracker] on the
    same day gives back both scopes; on another day, for which no file
    exists yet, it gives back the global scope and an empty today.  A
    signal marked at [now0] and looked up by such a later-day instance at
    [now1] is already collected exactly when [now1 - now0] is at most
    seven days, although its entries stay in the file for thirty. *)
Theorem collected_for_seven_days (day day' : string) (now0 now1 : Z) (s : Signal)
    (t : Tracker) (files : Files) :
  day' ≠ day ->
  todayFile files !! day' = None ->
  (global (loadTracker day now1 (saveTracker day t files)) = global t /\
   today (loadTracker day now1 (saveTracker day t files)) = today t) /\
  (global (loadTracker day' now1 (saveTracker day t files)) = global t /\
   today (loadTracker day' now1 (saveTracker day t files)) = {| collected := None |}) /\
  isAlreadyCollected now1 s
    (loadTracker day' now1 (saveTracker day (markAsCollected now0 s t) files)) =
    (now1 - now0 <=? 7 * msPerDay).
Proof.
  intros Hday Hnone.
  split; [split; [reflexivity|]|split; [split; [reflexivity|]|]].
  - cbn [loadTracker saveTracker today todayFile]. now rewrite lookup_insert_eq.
  - cbn [loadTracker saveTracker today todayFile].
    rewrite lookup_insert_ne by congruence. now rewrite Hnone.
  - unfold CollectionTracker.isAlreadyCollected, foundToday, foundGlobal. cbv zeta.
    cbn [loadTracker saveTracker today global todayFile trackerFile].
    rewrite lookup_insert_ne by congruence. rewrite Hnone.
    cbn [from_option id collected].
    assert (Hkeys : forall k, k ∈ signalKeys s ->
              default ∅ (collected (global (markAsCollected now0 s t))) !! k
                = Some now0).
    { intros k Hk.
      destruct (CollectionFacts.markAsCollected_global parseURL LocalTZA now0 s t k)
        as (c' & Hc' & Hl).
      rewrite Hc'. cbn [from_option id]. rewrite Hl. now rewrite decide_True. }
    destruct (collected (global (markAsCollected now0 s t))) as [c|] eqn:Hc.
    + cbn [from_option id] in Hkeys.
      destruct (now1 - now0 <=? 7 * msPerDay) eqn:Hage.
      * replace (existsb _ (signalKeys s)) with true; [reflexivity|].
        symmetry. apply existsb_exists. eexists. split.
        -- apply list_elem_of_In, CollectionFacts.firstKey_in.
        -- rewrite (Hkeys _ (CollectionFacts.firstKey_in parseURL s)). exact Hage.
      * replace (existsb _ (signalKeys s)) with false; [reflexivity|].
        symmetry. apply not_true_is_false. intros He.
        apply existsb_exists in He as (k & Hin & Hk).
        rewrite (Hkeys k) in Hk by now apply list_elem_of_In. congruence.
    + exfalso. destruct (CollectionFacts.markAsCollected_global parseURL LocalTZA now0 s t "")
        as (c' & Hc' & _). congruence.
Qed.

End Tracker.

Lemma filterNewSignals_batch_twice_witness :
  (filterNewSignals Samples.parseURL Samples.utc 9
     [Samples.fooTracked; Samples.fooA; Samples.barB]
     (filterNewSignals Samples.parseURL Samples.utc 0
        [Samples.fooTracked; Samples.fooA; Samples.barB] (freshTracker 0)).2).1 =
    {| newSignals := [];
       skippedSignals := [Samples.fooTracked; Samples.fooA; Samples.barB] |}.
Proof.
  rewrite (filterNewSignals_batch_twice Samples.parseURL Samples.utc 0 9
             [Samples.fooTracked; Samples.fooA; Samples.barB] (freshTracker 0)).
  - reflexivity.
  - intros k c Hc. discriminate Hc.
Defined.

Lemma collected_for_seven_days_witness :
  isAlreadyCollected Samples.parseURL (8 * msPerDay) Samples.fooA
    (loadTracker "1970-01-09" (8 * msPerDay)
       (saveTracker "1970-01-01"
          (markAsCollected Samples.parseURL Samples.utc 0 Samples.fooA (freshTracker 0))
          {| trackerFile := None; todayFile := ∅ |})) = false.
Proof.
  rewrite (proj2 (proj2 (collected_for_seven_days Samples.parseURL Samples.utc
                           "1970-01-01" "1970-01-09" 0 (8 * msPerDay) Samples.fooA
                           (freshTracker 0) {| trackerFile := None; todayFile := ∅ |}
                           ltac:(discriminate) (lookup_empty _)))).
  reflexivity.
Defined.

End CollectionMore.

(** ** Re-ingestion *)

Module ReingestionFacts.
Import CollectionTracker.

Section Tracker.

Variable parseURL : string -> option URL.
Variable LocalTZA : Z -> bool -> Offset.

Local Abbreviation signalKeys := (signalKeys parseURL).
Local Abbreviation markAsCollected := (markAsCollected parseURL LocalTZA).
Local Abbreviation isAlreadyCollected := (isAlreadyCollected parseURL).
Local Abbreviation filterLoop := (filterLoop parseURL LocalTZA).
Local Abbreviation filterNewSignals := (filterNewSignals parseURL LocalTZA).





End Tracker.


End ReingestionFacts.

(** ** Normalized text *)

Section NormalizeFacts.

Lemma lowerChar_not_upper (c : ascii) : JS.isUpper (JS.lowerChar c) = false.
Proof. destruct c as [[] [] [] [] [] [] [] []]; reflexivity. Qed.

Lemma lowerChar_fixed (c : ascii) : JS.isUpper c = false -> JS.lowerChar c = c.
Proof. unfold JS.lowerChar. now intros ->. Qed.

Lemma toLowerCase_shape (s : string) :
  Shape.allChars (fun c => negb (JS.isUpper c)) (JS.toLowerCase s) = true.
Proof.
  induction s as [|c s IH]; [reflexivity|].
  cbn [JS.toLowerCase Shape.allChars]. now rewrite lowerChar_not_upper, IH.
Qed.

Lemma toLowerCase_fixed (s : string) :
  Shape.allChars (fun c => negb (JS.isUpper c)) s = true -> JS.toLowerCase s = s.
Proof.
  induction s as [|c s IH]; [reflexivity|].
  cbn [Shape.allChars JS.toLowerCase]. intros [Hc Hs]%andb_true_iff.
  rewrite IH by exact Hs. rewrite lowerChar_fixed; [reflexivity|].
  now apply negb_true_iff.
Qed.

Lemma keepChars_shape (p q : ascii -> bool) (s : string) :
  Shape.allChars p s = true -> Shape.allChars p (JS.keepChars q s) = true.
Proof.
  induction s as [|c s IH]; [reflexivity|].
  cbn [Shape.allChars JS.keepChars]. intros [Hc Hs]%andb_true_iff.
  destruct (q c); [cbn [Shape.allChars]; rewrite Hc|]; now apply IH.
Qed.

Lemma keepChars_kept (q : ascii -> bool) (s : string) :
  Shape.allChars q (JS.keepChars q s) = true.
Proof.
  induction s as [|c s IH]; [reflexivity|].
  cbn [JS.keepChars]. destruct (q c) eqn:Hq; [|exact IH].
  cbn [Shape.allChars]. now rewrite Hq.
Qed.

Lemma keepChars_fixed (q : ascii -> bool) (s : string) :
  Shape.allChars q s = true -> JS.keepChars q s = s.
Proof.
  induction s as [|c s IH]; [reflexivity|].
  cbn [Shape.allChars JS.keepChars]. intros [Hc Hs]%andb_true_iff.
  now rewrite Hc, IH.
Qed.

Lemma collapseSpaces_shape (p : ascii -> bool) (inRun : bool) (s : string) :
  p " "%char = true ->
  Shape.allChars p s = true -> Shape.allChars p (JS.collapseSpaces inRun s) = true.
Proof.
  intros Hblank. revert inRun. induction s as [|c s IH]; intros inRun; [reflexivity|].
  cbn [Shape.allChars JS.collapseSpaces]. intros [Hc Hs]%andb_true_iff.
  destruct (JS.isSpace c); [destruct inRun|]; cbn [Shape.allChars];
    rewrite ?Hblank, ?Hc; now apply IH.
Qed.

Lemma collapseSpaces_single (inRun : bool) (s : string) :
  Shape.singleSpaced inRun (JS.collapseSpaces inRun s) = true.
Proof.
  revert inRun. induction s as [|c s IH]; intros inRun; [reflexivity|].
  cbn [JS.collapseSpaces]. destruct (JS.isSpace c) eqn:Hc.
  - destruct inRun; [apply IH|]. cbn. apply IH.
  - cbn [Shape.singleSpaced]. rewrite Hc. apply IH.
Qed.

Lemma collapseSpaces_fixed (inRun : bool) (s : string) :
  Shape.singleSpaced inRun s = true -> JS.collapseSpaces inRun s = s.
Proof.
  revert inRun. induction s as [|c s IH]; intros inRun; [reflexivity|].
  cbn [Shape.singleSpaced JS.collapseSpaces]. destruct (JS.isSpace c).
  - intros [[Hc Hrun]%andb_true_iff Hs]%andb_true_iff.
    apply Ascii.eqb_eq in Hc. apply negb_true_iff in Hrun. subst.
    now rewrite IH.
  - intros Hs. now rewrite IH.
Qed.

Lemma singleSpaced_weaken (b : bool) (s : string) :
  Shape.singleSpaced b s = true -> Shape.singleSpaced false s = true.
Proof.
  destruct s as [|c s]; [reflexivity|]. cbn [Shape.singleSpaced].
  destruct (JS.isSpace c); [|easy].
  intros [[Hc _]%andb_true_iff Hs]%andb_true_iff. now rewrite Hc, Hs.
Qed.

Lemma trimStart_single (b : bool) (s : string) :
  Shape.singleSpaced b s = true -> Shape.singleSpaced false (JS.trimStart s) = true.
Proof.
  revert b. induction s as [|c s IH]; intros b; [reflexivity|].
  cbn [JS.trimStart]. destruct (JS.isSpace c) eqn:Hc.
  - cbn [Shape.singleSpaced]. rewrite Hc.
    intros [_ Hs]%andb_true_iff. now apply (IH true).
  - apply singleSpaced_weaken.
Qed.

Lemma trimEnd_single (b : bool) (s : string) :
  Shape.singleSpaced b s = true -> Shape.singleSpaced b (JS.trimEnd s) = true.
Proof.
  revert b. induction s as [|c s IH]; intros b; [reflexivity|].
  cbn [Shape.singleSpaced JS.trimEnd]. destruct (JS.isSpace c) eqn:Hc.
  - intros [Hhead Hs]%andb_true_iff. specialize (IH true Hs).
    destruct (JS.trimEnd s) as [|d r]; [reflexivity|].
    cbn [Shape.singleSpaced]. rewrite Hc, Hhead. exact IH.
  - intros Hs. specialize (IH false Hs).
    destruct (JS.trimEnd s) as [|d r]; cbn [Shape.singleSpaced]; now rewrite Hc.
Qed.

Lemma trimStart_shape (p : ascii -> bool) (s : string) :
  Shape.allChars p s = true -> Shape.allChars p (JS.trimStart s) = true.
Proof.
  induction s as [|c s IH]; [reflexivity|].
  cbn [JS.trimStart]. destruct (JS.isSpace c); [|easy].
  cbn [Shape.allChars]. intros [_ Hs]%andb_true_iff. now apply IH.
Qed.

Lemma trimEnd_shape (p : ascii -> bool) (s : string) :
  Shape.allChars p s = true -> Shape.allChars p (JS.trimEnd s) = true.
Proof.
  induction s as [|c s IH]; [reflexivity|].
  cbn [Shape.allChars JS.trimEnd]. intros [Hc Hs]%andb_true_iff.
  specialize (IH Hs). destruct (JS.trimEnd s) as [|d r].
  - destruct (JS.isSpace c); [reflexivity|]. cbn [Shape.allChars]. now rewrite Hc.
  - cbn [Shape.allChars] in *. now rewrite Hc.
Qed.

Lemma trimStart_noLeading (s : string) :
  Shape.noLeadingSpace (JS.trimStart s) = true.
Proof.
  induction s as [|c s IH]; [reflexivity|].
  cbn [JS.trimStart]. destruct (JS.isSpace c) eqn:Hc; [exact IH|].
  cbn. now rewrite Hc.
Qed.

Lemma trimStart_fixed (s : string) :
  Shape.noLeadingSpace s = true -> JS.trimStart s = s.
Proof.
  destruct s as [|c s]; [reflexivity|]. cbn. now intros ->%negb_true_iff.
Qed.

Lemma trimEnd_noLeading (s : string) :
  Shape.noLeadingSpace s = true -> Shape.noLeadingSpace (JS.trimEnd s) = true.
Proof.
  destruct s as [|c s]; [reflexivity|]. cbn [Shape.noLeadingSpace JS.trimEnd].
  intros Hc. destruct (JS.trimEnd s); [|exact Hc].
  apply negb_true_iff in Hc. rewrite Hc. cbn. now rewrite Hc.
Qed.

Lemma trimEnd_idempotent (s : string) : JS.trimEnd (JS.trimEnd s) = JS.trimEnd s.
Proof.
  induction s as [|c s IH]; [reflexivity|].
  cbn [JS.trimEnd]. destruct (JS.trimEnd s) as [|d r] eqn:Hr.
  - destruct (JS.isSpace c) eqn:Hc; [reflexivity|]. cbn. now rewrite Hc.
  - change (JS.trimEnd (String c (String d r)))
      with (match JS.trimEnd (String d r) with
            | EmptyString =>
                if JS.isSpace c then EmptyString else String c EmptyString
            | r0 => String c r0
            end).
    now rewrite IH.
Qed.

Lemma trim_idempotent (s : string) : JS.trim (JS.trim s) = JS.trim s.
Proof.
  unfold JS.trim.
  rewrite (trimStart_fixed (JS.trimEnd (JS.trimStart s)))
    by apply trimEnd_noLeading, trimStart_noLeading.
  apply trimEnd_idempotent.
Qed.

(** X16.  Normalized text is a fixed point: normalizing it again changes
    nothing, and it is lower case already; so the title-only key of the
    collection tracker is the normalized title itself. *)
Theorem normalizeText_idempotent (text : string) (signal : Signal) :
  Hasher.normalizeText (Hasher.normalizeText text) = Hasher.normalizeText text /\
  JS.toLowerCase (Hasher.normalizeText text) = Hasher.normalizeText text /\
  CollectionTracker.normalizeTitle (CollectionTracker.normalizeTitle text)
    = CollectionTracker.normalizeTitle text /\
  CollectionTracker.titleKey signal
    = CollectionTracker.normalizeTitle (CollectionTracker.signalTitle signal).
Proof.
  set (keep := fun c => JS.isWord c || JS.isSpace c).
  set (low := fun c => negb (JS.isUpper c)).
  assert (Hlow : forall t, Shape.allChars low (Hasher.normalizeText t) = true).
  { intros t. unfold Hasher.normalizeText, JS.trim.
    apply trimEnd_shape, trimStart_shape, collapseSpaces_shape; [reflexivity|].
    apply keepChars_shape, toLowerCase_shape. }
  assert (Hkeep : forall t, Shape.allChars keep (Hasher.normalizeText t) = true).
  { intros t. unfold Hasher.normalizeText, JS.trim.
    apply trimEnd_shape, trimStart_shape, collapseSpaces_shape; [reflexivity|].
    apply keepChars_kept. }
  assert (Hsingle : forall t, Shape.singleSpaced false (Hasher.normalizeText t) = true).
  { intros t. unfold Hasher.normalizeText, JS.trim.
    apply trimEnd_single. eapply trimStart_single. apply collapseSpaces_single. }
  assert (Hlower : forall t, JS.toLowerCase (Hasher.normalizeText t)
                             = Hasher.normalizeText t)
    by (intros t; apply toLowerCase_fixed, Hlow).
  assert (Hidem : forall t, Hasher.normalizeText (Hasher.normalizeText t)
                            = Hasher.normalizeText t).
  { intros t. unfold Hasher.normalizeText at 1.
    rewrite Hlower. fold keep. rewrite (keepChars_fixed keep) by apply Hkeep.
    rewrite collapseSpaces_fixed by apply Hsingle.
    unfold Hasher.normalizeText. apply trim_idempotent. }
  assert (Htitle : forall t, JS.toLowerCase (CollectionTracker.normalizeTitle t)
                             = CollectionTracker.normalizeTitle t).
  { intros t. unfold CollectionTracker.normalizeTitle.
    destruct (negb (JS.truthy t)); [reflexivity|apply Hlower]. }
  split; [apply Hidem|]. split; [apply Hlower|]. split; [|apply Htitle].
  unfold CollectionTracker.normalizeTitle.
  destruct (JS.truthy text) eqn:Ht; cbn [negb]; [|reflexivity].
  destruct (JS.truthy (Hasher.normalizeText text)) eqn:Hn; cbn [negb].
  - apply Hidem.
  - now apply truthy_false in Hn.
Qed.

End NormalizeFacts.

(** ** The analysis tracker *)

Module AnalysisFacts.
Import AnalysisTracker.

Section WithResult.

Context {R : Type}.

Implicit Types (t : Tracker R) (s : Signal).

Lemma isAlreadyAnalyzed_true s t :
  isAlreadyAnalyzed s t = true <-> is_Some (analyzed t !! generateSignalKey s).
Proof. unfold isAlreadyAnalyzed. cbv zeta. apply bool_decide_eq_true. Qed.

Lemma isAlreadyAnalyzed_false s t :
  isAlreadyAnalyzed s t = false <-> analyzed t !! generateSignalKey s = None.
Proof.
  unfold isAlreadyAnalyzed. cbv zeta. rewrite bool_decide_eq_false.
  rewrite <- eq_None_not_Some. reflexivity.
Qed.

(** What the loop of [filterNewSignals] does to the tracker and to its two
    arrays, from any state of the arrays. *)
Lemma filterLoop_spec (now : Z) (signals : list Signal) t (acc : FilterResult) :
  (forall k,
     analyzed (filterLoop now signals t acc).2 !! k =
       match analyzed t !! k with
       | Some e => Some e
       | None => if decide (k ∈ generateSignalKey <$> signals)
                 then Some {| timestamp := now; analysisResult := None |}
                 else None
       end) /\
  exists new skipped,
    newSignals (filterLoop now signals t acc).1 = newSignals acc ++ new /\
    skippedSignals (filterLoop now signals t acc).1 = skippedSignals acc ++ skipped /\
    NoDup (generateSignalKey <$> new) /\
    (forall s, s ∈ new -> analyzed t !! generateSignalKey s = None) /\
    (forall s, s ∈ skipped -> s ∈ signals) /\
    new ++ skipped ≡ₚ signals.
Proof.
  revert t acc. induction signals as [|s rest IH]; intros t acc.
  - split.
    + intros k. cbn. destruct (analyzed t !! k); [reflexivity|].
      rewrite decide_False; [reflexivity|apply not_elem_of_nil].
    + exists [], []. cbn. rewrite !app_nil_r.
      repeat split; try constructor; intros ? H; now apply elem_of_nil in H.
  - cbn [filterLoop]. destruct (isAlreadyAnalyzed s t) eqn:Hs.
    + apply isAlreadyAnalyzed_true in Hs as [e0 He0].
      destruct (IH t {| newSignals := newSignals acc;
                        skippedSignals := skippedSignals acc ++ [s] |})
        as (Hmap & new & skipped & Hn & Hk & Hnd & Hnone & Hin & Hperm).
      split.
      * intros k. rewrite Hmap. destruct (analyzed t !! k) eqn:Hk'; [reflexivity|].
        rewrite fmap_cons.
        destruct (decide (k ∈ generateSignalKey <$> rest)) as [Hr|Hr].
        -- rewrite decide_True; [reflexivity|now right].
        -- rewrite decide_False; [reflexivity|].
           intros [->|?]%elem_of_cons; [congruence|contradiction].
      * exists new, (s :: skipped). rewrite Hn, Hk. cbn [newSignals skippedSignals].
        rewrite <- app_assoc. repeat split; try assumption.
        -- intros s' [->|Hs']%elem_of_cons; [left|right; now apply Hin].
        -- rewrite <- Hperm. now rewrite Permutation_middle.
    + apply isAlreadyAnalyzed_false in Hs.
      destruct (IH (markAsAnalyzed now s None t)
                  {| newSignals := newSignals acc ++ [s];
                     skippedSignals := skippedSignals acc |})
        as (Hmap & new & skipped & Hn & Hk & Hnd & Hnone & Hin & Hperm).
      cbn [markAsAnalyzed analyzed] in Hmap, Hnone.
      split.
      * intros k. rewrite Hmap, fmap_cons.
        destruct (decide (k = generateSignalKey s)) as [->|Hne].
        -- rewrite lookup_insert_eq, Hs. rewrite decide_True; [reflexivity|left].
        -- rewrite lookup_insert_ne by congruence.
           destruct (analyzed t !! k); [reflexivity|].
           destruct (decide (k ∈ generateSignalKey <$> rest)) as [Hr|Hr].
           ++ rewrite decide_True; [reflexivity|now right].
           ++ rewrite decide_False; [reflexivity|].
              intros [->|?]%elem_of_cons; [congruence|contradiction].
      * exists (s :: new), skipped. rewrite Hn, Hk. cbn [newSignals skippedSignals].
        rewrite <- app_assoc. repeat split; try assumption.
        -- rewrite fmap_cons. apply NoDup_cons. split; [|exact Hnd].
           intros (s' & Hkey & Hs')%list_elem_of_fmap.
           specialize (Hnone s' Hs'). rewrite <- Hkey, lookup_insert_eq in Hnone.
           discriminate.
        -- intros s' [->|Hs']%elem_of_cons; [exact Hs|].
           specialize (Hnone s' Hs').
           destruct (decide (generateSignalKey s' = generateSignalKey s)) as [Heq|Hne].
           ++ rewrite Heq, lookup_insert_eq in Hnone. discriminate.
           ++ now rewrite lookup_insert_ne in Hnone by congruence.
        -- intros s' Hs'. right. now apply Hin.
        -- cbn. now rewrite Hperm.
Qed.

(** X17.  The analysis tracker's [filterNewSignals] marks what it returns
    as new: afterwards every signal of the batch counts as analyzed, and a
    second pass over the batch, at any later time, returns nothing new
    and leaves the tracker as it is. *)
Theorem analysis_filter_twice (now1 now2 : Z) (signals : list Signal) t :
  (forall s, s ∈ signals ->
     isAlreadyAnalyzed s (filterNewSignals now1 signals t).2 = true) /\
  filterNewSignals now2 signals (filterNewSignals now1 signals t).2 =
    ({| newSignals := []; skippedSignals := signals |},
     (filterNewSignals now1 signals t).2).
Proof.
  assert (Hall : forall s, s ∈ signals ->
            isAlreadyAnalyzed s (filterNewSignals now1 signals t).2 = true).
  { intros s Hs. apply isAlreadyAnalyzed_true.
    unfold filterNewSignals.
    rewrite (proj1 (filterLoop_spec now1 signals t _)).
    destruct (analyzed t !! generateSignalKey s); [eauto|].
    rewrite decide_True; [eauto|]. now apply list_elem_of_fmap_2. }
  split; [exact Hall|].
  generalize dependent (filterNewSignals now1 signals t).2. intros t1 Hall.
  unfold filterNewSignals.
  assert (Hloop : forall l acc, (forall s, s ∈ l -> isAlreadyAnalyzed s t1 = true) ->
            filterLoop now2 l t1 acc =
              ({| newSignals := newSignals acc;
                  skippedSignals := skippedSignals acc ++ l |}, t1)).
  { induction l as [|s l IHl]; intros acc Hl.
    - cbn. rewrite app_nil_r. now destruct acc.
    - cbn [filterLoop]. rewrite (Hl s) by left.
      rewrite IHl by (intros s' Hs'; apply Hl; now right).
      cbn [newSignals skippedSignals]. now rewrite <- app_assoc. }
  now rewrite Hloop.
Qed.

(** X18.  What [filterNewSignals] returns as new: signals that were not
    analyzed before, no two of them with the same composite key; together
    with the skipped ones they are the batch.  Entries that were in the
    tracker stay as they were (a stored analysis result is never
    overwritten by the filter); the keys it adds carry the time of the
    call and the result [null]. *)
Theorem analysis_filter_new (now : Z) (signals : list Signal) t :
  NoDup (generateSignalKey <$> newSignals (filterNewSignals now signals t).1) /\
  (forall s, s ∈ newSignals (filterNewSignals now signals t).1 ->
     isAlreadyAnalyzed s t = false) /\
  newSignals (filterNewSignals now signals t).1
    ++ skippedSignals (filterNewSignals now signals t).1 ≡ₚ signals /\
  (forall k,
     analyzed (filterNewSignals now signals t).2 !! k =
       match analyzed t !! k with
       | Some e => Some e
       | None => if decide (k ∈ generateSignalKey <$> signals)
                 then Some {| timestamp := now; analysisResult := None |}
                 else None
       end).
Proof.
  unfold filterNewSignals.
  destruct (filterLoop_spec now signals t {| newSignals := []; skippedSignals := [] |})
    as (Hmap & new & skipped & Hn & Hk & Hnd & Hnone & _ & Hperm).
  rewrite Hn, Hk. cbn [newSignals skippedSignals app].
  repeat split; try assumption.
  intros s Hs. now apply isAlreadyAnalyzed_false, Hnone.
Qed.

(** X19.  [markAsAnalyzed] is an upsert without expiry: it stores time
    and result under the signal's key, replacing what was there (a result
    too, when called without one); the number of tracked keys grows by
    one for a new key and not at all for a known one; and whatever was
    analyzed stays analyzed. *)
Theorem markAsAnalyzed_upsert (now constructed : Z) s (result : option R) t :
  analyzed (markAsAnalyzed now s result t) !! generateSignalKey s =
    Some {| timestamp := now; analysisResult := result |} /\
  isAlreadyAnalyzed s (markAsAnalyzed now s result t) = true /\
  s_global (getStats constructed (markAsAnalyzed now s result t)) =
    (if isAlreadyAnalyzed s t then s_global (getStats constructed t)
     else S (s_global (getStats constructed t))) /\
  (forall s', isAlreadyAnalyzed s' t = true ->
     isAlreadyAnalyzed s' (markAsAnalyzed now s result t) = true) /\
  (s_today (getStats constructed t) <= s_global (getStats constructed t))%nat.
Proof.
  split; [apply lookup_insert_eq|].
  split; [apply isAlreadyAnalyzed_true; cbn [markAsAnalyzed analyzed];
          rewrite lookup_insert_eq; eauto|].
  split; [|split].
  - cbn [getStats s_global markAsAnalyzed analyzed].
    destruct (isAlreadyAnalyzed s t) eqn:Hs.
    + apply isAlreadyAnalyzed_true in Hs.
      now rewrite map_size_insert_Some.
    + apply isAlreadyAnalyzed_false in Hs. now rewrite map_size_insert_None.
  - intros s' Hs'. apply isAlreadyAnalyzed_true.
    apply isAlreadyAnalyzed_true in Hs'. cbn [markAsAnalyzed analyzed].
    destruct (decide (generateSignalKey s = generateSignalKey s')) as [->|Hne].
    + rewrite lookup_insert_eq. eauto.
    + now rewrite lookup_insert_ne.
  - cbn [getStats s_today s_global]. rewrite <- length_map_to_list.
    apply length_filter.
Qed.

End WithResult.

End AnalysisFacts.

(** ** The publishing script *)

Module PublisherFacts.
Import Publisher AdvancedDeduplication.

(** X20.  The publishing plan by score: an analysis without a score is in
    none of the four lists; one with a score is in at least one; hot,
    early and risk exclude each other and watch excludes hot and risk, but
    an analysis is both an early signal and a watch item exactly when its
    score out of ten is five, that is for scores from 45 to 54. *)
Theorem plan_membership (a : Analysis) :
  (isHot a || isEarly a || isWatch a || isRisk a = true <-> is_Some (score a)) /\
  (isEarly a && isWatch a = true <-> scoreOutOf10 a = Some 5) /\
  (scoreOutOf10 a = Some 5 <-> exists x, score a = Some x /\ 45 <= x <= 54) /\
  isHot a && isEarly a = false /\ isHot a && isWatch a = false /\
  isHot a && isRisk a = false /\ isEarly a && isRisk a = false /\
  isWatch a && isRisk a = false.
Proof.
  unfold isHot, isEarly, isWatch, isRisk, scoreOutOf10, atLeast, below.
  destruct (score a) as [x|]; cbn [fmap option_fmap option_map].
  - pose proof (Z.div_mod (x + 5) 10 ltac:(lia)) as Hdm.
    pose proof (Z.mod_pos_bound (x + 5) 10 ltac:(lia)) as Hm.
    set (r := (x + 5) / 10) in *.
    split; [split; [eauto|intros _]|].
    { destruct (Z.leb_spec 8 r), (Z.leb_spec 5 r), (Z.ltb_spec r 8),
        (Z.leb_spec 4 r), (Z.ltb_spec r 6), (Z.ltb_spec r 4);
        cbn; try reflexivity; lia. }
    split; [split|].
    { destruct (Z.leb_spec 5 r), (Z.ltb_spec r 8), (Z.leb_spec 4 r),
        (Z.ltb_spec r 6); cbn; intros Heq; try discriminate Heq. f_equal. lia. }
    { intros [= ->]. reflexivity. }
    split; [split|].
    { intros [= Hr]. exists x. split; [reflexivity|lia]. }
    { intros (y & [= <-] & Hy). f_equal. lia. }
    destruct (Z.leb_spec 8 r), (Z.leb_spec 5 r), (Z.ltb_spec r 8),
      (Z.leb_spec 4 r), (Z.ltb_spec r 6), (Z.ltb_spec r 4);
      cbn; repeat split; try reflexivity; lia.
  - split; [split; [discriminate|intros [? ?]; discriminate]|].
    split; [split; discriminate|].
    split; [split; [discriminate|intros (y & ? & _); discriminate]|].
    repeat split.
Qed.

Lemma plan_share (a : Analysis) :
  (Nat.b2n (isHot a) + Nat.b2n (isEarly a) + Nat.b2n (isWatch a) + Nat.b2n (isRisk a)
   = Nat.b2n (bool_decide (is_Some (score a)))
     + Nat.b2n (bool_decide (scoreOutOf10 a = Some 5%Z)))%nat.
Proof.
  unfold isHot, isEarly, isWatch, isRisk, scoreOutOf10, atLeast, below.
  destruct (score a) as [x|]; cbn [fmap option_fmap option_map].
  - rewrite (bool_decide_eq_true_2 (is_Some (Some x))) by eauto.
    set (r := (x + 5) / 10).
    destruct (decide (r = 5)) as [Hr|Hr].
    + rewrite bool_decide_eq_true_2 by (f_equal; exact Hr). rewrite Hr. reflexivity.
    + rewrite bool_decide_eq_false_2 by (intros [= ?]; contradiction).
      repeat match goal with
             | |- context [?a <=? ?b] => destruct (Z.leb_spec a b)
             | |- context [?a <? ?b] => destruct (Z.ltb_spec a b)
             end; cbn; lia.
  - rewrite bool_decide_eq_false_2 by (intros [? ?]; discriminate).
    rewrite bool_decide_eq_false_2 by discriminate. reflexivity.
Qed.

Lemma length_filter_b2n {A : Type} (p : A -> bool) (l : list A) :
  length (List.filter p l) = list_sum (map (fun a => Nat.b2n (p a)) l).
Proof.
  induction l as [|a l IH]; [reflexivity|].
  cbn [List.filter map]. change (list_sum (?x :: ?r)) with (x + list_sum r)%nat.
  destruct (p a); cbn [length Nat.b2n]; lia.
Qed.

(** X21.  The numbers of the publishing plan do not add up to the number
    of approved analyses: the four lists together hold every analysis
    that has a score once, and those whose score out of ten is five once
    more; analyses without a score are in no list. *)
Theorem plan_counts (approvedAnalyses : list Analysis) :
  (length (finalHotOpportunities (plan approvedAnalyses))
   + length (finalEarlySignals (plan approvedAnalyses))
   + length (finalWatchClosely (plan approvedAnalyses))
   + length (finalPotentialRisks (plan approvedAnalyses))
   = length (List.filter (fun a => bool_decide (is_Some (score a))) approvedAnalyses)
     + length (List.filter (fun a => bool_decide (scoreOutOf10 a = Some 5%Z))
                 approvedAnalyses))%nat.
Proof.
  cbn [plan finalHotOpportunities finalEarlySignals finalWatchClosely
       finalPotentialRisks].
  rewrite !length_filter_b2n.
  induction approvedAnalyses as [|a l IH]; [reflexivity|].
  cbn [map]. change (list_sum (?x :: ?r)) with (x + list_sum r)%nat.
  pose proof (plan_share a). lia.
Qed.

Section Sending.

Variable World : Type.
Variable sendToTelegramBot : string -> World -> SendResult * World.
Variable wait : Z -> World -> World.
Variable clock : World -> Z.
Variable formatEarlyDetectionMessage : Analysis -> nat -> option Signal -> string.
Variable originalSignals : list Signal.

Local Abbreviation markedLoop :=
  (Publisher.markedLoop World sendToTelegramBot wait clock
     formatEarlyDetectionMessage originalSignals).
Local Abbreviation guardedLoop :=
  (Publisher.guardedLoop World sendToTelegramBot wait clock
     formatEarlyDetectionMessage originalSignals).
Local Abbreviation tracking := (signalForTracking originalSignals).
Local Abbreviation processedAll now analyses t :=
  (foldl (fun acc a => markAsProcessed now (tracking a) acc) t analyses).

(** The guard after [markAsProcessed] finds the composite key it wrote. *)
Lemma marked_guard (now : Z) (s : Signal) (t : Tracker) :
  isDuplicate (checkDeduplication now s preSendOptions (markAsProcessed now s t))
  = true.
Proof.
  apply DedupMore.known_key_is_duplicate; [reflexivity|].
  cbn [markAsProcessed published]. rewrite lookup_insert_eq. eauto.
Qed.

Lemma markedLoop_state (type : string) (n i : nat) (analyses : list Analysis)
    (st : State World) :
  markedLoop type n i analyses st =
  {| tracker := processedAll (clock (world st)) analyses (tracker st);
     trackerFile := trackerFile st;
     publishResults := publishResults st;
     world := world st |}.
Proof.
  revert i st. induction analyses as [|a l IH]; intros i st.
  - destruct st; reflexivity.
  - cbn [Publisher.markedLoop foldl]. cbv zeta.
    rewrite marked_guard, IH. reflexivity.
Qed.

(** X22.  The loops over the hot opportunities and over the early signals
    send nothing: each analysis is marked as processed and then stopped by
    the guard, whatever the messenger, the tracker and the list are.  The
    world, the counters of the publishing results and the tracker file
    are as before the loop; the tracker holds a 'processed' record for
    every analysis of the list. *)
Theorem markedLoop_never_sends (type : string) (n i : nat)
    (analyses : list Analysis) (st : State World) :
  world (markedLoop type n i analyses st) = world st /\
  publishResults (markedLoop type n i analyses st) = publishResults st /\
  trackerFile (markedLoop type n i analyses st) = trackerFile st /\
  tracker (markedLoop type n i analyses st)
  = processedAll (clock (world st)) analyses (tracker st) /\
  forall a, a ∈ analyses ->
    exists e, published (tracker (markedLoop type n i analyses st))
                !! generateSignalKey (tracking a) = Some e /\
              e_status e = Some "processed".
Proof.
  rewrite markedLoop_state. cbn [world publishResults trackerFile tracker].
  repeat split. generalize (tracker st) as t. generalize (clock (world st)) as now.
  intros now. induction analyses as [|a' l IH] using rev_ind; intros t a Ha.
  - inversion Ha.
  - rewrite foldl_app. cbn [foldl markAsProcessed published].
    destruct (decide (generateSignalKey (tracking a') = generateSignalKey (tracking a)))
      as [->|Hne].
    + rewrite lookup_insert_eq. eauto.
    + rewrite lookup_insert_ne by exact Hne. apply IH.
      apply elem_of_app in Ha as [Ha|Ha]; [exact Ha|].
      apply list_elem_of_singleton in Ha. congruence.
Qed.

Lemma processedAll_keeps (now : Z) (l : list Analysis) (t : Tracker) (k : string) :
  is_Some (published t !! k) -> is_Some (published (processedAll now l t) !! k).
Proof.
  revert t. induction l as [|a l IH]; intros t Hk; [exact Hk|].
  cbn [foldl]. apply IH. cbn [markAsProcessed published].
  apply lookup_insert_is_Some'. now right.
Qed.

Lemma processedAll_key (now : Z) (l : list Analysis) (t : Tracker) (a : Analysis) :
  a ∈ l ->
  is_Some (published (processedAll now l t) !! generateSignalKey (tracking a)).
Proof.
  revert t. induction l as [|a' l IH]; intros t Ha; [inversion Ha|].
  cbn [foldl]. apply elem_of_cons in Ha as [->|Ha].
  - apply processedAll_keeps. cbn [markAsProcessed published].
    rewrite lookup_insert_eq. eauto.
  - now apply IH.
Qed.

(** The guarded loops pass over a list of duplicates without a trace. *)
Lemma guardedLoop_skips (n i : nat) (l : list Analysis) (st : State World) :
  (forall a, a ∈ l ->
     isDuplicate (checkDeduplication (clock (world st)) (tracking a)
                    preSendOptions (tracker st)) = true) ->
  guardedLoop n i l st = st.
Proof.
  revert i. induction l as [|a l IH]; intros i Hdup; [reflexivity|].
  cbn [Publisher.guardedLoop]. cbv zeta.
  rewrite Hdup by (apply elem_of_cons; now left).
  apply IH. intros a' Ha'. apply Hdup, elem_of_cons. now right.
Qed.

(** X23.  What went through the loop of the hot opportunities or of the
    early signals is not sent by the loops that follow either: the loop
    over the watch items (or the risk alerts), run on analyses of the
    former list, leaves the state as it is.  This is the case of an
    analysis whose score out of ten is five, which is an early signal
    and a watch item. *)
Theorem marked_then_guarded (type : string) (n i n' i' : nat)
    (early watch : list Analysis) (st : State World) :
  (forall a, a ∈ watch -> a ∈ early) ->
  guardedLoop n' i' watch (markedLoop type n i early st)
  = markedLoop type n i early st.
Proof.
  intros Hsub. apply guardedLoop_skips. intros a Ha.
  apply DedupMore.known_key_is_duplicate; [reflexivity|].
  rewrite markedLoop_state. cbn [tracker].
  apply processedAll_key, Hsub, Ha.
Qed.

(** The guard stops a signal whose key is published or whose link a
    published record carries. *)
Lemma guard_after_publish (now now' now'' : Z) (s s' : Signal) (t : Tracker) :
  generateSignalKey s' = generateSignalKey s \/ (link s' = link s /\ link s ≠ "") ->
  isDuplicate (checkDeduplication now'' s' preSendOptions
                 (saveTracker now' (markAsPublished now s t))) = true.
Proof.
  intros [Hkey|[Hlink Hne]].
  - apply DedupMore.known_key_is_duplicate; [reflexivity|].
    cbn [saveTracker markAsPublished published]. rewrite Hkey, lookup_insert_eq.
    eauto.
  - unfold checkDeduplication. cbn [preSendOptions Options.checkURLProcessed andb].
    rewrite Hlink, (proj2 (truthy_true _) Hne).
    replace (checkURLAlreadyProcessed (link s) _) with true; [reflexivity|].
    symmetry. apply DedupFacts.checkURLAlreadyProcessed_spec. split; [exact Hne|].
    eexists _, _. split.
    + left. cbn [saveTracker markAsPublished published]. apply lookup_insert_eq.
    + now apply DedupFacts.ownLink_hit.
Qed.

(** X24.  In the loops over the watch items and the risk alerts a message
    that was sent is not sent again: after an analysis passed the guard
    and its message was delivered, the tracker file holds the tracker,
    the tracker holds the key of the analysis, and the analyses that
    follow with the same key, or with the same first evidence when there
    is one, are passed over. *)
Theorem guardedLoop_sent_once (n i : nat) (a : Analysis) (l : list Analysis)
    (st : State World) :
  isDuplicate (checkDeduplication (clock (world st)) (tracking a)
                 preSendOptions (tracker st)) = false ->
  success (sendToTelegramBot
             (formatEarlyDetectionMessage a i (findOriginal originalSignals a))
             (world st)).1 = true ->
  (forall a', a' ∈ l ->
     generateSignalKey (tracking a') = generateSignalKey (tracking a) \/
     (firstEvidence a' = firstEvidence a /\ firstEvidence a ≠ "")) ->
  guardedLoop n i (a :: l) st = guardedLoop n i [a] st /\
  trackerFile (guardedLoop n i [a] st) = Some (tracker (guardedLoop n i [a] st)) /\
  is_Some (published (tracker (guardedLoop n i [a] st))
             !! generateSignalKey (tracking a)).
Proof.
  intros Hnew Hsent Hsame. cbn [Publisher.guardedLoop]. cbv zeta.
  rewrite Hnew.
  destruct (sendToTelegramBot _ (world st)) as [result w]. cbn [fst] in Hsent.
  rewrite Hsent. cbn [tracker trackerFile publishResults world].
  split; [|split; [reflexivity|]].
  - apply guardedLoop_skips. cbn [tracker world]. intros a' Ha'.
    apply guard_after_publish. exact (Hsame a' Ha').
  - cbn [saveTracker markAsPublished published]. rewrite lookup_insert_eq. eauto.
Qed.

End Sending.

Lemma marked_then_guarded_witness :
  Publisher.guardedLoop Z Samples.deliver Samples.pause id Samples.render [] 1 0
    [Samples.watchItem]
    (Publisher.markedLoop Z Samples.deliver Samples.pause id Samples.render []
       "early_signal" 1 0 [Samples.watchItem] Samples.startState)
  = Publisher.markedLoop Z Samples.deliver Samples.pause id Samples.render []
      "early_signal" 1 0 [Samples.watchItem] Samples.startState.
Proof.
  apply (marked_then_guarded Z Samples.deliver Samples.pause id Samples.render []
           "early_signal" 1 0 1 0 [Samples.watchItem] [Samples.watchItem]
           Samples.startState).
  intros a Ha. exact Ha.
Defined.

Lemma guardedLoop_sent_once_witness :
  Publisher.guardedLoop Z Samples.deliver Samples.pause id Samples.render [] 2 0
    [Samples.watchItem; Samples.watchItem] Samples.startState
  = Publisher.guardedLoop Z Samples.deliver Samples.pause id Samples.render [] 2 0
      [Samples.watchItem] Samples.startState.
Proof.
  apply (guardedLoop_sent_once Z Samples.deliver Samples.pause id Samples.render []
           2 0 Samples.watchItem [Samples.watchItem] Samples.startState).
  - vm_compute. reflexivity.
  - reflexivity.
  - intros a' Ha'. apply list_elem_of_singleton in Ha'. subst a'. now left.
Defined.

Lemma prefilterLoop_spec (t : Tracker) (analyses : list (Enriched.t Analysis))
    (urlSeen : gset string) (acc : Prefiltered) :
  (forall k, k ∈ urlSeen <->
     k ≠ "" /\ k ∈ Enriched.url_key <$> urlFilteredAnalyses acc) ->
  NoDup (filter (fun k : string => k ≠ "")
           (Enriched.url_key <$> urlFilteredAnalyses acc)) ->
  (forall e, e ∈ urlFilteredAnalyses acc ++ urlDuplicates acc ->
     ~ (Enriched.url_key e ≠ "" /\
        checkURLAlreadyProcessed (Enriched.url_key e) t = true)) ->
  (forall e, e ∈ urlDuplicates acc ->
     Enriched.url_key e ≠ "" /\
     exists e', e' ∈ urlFilteredAnalyses acc /\
                Enriched.url_key e' = Enriched.url_key e) ->
  (forall e, e ∈ alreadyProcessedDuplicates acc ->
     Enriched.url_key e ≠ "" /\
     checkURLAlreadyProcessed (Enriched.url_key e) t = true) ->
  let r := prefilterLoop t analyses urlSeen acc in
  urlFilteredAnalyses r ++ urlDuplicates r ++ alreadyProcessedDuplicates r
    ≡ₚ (urlFilteredAnalyses acc ++ urlDuplicates acc
        ++ alreadyProcessedDuplicates acc) ++ analyses /\
  NoDup (filter (fun k : string => k ≠ "")
           (Enriched.url_key <$> urlFilteredAnalyses r)) /\
  (forall e, e ∈ urlFilteredAnalyses r ++ urlDuplicates r ->
     ~ (Enriched.url_key e ≠ "" /\
        checkURLAlreadyProcessed (Enriched.url_key e) t = true)) /\
  (forall e, e ∈ urlDuplicates r ->
     Enriched.url_key e ≠ "" /\
     exists e', e' ∈ urlFilteredAnalyses r /\
                Enriched.url_key e' = Enriched.url_key e) /\
  (forall e, e ∈ alreadyProcessedDuplicates r ->
     Enriched.url_key e ≠ "" /\
     checkURLAlreadyProcessed (Enriched.url_key e) t = true).
Proof.
  revert urlSeen acc.
  induction analyses as [|a l IH]; intros urlSeen acc Hseen Hnd Hnot Hdup Hproc.
  - cbn [prefilterLoop]. cbv zeta. rewrite app_nil_r. auto.
  - cbn [prefilterLoop]. cbv zeta.
    destruct (JS.truthy (Enriched.url_key a)) eqn:Hk; cbn [andb].
    + apply truthy_true in Hk.
      destruct (checkURLAlreadyProcessed (Enriched.url_key a) t) eqn:Hp.
      * (* already processed *)
        edestruct (IH urlSeen) as (Hperm & Hrest); [..|split; [|exact Hrest]].
        -- exact Hseen.
        -- exact Hnd.
        -- exact Hnot.
        -- exact Hdup.
        -- cbn [alreadyProcessedDuplicates]. intros e He.
           apply elem_of_app in He as [He|He]; [now apply Hproc|].
           apply list_elem_of_singleton in He. subst e. auto.
        -- rewrite Hperm.
           cbn [urlFilteredAnalyses urlDuplicates alreadyProcessedDuplicates].
           rewrite <- !app_assoc. reflexivity.
      * destruct (bool_decide (Enriched.url_key a ∈ urlSeen)) eqn:Hs.
        -- (* a URL seen in this run *)
           apply bool_decide_eq_true in Hs.
           edestruct (IH urlSeen) as (Hperm & Hrest); [..|split; [|exact Hrest]].
           ++ exact Hseen.
           ++ exact Hnd.
           ++ cbn [urlFilteredAnalyses urlDuplicates]. intros e He.
              rewrite app_assoc in He.
              apply elem_of_app in He as [He|He]; [now apply Hnot|].
              apply list_elem_of_singleton in He. subst e.
              intros [_ Hc]. congruence.
           ++ cbn [urlFilteredAnalyses urlDuplicates]. intros e He.
              apply elem_of_app in He as [He|He]; [now apply Hdup|].
              apply list_elem_of_singleton in He. subst e.
              split; [exact Hk|].
              apply Hseen in Hs as [_ Hin].
              apply list_elem_of_fmap in Hin as (e' & Heq & Hin). eauto.
           ++ exact Hproc.
           ++ rewrite Hperm.
              cbn [urlFilteredAnalyses urlDuplicates alreadyProcessedDuplicates].
              rewrite <- !app_assoc. cbn [app].
              apply Permutation_app_head, Permutation_app_head.
              apply Permutation_middle.
        -- (* a new URL *)
           apply bool_decide_eq_false in Hs.
           edestruct (IH ({[Enriched.url_key a]} ∪ urlSeen))
             as (Hperm & Hrest); [..|split; [|exact Hrest]].
           ++ cbn [urlFilteredAnalyses]. intros k.
              rewrite elem_of_union, elem_of_singleton, Hseen, fmap_app, elem_of_app.
              cbn [fmap list_fmap]. rewrite list_elem_of_singleton.
              split.
              ** intros [->|[? ?]]; auto.
              ** intros [? [?|?]]; auto.
           ++ cbn [urlFilteredAnalyses]. rewrite fmap_app, filter_app.
              cbn [fmap list_fmap]. rewrite filter_cons_True by exact Hk.
              rewrite filter_nil. apply NoDup_app. split; [exact Hnd|].
              split; [|apply NoDup_singleton].
              intros k Hin Hin'. apply list_elem_of_singleton in Hin'. subst k.
              apply list_elem_of_filter in Hin as [_ Hin].
              apply Hs, Hseen. auto.
           ++ cbn [urlFilteredAnalyses urlDuplicates]. intros e He.
              rewrite <- app_assoc in He.
              apply elem_of_app in He as [He|He].
              ** apply Hnot, elem_of_app. now left.
              ** cbn [app] in He. apply elem_of_cons in He as [->|He].
                 --- intros [_ Hc]. congruence.
                 --- apply Hnot, elem_of_app. now right.
           ++ cbn [urlFilteredAnalyses urlDuplicates]. intros e He.
              destruct (Hdup e He) as (Hne & e' & Hin & Heq).
              split; [exact Hne|]. exists e'. split; [|exact Heq].
              apply elem_of_app. now left.
           ++ exact Hproc.
           ++ rewrite Hperm.
              cbn [urlFilteredAnalyses urlDuplicates alreadyProcessedDuplicates].
              rewrite <- !app_assoc. cbn [app].
              apply Permutation_app_head.
              rewrite !app_assoc. apply Permutation_middle.
    + (* no URL: always kept *)
      apply truthy_false in Hk.
      edestruct (IH urlSeen) as (Hperm & Hrest); [..|split; [|exact Hrest]].
      * cbn [urlFilteredAnalyses]. intros k.
        rewrite Hseen, fmap_app, elem_of_app.
        cbn [fmap list_fmap]. rewrite list_elem_of_singleton.
        split.
        -- intros [? ?]; auto.
        -- intros [? [?|?]]; [auto|congruence].
      * cbn [urlFilteredAnalyses]. rewrite fmap_app, filter_app.
        cbn [fmap list_fmap]. rewrite filter_cons_False by (intros Hc; now apply Hc).
        rewrite filter_nil, app_nil_r. exact Hnd.
      * cbn [urlFilteredAnalyses urlDuplicates]. intros e He.
        rewrite <- app_assoc in He.
        apply elem_of_app in He as [He|He].
        -- apply Hnot, elem_of_app. now left.
        -- cbn [app] in He. apply elem_of_cons in He as [->|He].
           ++ intros [Hc _]. now apply Hc.
           ++ apply Hnot, elem_of_app. now right.
      * cbn [urlFilteredAnalyses urlDuplicates]. intros e He.
        destruct (Hdup e He) as (Hne & e' & Hin & Heq).
        split; [exact Hne|]. exists e'. split; [|exact Heq].
        apply elem_of_app. now left.
      * exact Hproc.
      * rewrite Hperm.
        cbn [urlFilteredAnalyses urlDuplicates alreadyProcessedDuplicates].
        rewrite <- !app_assoc. cbn [app].
        apply Permutation_app_head.
        rewrite !app_assoc. apply Permutation_middle.
Qed.

(** X25.  The pre-filter by URL splits the enriched analyses in three:
    the lists together are the input up to order; set aside as already
    processed are exactly the analyses with a URL key that
    [checkURLAlreadyProcessed] knows; the URL keys of the analyses that
    go on are pairwise different, the empty key apart, which is never
    filtered; and a URL duplicate has the key of an analysis that goes
    on. *)
Theorem prefilter_spec (t : Tracker) (analyses : list (Enriched.t Analysis)) :
  urlFilteredAnalyses (prefilter t analyses) ++ urlDuplicates (prefilter t analyses)
    ++ alreadyProcessedDuplicates (prefilter t analyses) ≡ₚ analyses /\
  (forall e, e ∈ alreadyProcessedDuplicates (prefilter t analyses) <->
     e ∈ analyses /\ Enriched.url_key e ≠ "" /\
     checkURLAlreadyProcessed (Enriched.url_key e) t = true) /\
  NoDup (filter (fun k : string => k ≠ "")
           (Enriched.url_key <$> urlFilteredAnalyses (prefilter t analyses))) /\
  (forall e, e ∈ urlDuplicates (prefilter t analyses) ->
     Enriched.url_key e ≠ "" /\
     exists e', e' ∈ urlFilteredAnalyses (prefilter t analyses) /\
                Enriched.url_key e' = Enriched.url_key e) /\
  (forall e, e ∈ analyses -> Enriched.url_key e = "" ->
     e ∈ urlFilteredAnalyses (prefilter t analyses)).
Proof.
  unfold prefilter.
  destruct (prefilterLoop_spec t analyses ∅
              {| urlFilteredAnalyses := []; urlDuplicates := [];
                 alreadyProcessedDuplicates := [] |})
    as (Hperm & Hnd & Hnot & Hdup & Hproc).
  - intros k. cbn [urlFilteredAnalyses fmap list_fmap]. split.
    + intros Hk. now apply not_elem_of_empty in Hk.
    + intros [_ Hk]. inversion Hk.
  - cbn [urlFilteredAnalyses fmap list_fmap]. rewrite filter_nil. apply NoDup_nil_2.
  - intros e He. inversion He.
  - intros e He. inversion He.
  - intros e He. inversion He.
  - cbn [urlFilteredAnalyses urlDuplicates alreadyProcessedDuplicates app] in Hperm.
    set (r := prefilterLoop t analyses ∅ _) in *.
    assert (Hin : forall e, e ∈ analyses <->
              e ∈ urlFilteredAnalyses r \/ e ∈ urlDuplicates r
              \/ e ∈ alreadyProcessedDuplicates r).
    { intros e. rewrite <- Hperm, !elem_of_app. reflexivity. }
    split; [exact Hperm|]. split; [|split; [exact Hnd|split; [exact Hdup|]]].
    + intros e. split.
      * intros He. split; [apply Hin; auto|now apply Hproc].
      * intros (He & Hk & Hp). apply Hin in He as [He|[He|He]]; [| |exact He].
        -- exfalso. apply (Hnot e); [apply elem_of_app; now left|auto].
        -- exfalso. apply (Hnot e); [apply elem_of_app; now right|auto].
    + intros e He Hk. apply Hin in He as [He|[He|He]]; [exact He| |].
      * exfalso. now apply (proj1 (Hdup e He)).
      * exfalso. now apply (proj1 (Hproc e He)).
Qed.

End PublisherFacts.

(** ** The collection script *)

Module CollectorFacts.
Import Collector.

Section Merge.

Context {A : Type}.
Variable view : A -> Signal.

Local Abbreviation keysOf := (mergeKeys view).
Local Abbreviation originals st :=
  ((originalSignal <$> combined st) ++ (dup_signal <$> duplicates st)).
Local Abbreviation init :=
  {| combined := @nil (Normalized A); seen := ∅; duplicates := [] |}.
Local Abbreviation seenIsKept st :=
  (forall k, k ∈ seen st <->
     exists c, c ∈ combined st /\ k ∈ keysOf (originalSignal c)).
Local Abbreviation keptApart st :=
  (forall l1 c l2, combined st = l1 ++ c :: l2 ->
     forall c', c' ∈ l1 -> forall k, k ∈ keysOf (originalSignal c) ->
       k ∉ keysOf (originalSignal c')).
Local Abbreviation droppedShare st :=
  (forall d, d ∈ duplicates st ->
     duplicateKey d ∈ keysOf (dup_signal d) /\
     exists c, c ∈ combined st /\ duplicateKey d ∈ keysOf (originalSignal c)).
Local Abbreviation keptFields st :=
  (forall c, c ∈ combined st ->
     n_source c = CollectionTracker.signalSource (view (originalSignal c)) /\
     n_title c = CollectionTracker.signalTitle (view (originalSignal c)) /\
     n_link c = CollectionTracker.signalUrl (view (originalSignal c))).

Lemma elem_of_seen_add (keys : list string) (S : gset string) (k : string) :
  k ∈ foldl (fun seen key => {[key]} ∪ seen) S keys <-> k ∈ keys \/ k ∈ S.
Proof.
  revert S. induction keys as [|key keys IH]; intros S; cbn [foldl].
  - split; [auto|]. intros [H|H]; [inversion H|exact H].
  - rewrite IH, elem_of_union, elem_of_singleton, elem_of_cons. tauto.
Qed.

Lemma find_seen_Some (S : gset string) (keys : list string) (k : string) :
  find (fun key => bool_decide (key ∈ S)) keys = Some k -> k ∈ keys /\ k ∈ S.
Proof.
  intros H. apply find_some in H as [Hin Hk].
  split; [now apply list_elem_of_In|now apply bool_decide_eq_true in Hk].
Qed.

Lemma find_seen_None (S : gset string) (keys : list string) :
  find (fun key => bool_decide (key ∈ S)) keys = None ->
  forall k, k ∈ keys -> k ∉ S.
Proof.
  intros H k Hin. apply list_elem_of_In in Hin.
  pose proof (find_none _ _ H k Hin) as Hk. now apply bool_decide_eq_false in Hk.
Qed.

Lemma snoc_split {B : Type} (l l1 l2 : list B) (x c : B) :
  l ++ [x] = l1 ++ c :: l2 ->
  (l2 = [] /\ l1 = l /\ c = x) \/ (exists l2', l2 = l2' ++ [x] /\ l = l1 ++ c :: l2').
Proof.
  destruct l2 as [|y l2 _] using rev_ind; intros H.
  - left. apply app_inj_tail in H as [-> ->]. auto.
  - right. change (l ++ [x] = l1 ++ (c :: l2) ++ [y]) in H.
    rewrite app_assoc in H. apply app_inj_tail in H as [-> ->].
    exists l2. auto.
Qed.

Lemma mergeStep_invariant (st : MergeState A) (s : A) :
  seenIsKept st /\ keptApart st /\ droppedShare st /\ keptFields st ->
  seenIsKept (mergeStep view st s) /\ keptApart (mergeStep view st s) /\
  droppedShare (mergeStep view st s) /\ keptFields (mergeStep view st s).
Proof.
  intros (Hseen & Hapart & Hdrop & Hfields). unfold mergeStep. cbv zeta.
  destruct (find _ (keysOf s)) as [key|] eqn:Hfind;
    cbn [combined seen duplicates].
  - apply find_seen_Some in Hfind as [Hin Hs].
    split; [exact Hseen|]. split; [exact Hapart|]. split; [|exact Hfields].
    intros d Hd. apply elem_of_app in Hd as [Hd|Hd]; [now apply Hdrop|].
    apply list_elem_of_singleton in Hd. subst d. cbn [duplicateKey dup_signal].
    split; [exact Hin|]. now apply Hseen.
  - pose proof (find_seen_None _ _ Hfind) as Hnew.
    split; [|split; [|split]].
    + intros k. rewrite elem_of_seen_add, Hseen. split.
      * intros [Hk|(c & Hc & Hk)].
        -- eexists. split; [apply elem_of_app; right; apply list_elem_of_singleton;
                            reflexivity|exact Hk].
        -- exists c. split; [apply elem_of_app; now left|exact Hk].
      * intros (c & Hc & Hk). apply elem_of_app in Hc as [Hc|Hc]; [right; eauto|].
        apply list_elem_of_singleton in Hc. subst c. now left.
    + intros l1 c l2 Heq c' Hc' k Hk.
      apply snoc_split in Heq as [(_ & -> & ->)|(l2' & _ & Heq)].
      * cbn [originalSignal] in Hk. intros Hk'.
        apply (Hnew k Hk), Hseen. eauto.
      * now apply (Hapart l1 c l2' Heq c' Hc' k).
    + intros d Hd. destruct (Hdrop d Hd) as (H1 & c & Hc & H2).
      split; [exact H1|]. exists c. split; [apply elem_of_app; now left|exact H2].
    + intros c Hc. apply elem_of_app in Hc as [Hc|Hc]; [now apply Hfields|].
      apply list_elem_of_singleton in Hc. subst c. auto.
Qed.

Lemma mergeStep_originals (st : MergeState A) (s : A) :
  originals (mergeStep view st s) ≡ₚ originals st ++ [s].
Proof.
  unfold mergeStep. cbv zeta.
  destruct (find _ (keysOf s)); cbn [combined seen duplicates];
    rewrite fmap_app; cbn [fmap list_fmap originalSignal dup_signal].
  - now rewrite app_assoc.
  - rewrite <- !app_assoc. apply Permutation_app_head.
    cbn [app]. apply Permutation_cons_append.
Qed.

Lemma mergeLoop_invariant (l : list A) (st : MergeState A) :
  seenIsKept st /\ keptApart st /\ droppedShare st /\ keptFields st ->
  (seenIsKept (foldl (mergeStep view) st l) /\
   keptApart (foldl (mergeStep view) st l) /\
   droppedShare (foldl (mergeStep view) st l) /\
   keptFields (foldl (mergeStep view) st l)) /\
  originals (foldl (mergeStep view) st l) ≡ₚ originals st ++ l.
Proof.
  revert st. induction l as [|s l IH]; intros st Hinv; cbn [foldl].
  - split; [exact Hinv|now rewrite app_nil_r].
  - destruct (IH _ (mergeStep_invariant st s Hinv)) as [Hinv' Hperm].
    split; [exact Hinv'|].
    rewrite Hperm, mergeStep_originals, <- app_assoc. reflexivity.
Qed.

Lemma mergeAll_flat (allSignals : list (list A)) :
  mergeAll view allSignals = foldl (mergeStep view) init (concat allSignals).
Proof.
  unfold mergeAll. generalize init.
  induction allSignals as [|l ls IH]; intros st; [reflexivity|].
  cbn [foldl concat]. now rewrite foldl_app, IH.
Qed.

Lemma init_invariant :
  seenIsKept init /\ keptApart init /\ droppedShare init /\ keptFields init.
Proof.
  cbn [combined seen duplicates]. split; [|split; [|split]].
  - intros k. split.
    + intros Hk. now apply not_elem_of_empty in Hk.
    + intros (c & Hc & _). inversion Hc.
  - intros l1 c l2 Heq. now destruct l1.
  - intros d Hd. inversion Hd.
  - intros c Hc. inversion Hc.
Qed.

(** X26.  [mergeAndDedupe]: the nesting of the lists plays no part; every
    signal is either merged or dropped; the keys of a merged signal are
    none of the keys of the signals merged before it; a dropped signal
    shares its duplicate key with a merged one; and the source, title and
    link of a merged signal are those the keys were made of. *)
Theorem mergeAndDedupe_spec (allSignals : list (list A)) :
  mergeAll view allSignals = mergeAll view [concat allSignals] /\
  originals (mergeAll view allSignals) ≡ₚ concat allSignals /\
  keptApart (mergeAll view allSignals) /\
  droppedShare (mergeAll view allSignals) /\
  keptFields (mergeAll view allSignals).
Proof.
  split.
  - rewrite !mergeAll_flat. cbn [concat]. now rewrite app_nil_r.
  - rewrite mergeAll_flat.
    destruct (mergeLoop_invariant (concat allSignals) init init_invariant)
      as ((_ & Hapart & Hdrop & Hfields) & Hperm).
    auto.
Qed.

(** A list whose signals have keys that are neither seen nor keys of a
    signal before them in the list is merged whole. *)
Lemma mergeLoop_keeps_all (l : list A) (st : MergeState A) :
  (forall l1 c l2, l = l1 ++ c :: l2 -> forall k, k ∈ keysOf c ->
     (k ∉ seen st) /\ forall c', c' ∈ l1 -> k ∉ keysOf c') ->
  combined (foldl (mergeStep view) st l)
  = combined st ++
    ((fun s => {| n_source := CollectionTracker.signalSource (view s);
                  n_title := CollectionTracker.signalTitle (view s);
                  n_link := CollectionTracker.signalUrl (view s);
                  originalSignal := s |}) <$> l).
Proof.
  revert st. induction l as [|s l IH]; intros st Hnew; cbn [foldl fmap list_fmap].
  - now rewrite app_nil_r.
  - rewrite IH.
    + unfold mergeStep at 1. cbv zeta.
      destruct (find _ (keysOf s)) as [key|] eqn:Hfind.
      * apply find_seen_Some in Hfind as [Hin Hs].
        now destruct (proj1 (Hnew [] s l eq_refl key Hin)).
      * cbn [combined]. now rewrite <- app_assoc.
    + intros l1 c l2 -> k Hk.
      destruct (Hnew (s :: l1) c l2 eq_refl k Hk) as [Hs Hl1].
      split.
      * unfold mergeStep. cbv zeta.
        destruct (find _ (keysOf s)) as [key|] eqn:Hfind; cbn [seen]; [exact Hs|].
        rewrite elem_of_seen_add. intros [Hk'|Hk']; [|contradiction].
        apply (Hl1 s); [apply elem_of_cons; now left|exact Hk'].
      * intros c' Hc'. apply Hl1, elem_of_cons. now right.
Qed.

End Merge.

Lemma signalSource_nonempty (s : Signal) : CollectionTracker.signalSource s ≠ "".
Proof.
  unfold CollectionTracker.signalSource, JS.orElse.
  destruct (String.eqb_spec (source s) ""); [|assumption].
  destruct (String.eqb_spec (repo s) ""); [discriminate|assumption].
Qed.

Lemma orElse_empty_r (x : string) : JS.orElse x "" = x.
Proof. unfold JS.orElse. now destruct (String.eqb_spec x ""). Qed.

(** A merged signal read again has the keys of the signal it came
    from. *)
Lemma mergeKeys_asSignal {A : Type} (view : A -> Signal) (c : Normalized A) :
  n_source c = CollectionTracker.signalSource (view (originalSignal c)) ->
  n_title c = CollectionTracker.signalTitle (view (originalSignal c)) ->
  n_link c = CollectionTracker.signalUrl (view (originalSignal c)) ->
  CollectionTracker.signalSource (asSignal c) = n_source c /\
  CollectionTracker.signalTitle (asSignal c) = n_title c /\
  CollectionTracker.signalUrl (asSignal c) = n_link c /\
  mergeKeys asSignal c = mergeKeys view (originalSignal c).
Proof.
  intros Hs Ht Hl.
  assert (H1 : CollectionTracker.signalSource (asSignal c) = n_source c).
  { unfold CollectionTracker.signalSource, asSignal. cbn [source repo].
    unfold JS.orElse at 1. destruct (String.eqb_spec (n_source c) ""); [|reflexivity].
    exfalso. apply (signalSource_nonempty (view (originalSignal c))). congruence. }
  assert (H2 : CollectionTracker.signalTitle (asSignal c) = n_title c).
  { unfold CollectionTracker.signalTitle, asSignal. cbn [title judul].
    change (JS.orElse "" "") with "". apply orElse_empty_r. }
  assert (H3 : CollectionTracker.signalUrl (asSignal c) = n_link c).
  { unfold CollectionTracker.signalUrl, asSignal. cbn [url link].
    rewrite orElse_empty_r. reflexivity. }
  repeat (split; [assumption|]).
  unfold mergeKeys. cbv zeta. rewrite H1, H2, H3, Hs, Ht, Hl. reflexivity.
Qed.

(** X27.  Merging what was merged changes nothing: the second
    [mergeAndDedupe] of the collection run, given the signals the first
    one returned, drops none of them and keeps the source, title and link
    of each. *)
Theorem mergeAndDedupe_again {A : Type} (view : A -> Signal)
    (allSignals : list (list A)) :
  mergeAndDedupe asSignal [mergeAndDedupe view allSignals]
  = ((fun c => {| n_source := n_source c; n_title := n_title c;
                  n_link := n_link c; originalSignal := c |})
       <$> mergeAndDedupe view allSignals).
Proof.
  unfold mergeAndDedupe at 1. rewrite mergeAll_flat. cbn [concat].
  rewrite app_nil_r. unfold mergeAndDedupe.
  rewrite (mergeAll_flat view).
  destruct (mergeLoop_invariant view (concat allSignals) _ (init_invariant view))
    as ((_ & Hapart & _ & Hfields) & _).
  set (st := foldl (mergeStep view) _ (concat allSignals)) in *.
  rewrite mergeLoop_keeps_all.
  - cbn [combined app]. apply Forall_fmap_ext, Forall_forall. intros c Hc.
    destruct (Hfields c Hc) as (Hs & Ht & Hl).
    destruct (mergeKeys_asSignal view c Hs Ht Hl) as (-> & -> & -> & _).
    reflexivity.
  - intros l1 c l2 Heq k Hk. split; [apply not_elem_of_empty|].
    intros c' Hc'.
    assert (Hc : c ∈ combined st)
      by (rewrite Heq; apply elem_of_app; right; apply elem_of_cons; now left).
    assert (Hc'' : c' ∈ combined st)
      by (rewrite Heq; apply elem_of_app; now left).
    destruct (Hfields c Hc) as (Hs & Ht & Hl).
    destruct (Hfields c' Hc'') as (Hs' & Ht' & Hl').
    rewrite (proj2 (proj2 (proj2 (mergeKeys_asSignal view c Hs Ht Hl)))) in Hk.
    rewrite (proj2 (proj2 (proj2 (mergeKeys_asSignal view c' Hs' Ht' Hl')))).
    exact (Hapart l1 c l2 Heq c' Hc' k Hk).
Qed.

End CollectorFacts.
